(** * Fire-risk early-warning pipeline: Modbus RTU driver, unit
      normalisation, fusion, deduplicated store write and alert cooldown.

    Shallow embedding of [RaspberryPi/wind_reader.py],
    [RaspberryPi/F_index.py] and [RaspberryPi/sms_alert.py].

    Conventions used throughout.
    - A Python [bytes] value is a [list Z] whose elements lie in [0, 256)
      ([is_bytes]); Python integers are [Z].
    - A Python [float] is a binary64 value, [PrimFloat.float]; comparisons
      are the IEEE ones ([<=?], [<?]), so a NaN compares false.
    - A timezone-aware UTC [datetime] with second precision (what
      [strptime] with the format [%Y-%m-%dT%H:%M:%SZ] yields) is the number
      of seconds since the epoch, a [Z]; [datetime.timestamp()] is then the
      identity, and the float it returns is integer valued and exact.
    - A Python [str] is a [string] read as the sequence of its code
      points, one character each, all below 256; [str.strip],
      [str.lower] and [str.upper] are the Unicode ones on that range (the
      no-break space is white space, the sharp s uppercases to SS).
    - Raised exceptions are values of a [result] type.
    - Calls to external collaborators (the time-series store, the SMS
      modem) are recorded in an event log; the answer of the collaborator
      is an argument of the operation that calls it. *)

From Stdlib Require Import String Ascii.
From Stdlib Require Import ZArith List Bool Lia Floats.
Import ListNotations.

Local Open Scope Z_scope.
Set Warnings "-inexact-float".

(** ** Exceptions and results *)

(** The exceptions raised by the frame builder and parser.  All but
    [StructError] are [ValueError]s in the source, told apart here by the
    message they carry. *)
Inductive exn : Type :=
| ShortResponse (len : nat)                 (* "Respuesta corta" *)
| InvalidCRC (calc recv : Z)                (* "CRC inválido" *)
| UnexpectedSlave (got : Z)                 (* "Slave inesperado" *)
| ModbusException (func code : Z)           (* "Excepción Modbus" *)
| UnexpectedFunction (func : Z)             (* "Func inesperada" *)
| UnexpectedByteCount (got expected : Z)    (* "Byte count inesperado" *)
| StructError.                              (* struct.error *)

Definition is_ValueError (e : exn) : bool :=
  match e with
  | StructError => false
  | _ => true
  end.

Inductive result (A : Type) : Type :=
| Ok (a : A)
| Raise (e : exn).
Arguments Ok {A} a.
Arguments Raise {A} e.

Definition bind {A B} (r : result A) (k : A -> result B) : result B :=
  match r with
  | Ok a => k a
  | Raise e => Raise e
  end.

Notation "x <- r ;; k" := (bind r (fun x => k))
  (at level 61, r at next level, right associativity).

(** ** wind_reader.py: Modbus RTU frames *)

Module wind_reader.

Definition is_byte (b : Z) : bool := (0 <=? b) && (b <? 256).
Definition is_bytes (l : list Z) : bool := forallb is_byte l.

(** One turn of the inner loop of [modbus_crc16]. *)
Definition crc_shift (crc : Z) : Z :=
  if negb (Z.land crc 0x0001 =? 0)
  then Z.lxor (Z.shiftr crc 1) 0xA001
  else Z.shiftr crc 1.

Fixpoint crc_shifts (n : nat) (crc : Z) : Z :=
  match n with
  | O => crc
  | S n' => crc_shifts n' (crc_shift crc)
  end.

(** The body of the outer loop: [crc ^= b] then eight shifts. *)
Definition crc_update (crc b : Z) : Z := crc_shifts 8 (Z.lxor crc b).

Definition crc_run (init : Z) (data : list Z) : Z :=
  fold_left crc_update data init.

Definition modbus_crc16 (data : list Z) : Z :=
  Z.land (crc_run 0xFFFF data) 0xFFFF.

(** [struct.pack] of one field: [B] is one byte, [H] two bytes, big- or
    little-endian; a value out of range raises [struct.error]. *)
Definition pack_B (v : Z) : result (list Z) :=
  if (0 <=? v) && (v <=? 255) then Ok [v] else Raise StructError.

Definition pack_H_be (v : Z) : result (list Z) :=
  if (0 <=? v) && (v <=? 65535)
  then Ok [Z.shiftr v 8; Z.land v 0xFF] else Raise StructError.

Definition pack_H_le (v : Z) : result (list Z) :=
  if (0 <=? v) && (v <=? 65535)
  then Ok [Z.land v 0xFF; Z.shiftr v 8] else Raise StructError.

(** [struct.unpack("<H", b)[0]]. *)
Definition unpack_H_le (b : list Z) : result Z :=
  match b with
  | [lo; hi] => Ok (Z.lor lo (Z.shiftl hi 8))
  | _ => Raise StructError
  end.

(** [struct.unpack(">" + "H" * n, data)]: exactly [2 * n] bytes wanted. *)
Fixpoint unpack_H_be_many (n : nat) (data : list Z) : result (list Z) :=
  match n, data with
  | O, [] => Ok []
  | S n', hi :: lo :: rest =>
      vs <- unpack_H_be_many n' rest ;;
      Ok (Z.lor (Z.shiftl hi 8) lo :: vs)
  | _, _ => Raise StructError
  end.

Definition build_read_holding_registers (slave start_addr reg_count : Z)
  : result (list Z) :=
  b_slave <- pack_B slave ;;
  b_func <- pack_B 0x03 ;;
  b_start <- pack_H_be start_addr ;;
  b_count <- pack_H_be reg_count ;;
  let pdu := b_slave ++ b_func ++ b_start ++ b_count in
  let crc := modbus_crc16 pdu in
  b_crc <- pack_H_le crc ;;
  Ok (pdu ++ b_crc).

(** [payload[i]] for an index the source guards by the length check. *)
Definition at_ (l : list Z) (i : nat) : Z := nth i l 0.

Definition parse_read_holding_registers (resp : list Z) (slave reg_count : Z)
  : result (list Z) :=
  if (length resp <? 5)%nat then Raise (ShortResponse (length resp)) else
  let payload := firstn (length resp - 2) resp in
  crc_recv <- unpack_H_le (skipn (length resp - 2) resp) ;;
  let crc_calc := modbus_crc16 payload in
  if negb (crc_calc =? crc_recv) then Raise (InvalidCRC crc_calc crc_recv) else
  if negb (at_ payload 0 =? slave) then Raise (UnexpectedSlave (at_ payload 0)) else
  if negb (at_ payload 1 =? 0x03) then
    if negb (Z.land (at_ payload 1) 0x80 =? 0) then
      let exc_code := if (2 <? length payload)%nat then at_ payload 2 else -1 in
      Raise (ModbusException (at_ payload 1) exc_code)
    else Raise (UnexpectedFunction (at_ payload 1))
  else
  let byte_count := at_ payload 2 in
  let expected := reg_count * 2 in
  if negb (byte_count =? expected) then
    Raise (UnexpectedByteCount byte_count expected)
  else
  let data := firstn (Z.to_nat byte_count) (skipn 3 payload) in
  unpack_H_be_many (Z.to_nat reg_count) data.

(** The two parts of a response the parser works on: [resp[:-2]] and the
    little-endian CRC held in [resp[-2:]]. *)
Definition payload_of (resp : list Z) : list Z :=
  firstn (length resp - 2) resp.

Definition crc_field (resp : list Z) : Z :=
  Z.lor (at_ resp (length resp - 2)) (Z.shiftl (at_ resp (length resp - 1)) 8).

(** Register [k] of a response payload, big-endian. *)
Definition register_at (payload : list Z) (k : nat) : Z :=
  Z.lor (Z.shiftl (at_ payload (3 + 2 * k)) 8) (at_ payload (4 + 2 * k)).

(** The request frame as the wire format lays it out:
    [slave][0x03][start, big-endian][count, big-endian][CRC16, little-endian]. *)
Definition request_pdu (slave start_addr reg_count : Z) : list Z :=
  [slave; 0x03; Z.shiftr start_addr 8; Z.land start_addr 0xFF;
   Z.shiftr reg_count 8; Z.land reg_count 0xFF].

Definition request_frame (slave start_addr reg_count : Z) : list Z :=
  let pdu := request_pdu slave start_addr reg_count in
  let crc := modbus_crc16 pdu in
  pdu ++ [Z.land crc 0xFF; Z.shiftr crc 8].

(** The checks of the parser, as propositions on a response. *)
Definition crc_ok (resp : list Z) : Prop :=
  modbus_crc16 (payload_of resp) = crc_field resp.

Definition slave_ok (resp : list Z) (slave : Z) : Prop :=
  at_ (payload_of resp) 0 = slave.

Definition function_ok (resp : list Z) : Prop :=
  at_ (payload_of resp) 1 = 0x03.

Definition byte_count_ok (resp : list Z) (reg_count : Z) : Prop :=
  at_ (payload_of resp) 2 = reg_count * 2.

Definition registers_of (resp : list Z) (reg_count : Z) : list Z :=
  map (register_at (payload_of resp)) (seq 0 (Z.to_nat reg_count)).

(** Byte-wise exclusive or of two byte strings, and the error pattern of
    [len] bytes with only bit [i] set. *)
Fixpoint xor_bytes (a b : list Z) : list Z :=
  match a, b with
  | x :: a', y :: b' => Z.lxor x y :: xor_bytes a' b'
  | _, _ => []
  end.

Fixpoint unit_bit (i len : nat) : list Z :=
  match len with
  | O => []
  | S len' =>
      if (i <? 8)%nat then Z.shiftl 1 (Z.of_nat i) :: repeat 0 len'
      else 0 :: unit_bit (i - 8) len'
  end.

(** Flipping bit [i] of a frame: bit [i mod 8] of byte [i / 8]. *)
Fixpoint flip_bit (i : nat) (frame : list Z) : list Z :=
  match frame with
  | [] => []
  | b :: rest =>
      if (i <? 8)%nat then Z.lxor b (Z.shiftl 1 (Z.of_nat i)) :: rest
      else b :: flip_bit (i - 8) rest
  end.

End wind_reader.

(** ** F_index.py: unit normalisation, fusion, dedup write, alerts *)

Module F_index.

(** *** Python string methods used by [to_kmh]

    A [str] is read as the sequence of its code points, one character of
    the string each; the strings of this development are those whose
    code points are all below 256. *)

(** [str.isspace] on one character: the ASCII white space, the
    separators U+001C to U+001F, U+0085 and U+00A0. *)
Definition is_space (c : ascii) : bool :=
  let n := nat_of_ascii c in
  ((9 <=? n) && (n <=? 13) || (28 <=? n) && (n <=? 32)
   || (n =? 133) || (n =? 160))%nat.

Fixpoint lstrip (s : string) : string :=
  match s with
  | EmptyString => EmptyString
  | String c r => if is_space c then lstrip r else s
  end.

Fixpoint rstrip (s : string) : string :=
  match s with
  | EmptyString => EmptyString
  | String c r =>
      match rstrip r with
      | EmptyString => if is_space c then EmptyString else String c EmptyString
      | r' => String c r'
      end
  end.

Definition strip (s : string) : string := rstrip (lstrip s).

(** [str.lower] on one character: A to Z, and U+00C0 to U+00DE but for
    the multiplication sign U+00D7. *)
Definition lower_ascii (c : ascii) : ascii :=
  let n := nat_of_ascii c in
  if ((65 <=? n) && (n <=? 90)
      || (192 <=? n) && (n <=? 222) && negb (n =? 215))%nat
  then ascii_of_nat (n + 32) else c.

Fixpoint lower (s : string) : string :=
  match s with
  | EmptyString => EmptyString
  | String c r => String (lower_ascii c) (lower r)
  end.

(** [s.replace(" ", "")]. *)
Fixpoint remove_spaces (s : string) : string :=
  match s with
  | EmptyString => EmptyString
  | String c r =>
      if Ascii.eqb c " "%char then remove_spaces r else String c (remove_spaces r)
  end.

(** [x in (a, b, c)] on strings. *)
Definition str_in (x : string) (l : list string) : bool :=
  existsb (String.eqb x) l.

(** The two tuples of unit spellings [to_kmh] tests against. *)
Definition KMH_UNITS : list string := ["km/h"; "kmh"; "kph"]%string.
Definition MS_UNITS : list string := ["m/s"; "ms"; "mps"]%string.



(** [unit.strip().lower().replace(" ", "")]. *)
Definition unit_norm_of (unit : string) : string :=
  remove_spaces (lower (strip unit)).

(** *** The index *)

(** [fmi = 10.0 - 0.25 * (t - h)]. *)
Definition fmi_of (t h : float) : float := (10 - 0.25 * (t - h))%float.

(** [u_eff = u if u >= 1.0 else 1.0]. *)
Definition u_eff_of (u : float) : float :=
  if (1 <=? u)%float then u else 1%float.

(** [f_val = u_eff / fmi]. *)
Definition f_index_of (t h u : float) : float :=
  (u_eff_of u / fmi_of t h)%float.

(** *** Configuration and library calls *)

(** The module-level constants read from the environment. *)
Record Config : Type := {
  F_THRESHOLD : float;
  ALERT_COOLDOWN : Z;
  SYNC_WINDOW_S : Z;
  DEFAULT_WIND_INPUT_UNIT : string
}.

(** The [datetime] library calls: [strptime] (failing with [None]) and
    [strftime] with the format [%Y-%m-%dT%H:%M:%SZ], and [local_time],
    the expression
    [dt.astimezone(ZoneInfo("America/Bogota")).strftime("%Y-%m-%d %H:%M:%S")]
    of [maybe_send_alert], [None] when it raises (the local time of the
    first hours of year 1 is out of range).  They are not code of the
    repository; the development is parametric in them and makes no
    assumption about them. *)
Record Datetime : Type := {
  strptime : string -> option Z;
  strftime : Z -> string;
  local_time : Z -> option string
}.

(** *** In-memory state and the log of external calls *)

Inductive Event : Type :=
| InfluxWrite (f_value : float) (ts_iso : string) (ok : bool)
| SmsSend (f_value : float) (ts_iso : string) (ok : bool).

(** The module-level globals, and the external calls made so far (most
    recent first). *)
Record State : Type := {
  dht_t : option float;                 (* latest_dht["t"] *)
  dht_h : option float;                 (* latest_dht["h"] *)
  dht_ts : option Z;                    (* latest_dht["ts"] *)
  wind_u : option float;                (* latest_wind["u"], km/h *)
  wind_ts : option Z;                   (* latest_wind["ts"] *)
  last_alert_epoch_data : option Z;
  last_alert_ts_iso : option string;
  last_write_ts_iso : option string;
  events : list Event
}.

Definition initial_state : State :=
  {| dht_t := None; dht_h := None; dht_ts := None;
     wind_u := None; wind_ts := None;
     last_alert_epoch_data := None; last_alert_ts_iso := None;
     last_write_ts_iso := None; events := [] |}.

Definition set_last_write (ts : string) (st : State) : State :=
  {| dht_t := dht_t st; dht_h := dht_h st; dht_ts := dht_ts st;
     wind_u := wind_u st; wind_ts := wind_ts st;
     last_alert_epoch_data := last_alert_epoch_data st;
     last_alert_ts_iso := last_alert_ts_iso st;
     last_write_ts_iso := Some ts; events := events st |}.

Definition set_last_alert (epoch : Z) (ts : string) (st : State) : State :=
  {| dht_t := dht_t st; dht_h := dht_h st; dht_ts := dht_ts st;
     wind_u := wind_u st; wind_ts := wind_ts st;
     last_alert_epoch_data := Some epoch;
     last_alert_ts_iso := Some ts;
     last_write_ts_iso := last_write_ts_iso st; events := events st |}.

Definition emit (e : Event) (st : State) : State :=
  {| dht_t := dht_t st; dht_h := dht_h st; dht_ts := dht_ts st;
     wind_u := wind_u st; wind_ts := wind_ts st;
     last_alert_epoch_data := last_alert_epoch_data st;
     last_alert_ts_iso := last_alert_ts_iso st;
     last_write_ts_iso := last_write_ts_iso st; events := e :: events st |}.

(** [a == b] where [a] may be [None] and [b] is a string. *)
Definition opt_str_eqb (a : option string) (b : string) : bool :=
  match a with
  | Some x => String.eqb x b
  | None => false
  end.

(** What [write_f_to_influx] did. *)
Inductive WriteOutcome : Type :=
| SkippedDuplicate     (* early return, store not called *)
| Written              (* store called and answered *)
| Failed.              (* store called and raised; the exception escapes *)

(** The branch [maybe_send_alert] took, as its log lines tell. *)
Inductive AlertOutcome : Type :=
| BelowThreshold
| InvalidTimestamp
| DuplicateTimestamp   (* "Alerta ignorada: mismo timestamp" *)
| NonMonotonic         (* "Alerta ignorada: timestamp no monotónico" *)
| Cooldown             (* "Alert blocked by cooldown" *)
| Allowed (sent_ok : bool)    (* [allow = True]: the event is admitted; the SMS is tried *)
| LocalTimeRaised.           (* [allow = True], the state recorded; formatting
                                the local time raises and nothing is sent *)

(** What [compute_and_store_if_ready] did. *)
Inductive FusionOutcome : Type :=
| NotReady
| OutOfSync
| FmiNonPositive (fmi : float)
| Computed (fmi f_val : float) (ts_iso : string)
           (w : WriteOutcome) (a : option AlertOutcome).

Section Pipeline.

Variable cfg : Config.
Variable lib : Datetime.

Definition parse_iso8601 (ts : string) : option Z := strptime lib ts.

Definition seconds_between (ts1 ts2 : Z) : Z := Z.abs (ts1 - ts2).

(** [store_ok] is the answer of [influx.write_points] should it be
    called: [true] when it returns, [false] when it raises. *)
Definition write_f_to_influx (store_ok : bool) (f_value : float)
    (ts_iso : string) (st : State) : State * WriteOutcome :=
  if opt_str_eqb (last_write_ts_iso st) ts_iso then (st, SkippedDuplicate)
  else
    let st1 := emit (InfluxWrite f_value ts_iso store_ok) st in
    if store_ok then (set_last_write ts_iso st1, Written)
    else (st1, Failed).

(** [u_raw] is the wind value after [float(u_raw)]; [unit] is the
    payload's unit, [None] when absent. *)
Definition to_kmh (u_raw : float) (unit : option string) : option float :=
  let u := u_raw in
  let chosen :=
    match unit with
    | None => DEFAULT_WIND_INPUT_UNIT cfg
    | Some EmptyString => DEFAULT_WIND_INPUT_UNIT cfg
    | Some s => s
    end in
  let unit_norm := unit_norm_of chosen in
  if str_in unit_norm KMH_UNITS then Some u
  else if str_in unit_norm MS_UNITS then Some (u * 3.6)%float
  else Some (u * 3.6)%float.

(** The body of [with alert_lock:]: the decision, and the state update
    when the event is let through ([None] as outcome). *)
Definition alert_critical_section (ts_iso : string) (ts_epoch : Z)
    (st : State) : State * option AlertOutcome :=
  if opt_str_eqb (last_alert_ts_iso st) ts_iso
  then (st, Some DuplicateTimestamp)
  else
    let verdict :=
      match last_alert_epoch_data st with
      | None => None
      | Some last =>
          let delta := ts_epoch - last in
          if delta <=? 0 then Some NonMonotonic
          else if delta <? ALERT_COOLDOWN cfg then Some Cooldown
          else None
      end in
    match verdict with
    | Some why => (st, Some why)
    | None => (set_last_alert ts_epoch ts_iso st, None)
    end.

(** [sms_ok] is the answer of [send_sms_alert] should it be called.
    Between the [with] block and the send the local time is formatted;
    when that raises, the exception leaves the function with the state
    recorded and nothing sent. *)
Definition maybe_send_alert (sms_ok : bool) (f_value : float)
    (ts_iso : string) (st : State) : State * AlertOutcome :=
  if (f_value <=? F_THRESHOLD cfg)%float then (st, BelowThreshold) else
  match parse_iso8601 ts_iso with
  | None => (st, InvalidTimestamp)
  | Some dt =>
      let ts_epoch := dt in
      match alert_critical_section ts_iso ts_epoch st with
      | (st1, Some why) => (st1, why)
      | (st1, None) =>
          match local_time lib ts_epoch with
          | None => (st1, LocalTimeRaised)
          | Some ts_local =>
              (emit (SmsSend f_value ts_iso sms_ok) st1, Allowed sms_ok)
          end
      end
  end.

Definition compute_and_store_if_ready (store_ok sms_ok : bool) (st : State)
  : State * FusionOutcome :=
  match dht_t st, dht_h st, wind_u st, dht_ts st, wind_ts st with
  | Some t, Some h, Some u, Some ts_dht, Some ts_wind =>
      if seconds_between ts_dht ts_wind >? SYNC_WINDOW_S cfg
      then (st, OutOfSync)
      else
        let ref_ts := if ts_dht >=? ts_wind then ts_dht else ts_wind in
        let ts_iso := strftime lib ref_ts in
        let fmi := fmi_of t h in
        if (fmi <=? 0)%float then (st, FmiNonPositive fmi)
        else
          let u_eff := u_eff_of u in
          let f_val := (u_eff / fmi)%float in
          match write_f_to_influx store_ok f_val ts_iso st with
          | (st1, Failed) => (st1, Computed fmi f_val ts_iso Failed None)
          | (st1, w) =>
              let '(st2, a) := maybe_send_alert sms_ok f_val ts_iso st1 in
              (st2, Computed fmi f_val ts_iso w (Some a))
          end
  | _, _, _, _, _ => (st, NotReady)
  end.

(** A decoded MQTT message that passed the timestamp check of
    [on_message]: the payload fields the two sensor branches read. *)
Inductive Message : Type :=
| DhtReading (t h : float) (ts : Z)                      (* sensor_id 1 *)
| WindKmh (wind_speed_kmh : float) (ts : Z)              (* sensor_id 2 *)
| WindRaw (wind_speed : float) (unit : option string) (ts : Z).

Definition set_dht (t h : float) (ts : Z) (st : State) : State :=
  {| dht_t := Some t; dht_h := Some h; dht_ts := Some ts;
     wind_u := wind_u st; wind_ts := wind_ts st;
     last_alert_epoch_data := last_alert_epoch_data st;
     last_alert_ts_iso := last_alert_ts_iso st;
     last_write_ts_iso := last_write_ts_iso st; events := events st |}.

Definition set_wind (u : float) (ts : Z) (st : State) : State :=
  {| dht_t := dht_t st; dht_h := dht_h st; dht_ts := dht_ts st;
     wind_u := Some u; wind_ts := Some ts;
     last_alert_epoch_data := last_alert_epoch_data st;
     last_alert_ts_iso := last_alert_ts_iso st;
     last_write_ts_iso := last_write_ts_iso st; events := events st |}.

Definition on_message (store_ok sms_ok : bool) (m : Message) (st : State)
  : State :=
  match m with
  | DhtReading t h ts =>
      fst (compute_and_store_if_ready store_ok sms_ok (set_dht t h ts st))
  | WindKmh u ts =>
      fst (compute_and_store_if_ready store_ok sms_ok (set_wind u ts st))
  | WindRaw u_raw unit ts =>
      match to_kmh u_raw unit with
      | Some u_kmh =>
          fst (compute_and_store_if_ready store_ok sms_ok (set_wind u_kmh ts st))
      | None => st
      end
  end.

(** A process lifetime: the messages delivered, each with the answers
    the store and the modem would give. *)
Fixpoint run (ms : list (Message * bool * bool)) (st : State) : State :=
  match ms with
  | [] => st
  | (m, store_ok, sms_ok) :: rest => run rest (on_message store_ok sms_ok m st)
  end.

End Pipeline.

(** A sequence of calls of [write_f_to_influx]. *)
Record WriteCall : Type := {
  wc_store_ok : bool;
  wc_f_value : float;
  wc_ts_iso : string
}.

Fixpoint run_writes (calls : list WriteCall) (st : State) : State :=
  match calls with
  | [] => st
  | c :: rest =>
      run_writes rest
        (fst (write_f_to_influx (wc_store_ok c) (wc_f_value c) (wc_ts_iso c) st))
  end.

(** Calls of the store, and those that succeeded for timestamp [T]. *)
Definition is_store_call (e : Event) : bool :=
  match e with
  | InfluxWrite _ _ _ => true
  | _ => false
  end.

Definition is_stored (T : string) (e : Event) : bool :=
  match e with
  | InfluxWrite _ ts true => String.eqb ts T
  | _ => false
  end.

Definition is_sms (e : Event) : bool :=
  match e with
  | SmsSend _ _ _ => true
  | _ => false
  end.

Definition store_calls (st : State) : nat :=
  length (filter is_store_call (events st)).

Definition stored_count (T : string) (st : State) : nat :=
  length (filter (is_stored T) (events st)).

Definition sms_count (st : State) : nat :=
  length (filter is_sms (events st)).

(** The timestamps of the successful store writes, most recent first. *)
Fixpoint stored_timestamps (evs : list Event) : list string :=
  match evs with
  | [] => []
  | InfluxWrite _ ts true :: rest => ts :: stored_timestamps rest
  | _ :: rest => stored_timestamps rest
  end.

(** No two neighbours of a list are equal. *)
Fixpoint no_adjacent_dup (l : list string) : Prop :=
  match l with
  | a :: (b :: _) as rest => a <> b /\ no_adjacent_dup rest
  | _ => True
  end.

(** The recorded timestamp is that of the latest successful store write. *)
Definition write_log_consistent (st : State) : Prop :=
  last_write_ts_iso st = hd_error (stored_timestamps (events st)).

(** The invariant of the store log. *)
Definition write_inv (st : State) : Prop :=
  write_log_consistent st /\ no_adjacent_dup (stored_timestamps (events st)).

(** [None] is below every recorded epoch. *)
Definition epoch_le (a b : option Z) : Prop :=
  match a, b with
  | None, _ => True
  | Some _, None => False
  | Some x, Some y => x <= y
  end.

Definition epoch_lt (a b : option Z) : Prop :=
  match a, b with
  | None, Some _ => True
  | Some x, Some y => x < y
  | _, None => False
  end.

(** The alert-related part of two states agrees. *)
Definition same_alert_state (a b : State) : Prop :=
  last_alert_epoch_data a = last_alert_epoch_data b /\
  last_alert_ts_iso a = last_alert_ts_iso b.

(** The recorded timestamp string and epoch belong together. *)
Definition alert_state_consistent (lib : Datetime) (st : State) : Prop :=
  match last_alert_ts_iso st, last_alert_epoch_data st with
  | None, None => True
  | Some ts, Some e => strptime lib ts = Some e
  | _, _ => False
  end.

(** The guard [f_value <= F_THRESHOLD] of [maybe_send_alert] is not taken. *)
Definition over_threshold (cfg : Config) (f_value : float) : Prop :=
  (f_value <=? F_THRESHOLD cfg)%float = false.

(** What follows the [with] block of [maybe_send_alert] for an event let
    through, from the state [st1] the block has left: the local time is
    formatted, then the SMS is sent. *)
Definition let_through (lib : Datetime) (sms_ok : bool) (f_value : float)
    (ts_iso : string) (ts_epoch : Z) (st1 : State) : State * AlertOutcome :=
  match local_time lib ts_epoch with
  | None => (st1, LocalTimeRaised)
  | Some ts_local => (emit (SmsSend f_value ts_iso sms_ok) st1, Allowed sms_ok)
  end.

(** The event is not let through: an outcome other than [Allowed] and
    [LocalTimeRaised]. *)
Definition suppressed (a : AlertOutcome) : Prop :=
  match a with
  | Allowed _ | LocalTimeRaised => False
  | _ => True
  end.

(** The configuration when no environment variable is set, and the same
    with [WIND_INPUT_UNIT=km/h]. *)
Definition default_config : Config :=
  {| F_THRESHOLD := 1.5; ALERT_COOLDOWN := 60; SYNC_WINDOW_S := 0;
     DEFAULT_WIND_INPUT_UNIT := "m/s" |}.

Definition kmh_config : Config :=
  {| F_THRESHOLD := 1.5; ALERT_COOLDOWN := 60; SYNC_WINDOW_S := 0;
     DEFAULT_WIND_INPUT_UNIT := "km/h" |}.

End F_index.

(** ** Concurrent callers of [maybe_send_alert]

    The MQTT callbacks may run [maybe_send_alert] in parallel.  A thread
    is at one of the program points below; a step of the world is one
    thread moving to its next program point, so that the statements of
    different threads interleave freely.  [alert_lock] is a mutual
    exclusion lock: [with alert_lock:] blocks while another thread holds
    it, and leaving the block, also by [return], releases it. *)

Module concurrent.

Import F_index.

Inductive pc : Type :=
| Start                          (* threshold test and parsing still to run *)
| Waiting (e : Z)                (* at [with alert_lock:] *)
| CheckTimestamp (e : Z)         (* lock held; same-timestamp test next *)
| CheckEpoch (e : Z)             (* lock held; delta and cooldown tests next *)
| RecordEpoch (e : Z)            (* lock held; [last_alert_epoch_data = ts_epoch] next *)
| RecordTimestamp (e : Z)        (* lock held; [last_alert_ts_iso = ts_iso] next *)
| Leaving (e : Z) (why : option AlertOutcome)
                                 (* lock held; leaving the [with] block *)
| Sending (e : Z)                (* lock released; the local time and
                                    [send_sms_alert] next *)
| Finished (a : AlertOutcome).

Record Thread : Type := {
  th_f_value : float;
  th_ts_iso : string;
  th_pc : pc
}.

(** [snapshot] is an auxiliary variable: the shared state as it was when
    the lock was last acquired.  No step reads it. *)
Record World : Type := {
  shared : State;
  lock : option nat;
  snapshot : State;
  threads : nat -> Thread
}.

Definition set_alert_epoch (e : Z) (st : State) : State :=
  {| dht_t := dht_t st; dht_h := dht_h st; dht_ts := dht_ts st;
     wind_u := wind_u st; wind_ts := wind_ts st;
     last_alert_epoch_data := Some e;
     last_alert_ts_iso := last_alert_ts_iso st;
     last_write_ts_iso := last_write_ts_iso st; events := events st |}.

Definition set_alert_ts (ts : string) (st : State) : State :=
  {| dht_t := dht_t st; dht_h := dht_h st; dht_ts := dht_ts st;
     wind_u := wind_u st; wind_ts := wind_ts st;
     last_alert_epoch_data := last_alert_epoch_data st;
     last_alert_ts_iso := Some ts;
     last_write_ts_iso := last_write_ts_iso st; events := events st |}.

Definition with_pc (i : nat) (p : pc) (w : World) : World :=
  {| shared := shared w; lock := lock w; snapshot := snapshot w;
     threads := fun j =>
       if Nat.eqb j i
       then {| th_f_value := th_f_value (threads w i);
               th_ts_iso := th_ts_iso (threads w i);
               th_pc := p |}
       else threads w j |}.

Definition with_shared (st : State) (w : World) : World :=
  {| shared := st; lock := lock w; snapshot := snapshot w;
     threads := threads w |}.

Definition acquire (i : nat) (w : World) : World :=
  {| shared := shared w; lock := Some i; snapshot := shared w;
     threads := threads w |}.

Definition release (w : World) : World :=
  {| shared := shared w; lock := None; snapshot := snapshot w;
     threads := threads w |}.

(** One step of thread [i]; [sms_ok] is the modem's answer should this
    step be the send.  A blocked or finished thread leaves the world as
    it is. *)
Definition step (cfg : Config) (lib : Datetime) (i : nat) (sms_ok : bool)
    (w : World) : World :=
  let t := threads w i in
  match th_pc t with
  | Start =>
      if (th_f_value t <=? F_THRESHOLD cfg)%float
      then with_pc i (Finished BelowThreshold) w
      else
        match parse_iso8601 lib (th_ts_iso t) with
        | None => with_pc i (Finished InvalidTimestamp) w
        | Some e => with_pc i (Waiting e) w
        end
  | Waiting e =>
      match lock w with
      | None => with_pc i (CheckTimestamp e) (acquire i w)
      | Some _ => w
      end
  | CheckTimestamp e =>
      if opt_str_eqb (last_alert_ts_iso (shared w)) (th_ts_iso t)
      then with_pc i (Leaving e (Some DuplicateTimestamp)) w
      else with_pc i (CheckEpoch e) w
  | CheckEpoch e =>
      match last_alert_epoch_data (shared w) with
      | None => with_pc i (RecordEpoch e) w
      | Some last =>
          let delta := e - last in
          if delta <=? 0 then with_pc i (Leaving e (Some NonMonotonic)) w
          else if delta <? ALERT_COOLDOWN cfg
               then with_pc i (Leaving e (Some Cooldown)) w
               else with_pc i (RecordEpoch e) w
      end
  | RecordEpoch e =>
      with_pc i (RecordTimestamp e)
        (with_shared (set_alert_epoch e (shared w)) w)
  | RecordTimestamp e =>
      with_pc i (Leaving e None)
        (with_shared (set_alert_ts (th_ts_iso t) (shared w)) w)
  | Leaving e (Some why) => with_pc i (Finished why) (release w)
  | Leaving e None => with_pc i (Sending e) (release w)
  | Sending e =>
      match local_time lib e with
      | None => with_pc i (Finished LocalTimeRaised) w
      | Some ts_local =>
          with_pc i (Finished (Allowed sms_ok))
            (with_shared
               (emit (SmsSend (th_f_value t) (th_ts_iso t) sms_ok) (shared w)) w)
      end
  | Finished _ => w
  end.

(** A schedule names, step by step, the thread that moves. *)
Fixpoint exec (cfg : Config) (lib : Datetime) (sched : list (nat * bool))
    (w : World) : World :=
  match sched with
  | [] => w
  | (i, sms_ok) :: rest => exec cfg lib rest (step cfg lib i sms_ok w)
  end.

(** Every thread at its start, each with its own event; the lock free. *)
Definition spawn (st : State) (inputs : nat -> float * string) : World :=
  {| shared := st; lock := None; snapshot := st;
     threads := fun i =>
       {| th_f_value := fst (inputs i); th_ts_iso := snd (inputs i);
          th_pc := Start |} |}.

(** What thread [i] sees of the world: its program point, its event,
    the shared state and the lock. *)
Record thread_at (w : World) (i : nat) (p : pc) (f : float) (ts : string)
    (st : State) (lk : option nat) : Prop := {
  at_pc : th_pc (threads w i) = p;
  at_f_value : th_f_value (threads w i) = f;
  at_ts_iso : th_ts_iso (threads w i) = ts;
  at_shared : shared w = st;
  at_lock : lock w = lk
}.

(** The step of thread [i] on that view. *)
Definition view_step (cfg : Config) (lib : Datetime) (i : nat) (sms_ok : bool)
    (f : float) (ts : string) (v : pc * State * option nat)
  : pc * State * option nat :=
  let '(p, st, lk) := v in
  match p with
  | Start =>
      if (f <=? F_THRESHOLD cfg)%float then (Finished BelowThreshold, st, lk)
      else
        match parse_iso8601 lib ts with
        | None => (Finished InvalidTimestamp, st, lk)
        | Some e => (Waiting e, st, lk)
        end
  | Waiting e =>
      match lk with
      | None => (CheckTimestamp e, st, Some i)
      | Some _ => v
      end
  | CheckTimestamp e =>
      if opt_str_eqb (last_alert_ts_iso st) ts
      then (Leaving e (Some DuplicateTimestamp), st, lk)
      else (CheckEpoch e, st, lk)
  | CheckEpoch e =>
      match last_alert_epoch_data st with
      | None => (RecordEpoch e, st, lk)
      | Some last =>
          if e - last <=? 0 then (Leaving e (Some NonMonotonic), st, lk)
          else if e - last <? ALERT_COOLDOWN cfg
               then (Leaving e (Some Cooldown), st, lk)
               else (RecordEpoch e, st, lk)
      end
  | RecordEpoch e => (RecordTimestamp e, set_alert_epoch e st, lk)
  | RecordTimestamp e => (Leaving e None, set_alert_ts ts st, lk)
  | Leaving e (Some why) => (Finished why, st, None)
  | Leaving e None => (Sending e, st, None)
  | Sending e =>
      match local_time lib e with
      | None => (Finished LocalTimeRaised, st, lk)
      | Some ts_local =>
          (Finished (Allowed sms_ok), emit (SmsSend f ts sms_ok) st, lk)
      end
  | Finished _ => v
  end.

Fixpoint view_steps (cfg : Config) (lib : Datetime) (i : nat) (sms_ok : bool)
    (f : float) (ts : string) (n : nat) (v : pc * State * option nat)
  : pc * State * option nat :=
  match n with
  | O => v
  | S n' => view_steps cfg lib i sms_ok f ts n' (view_step cfg lib i sms_ok f ts v)
  end.

Definition holds_lock (p : pc) : bool :=
  match p with
  | CheckTimestamp _ | CheckEpoch _ | RecordEpoch _ | RecordTimestamp _
  | Leaving _ _ => true
  | _ => false
  end.

(** The thread has recorded its epoch. *)
Definition written (p : pc) : bool :=
  match p with
  | RecordTimestamp _ | Leaving _ None | Sending _ | Finished (Allowed _)
  | Finished LocalTimeRaised => true
  | _ => false
  end.

(** The thread has passed the duplicate, monotonicity and cooldown tests. *)
Definition passed (p : pc) : bool :=
  match p with
  | RecordEpoch _ => true
  | _ => written p
  end.

Definition pc_epoch (p : pc) : option Z :=
  match p with
  | Waiting e | CheckTimestamp e | CheckEpoch e | RecordEpoch e
  | RecordTimestamp e | Leaving e _ | Sending e => Some e
  | _ => None
  end.

(** What the holder of the lock has done so far, measured against the
    critical section run in one piece on the snapshot. *)
Definition atomic_at (cfg : Config) (w : World) (t : Thread) : Prop :=
  let ts := th_ts_iso t in
  match th_pc t with
  | CheckTimestamp e => same_alert_state (snapshot w) (shared w)
  | CheckEpoch e =>
      same_alert_state (snapshot w) (shared w) /\
      opt_str_eqb (last_alert_ts_iso (snapshot w)) ts = false
  | RecordEpoch e =>
      same_alert_state (snapshot w) (shared w) /\
      alert_critical_section cfg ts e (snapshot w)
      = (set_last_alert e ts (snapshot w), None)
  | RecordTimestamp e =>
      last_alert_epoch_data (shared w) = Some e /\
      last_alert_ts_iso (shared w) = last_alert_ts_iso (snapshot w) /\
      alert_critical_section cfg ts e (snapshot w)
      = (set_last_alert e ts (snapshot w), None)
  | Leaving e why =>
      snd (alert_critical_section cfg ts e (snapshot w)) = why /\
      same_alert_state (fst (alert_critical_section cfg ts e (snapshot w)))
                       (shared w)
  | _ => True
  end.

Definition allowed_at (cfg : Config) (w : World) (t : Thread) : Prop :=
  match th_pc t with
  | RecordEpoch e =>
      match last_alert_epoch_data (shared w) with
      | None => True
      | Some l => 0 < e - l /\ ALERT_COOLDOWN cfg <= e - l
      end
  | _ => True
  end.

Record inv (cfg : Config) (lib : Datetime) (w : World) : Prop := {
  inv_mutex : forall i,
    holds_lock (th_pc (threads w i)) = true <-> lock w = Some i;
  inv_parse : forall i e,
    pc_epoch (th_pc (threads w i)) = Some e ->
    parse_iso8601 lib (th_ts_iso (threads w i)) = Some e;
  inv_allowed_parse : forall i a,
    th_pc (threads w i) = Finished a -> written (Finished a) = true ->
    exists e, parse_iso8601 lib (th_ts_iso (threads w i)) = Some e;
  inv_written : forall j ej,
    written (th_pc (threads w j)) = true ->
    parse_iso8601 lib (th_ts_iso (threads w j)) = Some ej ->
    exists l, last_alert_epoch_data (shared w) = Some l /\ ej <= l;
  inv_allowed : forall i, allowed_at cfg w (threads w i);
  inv_apart : forall i j ei ej,
    i <> j ->
    passed (th_pc (threads w i)) = true ->
    passed (th_pc (threads w j)) = true ->
    parse_iso8601 lib (th_ts_iso (threads w i)) = Some ei ->
    parse_iso8601 lib (th_ts_iso (threads w j)) = Some ej ->
    ei <> ej /\ ALERT_COOLDOWN cfg <= Z.abs (ei - ej);
  inv_atomic : forall i, atomic_at cfg w (threads w i)
}.

End concurrent.

(** ** A [datetime] library for the canonical timestamps

    An instance of [Datetime] on which the pipeline can be run in the
    examples: [datetime.strptime] and [strftime] with the format
    [%Y-%m-%dT%H:%M:%SZ] over the proleptic Gregorian calendar, on
    strings of code points below 256, and the local time of
    America/Bogota.  The theorems hold for every [Datetime]; this one
    serves the examples. *)

Module iso8601.

Definition digit_of (c : ascii) : option Z :=
  let n := Z.of_nat (nat_of_ascii c) in
  if (48 <=? n) && (n <=? 57) then Some (n - 48) else None.

(** Reads exactly [n] decimal digits. *)
Fixpoint read_digits (n : nat) (acc : Z) (s : string) : option (Z * string) :=
  match n, s with
  | O, _ => Some (acc, s)
  | S n', String c r =>
      match digit_of c with
      | Some d => read_digits n' (10 * acc + d) r
      | None => None
      end
  | S _, EmptyString => None
  end.

(** Reads one or two decimal digits, two when there are two: the fields
    [%m], [%d], [%H], [%M] and [%S], each followed by a character that is
    no digit. *)
Definition read_field (s : string) : option (Z * string) :=
  match s with
  | String c1 r1 =>
      match digit_of c1 with
      | Some d1 =>
          match r1 with
          | String c2 r2 =>
              match digit_of c2 with
              | Some d2 => Some (10 * d1 + d2, r2)
              | None => Some (d1, r1)
              end
          | EmptyString => Some (d1, r1)
          end
      | None => None
      end
  | EmptyString => None
  end.

(** [%d] also reads a space followed by one digit. *)
Definition read_day (s : string) : option (Z * string) :=
  match s with
  | String " " (String c r) =>
      match digit_of c with
      | Some d => Some (d, r)
      | None => None
      end
  | _ => read_field s
  end.

Definition read_char (c : ascii) (s : string) : option string :=
  match s with
  | String c' r => if Ascii.eqb c c' then Some r else None
  | EmptyString => None
  end.

(** The letters of the format are matched without regard to case. *)
Definition read_letter (upper lower : ascii) (s : string) : option string :=
  match s with
  | String c' r =>
      if Ascii.eqb upper c' || Ascii.eqb lower c' then Some r else None
  | EmptyString => None
  end.

Definition is_leap (y : Z) : bool :=
  (y mod 4 =? 0) && (negb (y mod 100 =? 0) || (y mod 400 =? 0)).

Definition days_in_month (y m : Z) : Z :=
  if m =? 2 then (if is_leap y then 29 else 28)
  else if (m =? 4) || (m =? 6) || (m =? 9) || (m =? 11) then 30
  else 31.

(** Days from 1970-01-01 to the civil date [y-m-d]. *)
Definition days_from_civil (y m d : Z) : Z :=
  let y' := if m <=? 2 then y - 1 else y in
  let era := y' / 400 in
  let yoe := y' - era * 400 in
  let mp := if 2 <? m then m - 3 else m + 9 in
  let doy := (153 * mp + 2) / 5 + d - 1 in
  let doe := yoe * 365 + yoe / 4 - yoe / 100 + doy in
  era * 146097 + doe - 719468.

Definition civil_from_days (z : Z) : Z * Z * Z :=
  let z' := z + 719468 in
  let era := z' / 146097 in
  let doe := z' - era * 146097 in
  let yoe := (doe - doe / 1460 + doe / 36524 - doe / 146096) / 365 in
  let doy := doe - (365 * yoe + yoe / 4 - yoe / 100) in
  let mp := (5 * doy + 2) / 153 in
  let d := doy - (153 * mp + 2) / 5 + 1 in
  let m := if mp <? 10 then mp + 3 else mp - 9 in
  let y := yoe + era * 400 in
  (if m <=? 2 then y + 1 else y, m, d).

Definition obind {A B} (o : option A) (k : A -> option B) : option B :=
  match o with
  | Some a => k a
  | None => None
  end.

Definition parse (s : string) : option Z :=
  obind (read_digits 4 0 s) (fun '(y, s) =>
  obind (read_char "-" s) (fun s =>
  obind (read_field s) (fun '(m, s) =>
  obind (read_char "-" s) (fun s =>
  obind (read_day s) (fun '(d, s) =>
  obind (read_letter "T" "t" s) (fun s =>
  obind (read_field s) (fun '(hh, s) =>
  obind (read_char ":" s) (fun s =>
  obind (read_field s) (fun '(mm, s) =>
  obind (read_char ":" s) (fun s =>
  obind (read_field s) (fun '(ss, s) =>
  obind (read_letter "Z" "z" s) (fun s =>
  match s with
  | EmptyString =>
      if (1 <=? y) && (1 <=? m) && (m <=? 12) && (1 <=? d)
         && (d <=? days_in_month y m) && (hh <=? 23) && (mm <=? 59)
         && (ss <=? 59)
      then Some (days_from_civil y m d * 86400 + hh * 3600 + mm * 60 + ss)
      else None
  | _ => None
  end)))))))))))).

Definition digit_char (d : Z) : ascii := ascii_of_nat (48 + Z.to_nat d).

Definition pad2 (n : Z) (rest : string) : string :=
  String (digit_char (n / 10 mod 10)) (String (digit_char (n mod 10)) rest).

(** [%Y]: the year without leading zeros. *)
Definition year_digits (y : Z) (rest : string) : string :=
  if y <? 10 then String (digit_char y) rest
  else if y <? 100 then pad2 y rest
  else if y <? 1000 then String (digit_char (y / 100)) (pad2 y rest)
  else pad2 (y / 100) (pad2 y rest).

(** Seconds America/Bogota lies behind UTC: local mean time until
    1914-11-23, one hour of summer time from 1992-05-03 to 1993-02-06,
    five hours otherwise. *)
Definition bogota_offset (epoch : Z) : Z :=
  if epoch <? -1739041424 then 17776
  else if (704869200 <=? epoch) && (epoch <? 729057600) then 14400
  else 18000.

Definition format (epoch : Z) : string :=
  let days := epoch / 86400 in
  let secs := epoch mod 86400 in
  let '(y, m, d) := civil_from_days days in
  year_digits y (String "-" (pad2 m (String "-" (pad2 d (String "T"
    (pad2 (secs / 3600) (String ":" (pad2 (secs / 60 mod 60) (String ":"
      (pad2 (secs mod 60) (String "Z" EmptyString))))))))))).

(** [%Y-%m-%d %H:%M:%S] in America/Bogota; out of range before year 1. *)
Definition format_local (epoch : Z) : option string :=
  let local := epoch - bogota_offset epoch in
  if local <? days_from_civil 1 1 1 * 86400 then None
  else
    let days := local / 86400 in
    let secs := local mod 86400 in
    let '(y, m, d) := civil_from_days days in
    Some (year_digits y (String "-" (pad2 m (String "-" (pad2 d (String " "
      (pad2 (secs / 3600) (String ":" (pad2 (secs / 60 mod 60) (String ":"
        (pad2 (secs mod 60) EmptyString))))))))))).

Definition lib : F_index.Datetime :=
  {| F_index.strptime := parse; F_index.strftime := format;
     F_index.local_time := format_local |}.

End iso8601.

(** ** wind_reader.py: sealed frames and the answers of a device *)

Module frames.

Import wind_reader.

(** [payload + struct.pack("<H", modbus_crc16(payload))]: a byte string
    followed by its CRC, the way [build_read_holding_registers] closes a
    request and a device closes its answer. *)
Definition seal (payload : list Z) : list Z :=
  let crc := modbus_crc16 payload in
  payload ++ [Z.land crc 0xFF; Z.shiftr crc 8].

(** The two bytes of [struct.pack(">H", v)]. *)
Definition be16 (v : Z) : list Z := [Z.shiftr v 8; Z.land v 0xFF].

(** The answer to "read holding registers" that
    [parse_read_holding_registers] is written for:
    [slave][0x03][byte count][registers, big-endian][CRC16, little-endian]. *)
Definition response_frame (slave : Z) (regs : list Z) : list Z :=
  seal ([slave; 0x03; 2 * Z.of_nat (length regs)] ++ flat_map be16 regs).

(** A register value: sixteen bits. *)
Definition is_register (v : Z) : bool := (0 <=? v) && (v <=? 65535).

(** A CRC register that is neither zero nor wider than sixteen bits. *)
Definition live (c : Z) : Prop := 0 < c < 65536.

End frames.

(** ** F_index.py: the log of a process lifetime *)

Module alert_log.

Import F_index.

(** The timestamps of the SMS sends, most recent first. *)
Fixpoint sms_timestamps (evs : list Event) : list string :=
  match evs with
  | [] => []
  | SmsSend _ ts _ :: rest => ts :: sms_timestamps rest
  | _ :: rest => sms_timestamps rest
  end.

(** Epochs, most recent first, each later than the one before it by at
    least [gap]. *)
Fixpoint well_spaced (gap : Z) (epochs : list Z) : Prop :=
  match epochs with
  | x :: (y :: _) as rest => y < x /\ gap <= x - y /\ well_spaced gap rest
  | _ => True
  end.

(** An SMS send carries a value that is not [<= F_THRESHOLD]. *)
Definition sms_over_threshold (cfg : Config) (e : Event) : Prop :=
  match e with
  | SmsSend f _ _ => (f <=? F_THRESHOLD cfg)%float = false
  | _ => True
  end.

(** Every SMS send carries the timestamp of the latest successful store
    write made before it. *)
Fixpoint alerts_follow_store (evs : list Event) : Prop :=
  match evs with
  | [] => True
  | SmsSend _ ts _ :: rest =>
      hd_error (stored_timestamps rest) = Some ts /\ alerts_follow_store rest
  | _ :: rest => alerts_follow_store rest
  end.

(** The sends are spaced, and the recorded epoch is that of the latest
    send or a later one. *)
Definition alert_log_inv (cfg : Config) (lib : Datetime) (st : State) : Prop :=
  exists epochs,
    map (strptime lib) (sms_timestamps (events st)) = map Some epochs /\
    well_spaced (ALERT_COOLDOWN cfg) epochs /\
    match epochs with
    | [] => True
    | x :: _ => exists l, last_alert_epoch_data st = Some l /\ x <= l
    end.

(** What one delivery adds to the log of external calls (most recent
    first). *)
Inductive Effects : Type :=
| NoCall
| StoreFailed (f : float) (ts : string)
| Stored (f : float) (ts : string)
| StoredAndSms (f : float) (ts : string) (sms_ok : bool)
| SmsOnly (f : float) (ts : string) (sms_ok : bool).

Definition effects_log (e : Effects) : list Event :=
  match e with
  | NoCall => []
  | StoreFailed f ts => [InfluxWrite f ts false]
  | Stored f ts => [InfluxWrite f ts true]
  | StoredAndSms f ts ok => [SmsSend f ts ok; InfluxWrite f ts true]
  | SmsOnly f ts ok => [SmsSend f ts ok]
  end.

End alert_log.

(** ** sms_alert.py: sending an SMS through the modem *)

Module sms_alert.

Import F_index.

(** [s.replace(c, "")] for a single character [c]. *)
Fixpoint remove_char (c : ascii) (s : string) : string :=
  match s with
  | EmptyString => EmptyString
  | String x r =>
      if Ascii.eqb x c then remove_char c r else String x (remove_char c r)
  end.

(** [num.strip().replace(" ", "").replace("-", "")]. *)
Definition _normalize_phone (num : string) : string :=
  remove_char "-" (remove_char " " (strip num)).

(** The code points of a [str] whose characters all lie below 256. *)
Fixpoint code_points (s : string) : list N :=
  match s with
  | EmptyString => []
  | String c r => N_of_ascii c :: code_points r
  end.

(** [str.upper] on such a string, as code points: the result may leave
    the range (the micro sign becomes U+039C, y with diaeresis U+0178)
    and may be longer (sharp s becomes SS). *)
Definition upper_char (c : ascii) : list N :=
  let n := N_of_ascii c in
  if ((97 <=? n) && (n <=? 122)
      || (224 <=? n) && (n <=? 254) && negb (n =? 247))%N then [n - 32]%N
  else if (n =? 181)%N then [924]%N
  else if (n =? 223)%N then [83; 83]%N
  else if (n =? 255)%N then [376]%N
  else [n].

Fixpoint upper (s : string) : list N :=
  match s with
  | EmptyString => []
  | String c r => upper_char c ++ upper r
  end.

Fixpoint code_points_eqb (a b : list N) : bool :=
  match a, b with
  | [], [] => true
  | x :: a', y :: b' => (x =? y)%N && code_points_eqb a' b'
  | _, _ => false
  end.

(** What [client.sms.send_sms] hands back: a string, a dict with string
    keys whose values are strings or [None], or something else. *)
Inductive Response : Type :=
| RespStr (s : string)
| RespDict (d : list (string * option string))
| RespOther.

(** [d.get(k)]: the value under the key, [None] when absent. *)
Fixpoint dict_get (d : list (string * option string)) (k : string)
  : option string :=
  match d with
  | [] => None
  | (k', v) :: rest => if String.eqb k' k then v else dict_get rest k
  end.

(** [a or b] on values that are a string or [None]: [a] when it is a
    non-empty string. *)
Definition or_else (a b : option string) : option string :=
  match a with
  | Some (String _ _) => a
  | _ => b
  end.

(** [x or ""]. *)
Definition or_empty (a : option string) : string :=
  match a with
  | Some (String c r) => String c r
  | _ => EmptyString
  end.

Definition _is_ok_response (resp : Response) : bool :=
  match resp with
  | RespDict d =>
      let val :=
        upper (strip (or_empty (or_else (dict_get d "response")
                                        (dict_get d "Response")))) in
      code_points_eqb val (code_points "OK")
  | RespStr s => code_points_eqb (upper (strip s)) (code_points "OK")
  | RespOther => false
  end.

(** What one pass through the [try] block meets: the modem answers, or
    opening the connection or sending raises. *)
Inductive Attempt : Type :=
| Answered (resp : Response)
| Raised.

(** The attempt ends in one of the two [except] branches. *)
Definition attempt_failed (a : Attempt) : bool :=
  match a with
  | Answered resp => negb (_is_ok_response resp)
  | Raised => true
  end.

(** The calls made, most recent first; a [Sleep] is a wait that was
    made. *)
Inductive Call : Type :=
| SendSms (attempt : Z) (dest payload : string)
| Diagnose
| Sleep (delay : float).

(** How a call of [send_sms_alert] ends: it returns, or [time.sleep]
    refuses the delay and its exception, raised inside the [except]
    branch, escapes. *)
Inductive Ending : Type :=
| Returns (ok : bool)
| SleepRaises (delay : float).

Section Sender.

(** Whether [time.sleep] accepts a delay (it refuses a negative one, a
    NaN and one too large): a library call the development is parametric
    in. *)
Variable can_sleep : float -> bool.

(** The [while True] loop; [modem k] is what attempt [k] meets.  [fuel]
    bounds the number of passes. *)
Fixpoint send_loop (fuel : nat) (modem : Z -> Attempt) (dest payload : string)
    (retries : Z) (attempt : Z) (delay : float) (calls : list Call)
  : option (Ending * list Call) :=
  match fuel with
  | O => None
  | S fuel' =>
      let attempt := attempt + 1 in
      let calls := SendSms attempt dest payload :: calls in
      if attempt_failed (modem attempt) then
        let calls := if attempt =? 1 then Diagnose :: calls else calls in
        if attempt >? retries then Some (Returns false, calls)
        else if can_sleep delay then
          send_loop fuel' modem dest payload retries attempt
            (delay * 2)%float (Sleep delay :: calls)
        else Some (SleepRaises delay, calls)
      else Some (Returns true, calls)
  end.

(** [message] is [None] or a string ([message or ""]). *)
Definition send_sms_alert (fuel : nat) (modem : Z -> Attempt)
    (phone : string) (message : option string) (retries : Z)
    (backoff_sec : float) : option (Ending * list Call) :=
  let dest := _normalize_phone phone in
  let payload := or_empty message in
  send_loop fuel modem dest payload retries 0 backoff_sec [].

End Sender.

(** The attempts made, and the waits in the order they were made. *)
Fixpoint attempts_made (calls : list Call) : Z :=
  match calls with
  | [] => 0
  | SendSms _ _ _ :: rest => 1 + attempts_made rest
  | _ :: rest => attempts_made rest
  end.

Fixpoint sleeps_rev (calls : list Call) : list float :=
  match calls with
  | [] => []
  | Sleep d :: rest => d :: sleeps_rev rest
  | _ :: rest => sleeps_rev rest
  end.

Definition sleeps (calls : list Call) : list float := rev (sleeps_rev calls).

Fixpoint diagnoses (calls : list Call) : nat :=
  match calls with
  | [] => 0
  | Diagnose :: rest => S (diagnoses rest)
  | _ :: rest => diagnoses rest
  end.

(** The delay after [k] doublings. *)
Fixpoint doubled (k : nat) (delay : float) : float :=
  match k with
  | O => delay
  | S k' => doubled k' (delay * 2)%float
  end.

(** [n] waits, each twice the one before. *)
Fixpoint doubling (n : nat) (delay : float) : list float :=
  match n with
  | O => []
  | S n' => delay :: doubling n' (delay * 2)%float
  end.

(** The characters [_normalize_phone] is meant to keep. *)
Definition kept (c : ascii) : bool :=
  negb (is_space c || Ascii.eqb c "-").

Fixpoint filter_string (p : ascii -> bool) (s : string) : string :=
  match s with
  | EmptyString => EmptyString
  | String c r => if p c then String c (filter_string p r) else filter_string p r
  end.

Fixpoint occurs (c : ascii) (s : string) : bool :=
  match s with
  | EmptyString => false
  | String x r => Ascii.eqb x c || occurs c r
  end.

End sms_alert.

(** ** wind_reader.py: the serial port, the reading and the sync handler *)

Module anemometer.

Import wind_reader.
Import F_index.

(** What one pass through the [try] block of [read_wind_speed] meets on
    the line: a serial error (from [reset_input_buffer], [write], [flush]
    or [read]), or the bytes the read loop holds when it ends. *)
Inductive Exchange : Type :=
| LinkError
| Gathered (buf : list Z).

(** An exchange that ends in the first [except] clause: a serial error,
    or fewer than seven bytes. *)
Definition line_failure (x : Exchange) : bool :=
  match x with
  | LinkError => true
  | Gathered buf => (length buf <? 7)%nat
  end.

(** The world outside the process: the successive readings of
    [monotonic()], whether the successive calls of [serial.Serial] open
    the port, and what the successive exchanges meet, given the request
    written. *)
Record World : Type := {
  monotonic : nat -> float;
  port_opens : nat -> bool;
  line : nat -> list Z -> Exchange
}.

(** The [Anemometer] object, with the number of calls made so far to each
    part of the world and the waits made (most recent first); the waits
    are the constants 0.2 and 0.05, which [time.sleep] accepts. *)
Record Anemometer : Type := {
  addr : Z;
  ser_open : bool;            (* self._ser and self._ser.is_open *)
  _down_until : float;
  clock_reads : nat;
  open_calls : nat;
  exchanges : nat;
  slept : list float
}.

(** [Anemometer.__init__]. *)
Definition new (addr : Z) : Anemometer :=
  {| addr := addr; ser_open := false; _down_until := 0;
     clock_reads := 0; open_calls := 0; exchanges := 0; slept := [] |}.

Definition set_ser (b : bool) (a : Anemometer) : Anemometer :=
  {| addr := addr a; ser_open := b; _down_until := _down_until a;
     clock_reads := clock_reads a; open_calls := open_calls a;
     exchanges := exchanges a; slept := slept a |}.

Definition set_down_until (t : float) (a : Anemometer) : Anemometer :=
  {| addr := addr a; ser_open := ser_open a; _down_until := t;
     clock_reads := clock_reads a; open_calls := open_calls a;
     exchanges := exchanges a; slept := slept a |}.

Definition clock_read (a : Anemometer) : Anemometer :=
  {| addr := addr a; ser_open := ser_open a; _down_until := _down_until a;
     clock_reads := S (clock_reads a); open_calls := open_calls a;
     exchanges := exchanges a; slept := slept a |}.

Definition open_called (a : Anemometer) : Anemometer :=
  {| addr := addr a; ser_open := ser_open a; _down_until := _down_until a;
     clock_reads := clock_reads a; open_calls := S (open_calls a);
     exchanges := exchanges a; slept := slept a |}.

Definition exchanged (a : Anemometer) : Anemometer :=
  {| addr := addr a; ser_open := ser_open a; _down_until := _down_until a;
     clock_reads := clock_reads a; open_calls := open_calls a;
     exchanges := S (exchanges a); slept := slept a |}.

Definition sleep (d : float) (a : Anemometer) : Anemometer :=
  {| addr := addr a; ser_open := ser_open a; _down_until := _down_until a;
     clock_reads := clock_reads a; open_calls := open_calls a;
     exchanges := exchanges a; slept := d :: slept a |}.

(** What escapes [read_wind_speed]. *)
Inductive Escape : Type :=
| BuildError (e : exn)
| ParseError (e : exn)
| IndexError.

Inductive Reading : Type :=
| Returned (v : option float)
| Escapes (e : Escape).

(** What [publish] followed by [wait_for_publish] does: one of them
    raises, or the message info holds a return code. *)
Inductive PublishOutcome : Type :=
| PublishRaised
| PublishRc (success : bool).     (* info.rc == MQTT_ERR_SUCCESS *)

(** What the worker sends out, most recent first. *)
Inductive Output : Type :=
| Publish (wind_speed : float) (ts : string) (o : PublishOutcome)
| InsertWind (wind_speed : float) (ts : string) (ok : bool).

(** A sync message: one from which no string timestamp is obtained (not
    JSON, not an object, no or a non-string [timestamp]), or one with a
    string timestamp. *)
Inductive SyncMsg : Type :=
| Malformed
| Stamp (ts : string).

(** The module-level state of the worker. *)
Record Worker : Type := {
  anemo : Anemometer;
  LAST_TS : option string;
  outputs : list Output
}.

(** [raw / 10.0] for a register value. *)
Definition tenths (raw : Z) : float :=
  (PrimFloat.of_uint63 (Uint63.of_Z raw) / 10)%float.

Section Driver.

Variable w : World.

(** [Anemometer.open]: [true] when it returns, [false] when
    [serial.Serial] raises. *)
Definition open (a : Anemometer) : Anemometer * bool :=
  if ser_open a then (a, true)
  else
    let ok := port_opens w (open_calls a) in
    (set_ser ok (open_called a), ok).

(** [Anemometer.close]. *)
Definition close (a : Anemometer) : Anemometer := set_ser false a.

(** The [for i in range(retries + 1)] loop of [ensure_open].  [delay]
    stays at its default 0.2, the value of every call. *)
Fixpoint open_attempts (n : nat) (a : Anemometer) : Anemometer * bool :=
  match n with
  | O => (a, false)
  | S n' =>
      let '(a1, ok) := open a in
      if ok then (a1, true) else open_attempts n' (sleep 0.2 a1)
  end.

Definition ensure_open (retries : Z) (a : Anemometer) : Anemometer * bool :=
  let now := monotonic w (clock_reads a) in
  let a := clock_read a in
  if (now <? _down_until a)%float then (a, false)
  else
    let '(a1, ok) := open_attempts (Z.to_nat (retries + 1)) a in
    if ok then (a1, true)
    else
      (set_down_until (monotonic w (clock_reads a1) + 2)%float (clock_read a1),
       false).

(** The [for attempt in range(retries + 1)] loop of [read_wind_speed];
    [n] passes are left and [attempt] is the loop variable.  The first
    [except] clause names [OSError]; the [TimeoutError] raised on a short
    read is an [OSError] and is met by that clause, as the serial errors
    are: the port is closed and reopened.  The second clause is reached
    by the [ValueError] of the parser only. *)
Fixpoint read_attempts (req : list Z) (retries : Z) (n : nat) (attempt : Z)
    (a : Anemometer) : Anemometer * Reading :=
  match n with
  | O => (a, Returned None)
  | S n' =>
      let x := line w (exchanges a) req in
      let a := exchanged a in
      let reopen :=
        let '(a1, ok) := ensure_open 5 (close a) in
        if ok then read_attempts req retries n' (attempt + 1) a1
        else (a1, Returned None) in
      let retry_or_give_up :=
        if attempt >=? retries then (a, Returned None)
        else read_attempts req retries n' (attempt + 1) (sleep 0.05 a) in
      match x with
      | LinkError => reopen
      | Gathered buf =>
          if (length buf <? 7)%nat then reopen
          else
            match parse_read_holding_registers buf (addr a) 1 with
            | Ok (raw :: _) => (a, Returned (Some (tenths raw)))
            | Ok [] => (a, Escapes IndexError)
            | Raise e =>
                if is_ValueError e then retry_or_give_up
                else (a, Escapes (ParseError e))
            end
      end
  end.

Definition read_wind_speed (retries : Z) (a : Anemometer)
  : Anemometer * Reading :=
  let '(a1, ok) := ensure_open 5 a in
  if negb ok then (a1, Returned None)
  else
    match build_read_holding_registers (addr a1) 0 1 with
    | Raise e => (a1, Escapes (BuildError e))
    | Ok req => read_attempts req retries (Z.to_nat (retries + 1)) 0 a1
    end.

(** *** The sync handler *)

Variable lib : Datetime.

(** [round(x, 1)], a library call the development is parametric in. *)
Variable round1 : float -> float.

Definition is_valid_iso8601_z (ts : string) : bool :=
  match strptime lib ts with
  | Some _ => true
  | None => false
  end.

(** [store_ok] is the answer of [influx.write_points] should it be
    called. *)
Definition insert_wind_data (store_ok : bool) (wind_speed : float)
    (timestamp : string) (outs : list Output) : list Output * bool :=
  if negb (is_valid_iso8601_z timestamp) then (outs, false)
  else (InsertWind wind_speed timestamp store_ok :: outs, store_ok).

Definition on_message (pub : PublishOutcome) (store_ok : bool) (msg : SyncMsg)
    (wk : Worker) : Worker :=
  match msg with
  | Malformed => wk
  | Stamp ts =>
      if negb (is_valid_iso8601_z ts) then wk
      else if opt_str_eqb (LAST_TS wk) ts then wk
      else
        let '(a1, r) := read_wind_speed 3 (anemo wk) in
        match r with
        | Returned (Some wind_speed) =>
            let v := round1 wind_speed in
            let outs := Publish v ts pub :: outputs wk in
            match pub with
            | PublishRaised =>
                {| anemo := a1; LAST_TS := LAST_TS wk; outputs := outs |}
            | PublishRc success =>
                let '(outs1, ok_influx) := insert_wind_data store_ok v ts outs in
                {| anemo := a1;
                   LAST_TS := if success then Some ts else LAST_TS wk;
                   outputs := outs1 |}
            end
        | _ => {| anemo := a1; LAST_TS := LAST_TS wk; outputs := outputs wk |}
        end
  end.

(** The sync messages of a process lifetime, each with the answers the
    broker and the store would give. *)
Fixpoint run_sync (ms : list (SyncMsg * PublishOutcome * bool)) (wk : Worker)
  : Worker :=
  match ms with
  | [] => wk
  | (m, pub, store_ok) :: rest => run_sync rest (on_message pub store_ok m wk)
  end.

End Driver.

(** The timestamps published with success, most recent first. *)
Fixpoint published (outs : list Output) : list string :=
  match outs with
  | [] => []
  | Publish _ ts (PublishRc true) :: rest => ts :: published rest
  | _ :: rest => published rest
  end.

(** Every store write is directly preceded by the publication of the same
    value under the same timestamp. *)
Fixpoint inserts_follow_publish (outs : list Output) : Prop :=
  match outs with
  | [] => True
  | InsertWind v ts _ :: rest =>
      match rest with
      | Publish v' ts' (PublishRc _) :: _ => v' = v /\ ts' = ts
      | _ => False
      end /\ inserts_follow_publish rest
  | _ :: rest => inserts_follow_publish rest
  end.

Definition output_ts (o : Output) : string :=
  match o with
  | Publish _ ts _ => ts
  | InsertWind _ ts _ => ts
  end.

Definition initial_worker (addr : Z) : Worker :=
  {| anemo := new addr; LAST_TS := None; outputs := [] |}.

(** The invariant of the worker's log: [LAST_TS] is the timestamp of the
    latest successful publication, no two successive successful
    publications share a timestamp, a store write follows the publication
    of the same reading, and only valid timestamps go out. *)
Definition sync_inv (lib : Datetime) (wk : Worker) : Prop :=
  LAST_TS wk = hd_error (published (outputs wk)) /\
  no_adjacent_dup (published (outputs wk)) /\
  inserts_follow_publish (outputs wk) /\
  Forall (fun o => is_valid_iso8601_z lib (output_ts o) = true) (outputs wk).

End anemometer.

Import wind_reader.
Import F_index.

(** * Properties *)

(** ** CRC16: linearity over exclusive or *)

Section CRC.

Lemma land_1_testbit (x : Z) : (Z.land x 1 =? 0) = negb (Z.testbit x 0).
Proof.
  change 1 with (Z.ones 1). rewrite Z.land_ones by lia.
  change (2 ^ 1) with 2. rewrite <- Z.bit0_mod.
  destruct (Z.testbit x 0); reflexivity.
Qed.

Lemma crc_shift_eq (x : Z) :
  crc_shift x = Z.lxor (Z.shiftr x 1) (if Z.testbit x 0 then 0xA001 else 0).
Proof.
  unfold crc_shift. rewrite land_1_testbit, negb_involutive.
  destruct (Z.testbit x 0); [reflexivity | now rewrite Z.lxor_0_r].
Qed.

Lemma lxor_swap (a b c d : Z) :
  Z.lxor (Z.lxor a b) (Z.lxor c d) = Z.lxor (Z.lxor a c) (Z.lxor b d).
Proof.
  apply Z.bits_inj'; intros n _. rewrite !Z.lxor_spec.
  destruct (Z.testbit a n), (Z.testbit b n), (Z.testbit c n), (Z.testbit d n);
    reflexivity.
Qed.

Lemma land_lxor_distr (a b m : Z) :
  Z.land (Z.lxor a b) m = Z.lxor (Z.land a m) (Z.land b m).
Proof.
  apply Z.bits_inj'; intros n _.
  rewrite !Z.lxor_spec, !Z.land_spec, Z.lxor_spec.
  destruct (Z.testbit a n), (Z.testbit b n), (Z.testbit m n); reflexivity.
Qed.

Lemma crc_shift_lxor (a b : Z) :
  crc_shift (Z.lxor a b) = Z.lxor (crc_shift a) (crc_shift b).
Proof.
  rewrite !crc_shift_eq, Z.shiftr_lxor, Z.lxor_spec, lxor_swap.
  f_equal.
  destruct (Z.testbit a 0), (Z.testbit b 0); reflexivity.
Qed.

Lemma crc_shifts_lxor (n : nat) : forall a b,
  crc_shifts n (Z.lxor a b) = Z.lxor (crc_shifts n a) (crc_shifts n b).
Proof.
  induction n as [|n IH]; intros a b; simpl; [reflexivity|].
  now rewrite crc_shift_lxor, IH.
Qed.

Lemma crc_update_lxor (c1 c2 b1 b2 : Z) :
  crc_update (Z.lxor c1 c2) (Z.lxor b1 b2)
  = Z.lxor (crc_update c1 b1) (crc_update c2 b2).
Proof. unfold crc_update. now rewrite lxor_swap, crc_shifts_lxor. Qed.

Lemma crc_run_lxor (d : list Z) : forall e c1 c2,
  length d = length e ->
  crc_run (Z.lxor c1 c2) (xor_bytes d e)
  = Z.lxor (crc_run c1 d) (crc_run c2 e).
Proof.
  induction d as [|x d IH]; intros [|y e] c1 c2 Hlen; simpl in Hlen;
    try discriminate; [reflexivity|].
  unfold crc_run in *. simpl. rewrite <- IH by lia.
  now rewrite crc_update_lxor.
Qed.

(** The CRC of a corrupted string is the CRC of the string, corrected by
    the syndrome of the error pattern. *)
Lemma modbus_crc16_xor (d e : list Z) :
  length d = length e ->
  modbus_crc16 (xor_bytes d e)
  = Z.lxor (modbus_crc16 d) (Z.land (crc_run 0 e) 0xFFFF).
Proof.
  intros Hlen. unfold modbus_crc16.
  rewrite <- land_lxor_distr, <- crc_run_lxor by assumption.
  now rewrite Z.lxor_0_r.
Qed.

Lemma modbus_crc16_range (d : list Z) : 0 <= modbus_crc16 d <= 65535.
Proof.
  unfold modbus_crc16. generalize (crc_run 0xFFFF d); intros c.
  change (Z.land c 0xFFFF) with (Z.land c (Z.ones 16)).
  rewrite Z.land_ones by lia.
  change (2 ^ 16) with 65536.
  pose proof (Z.mod_pos_bound c 65536 eq_refl). lia.
Qed.

Lemma lxor_neq_l (a d : Z) : d <> 0 -> Z.lxor a d <> a.
Proof.
  intros Hd Heq. apply Hd.
  assert (H : Z.lxor a (Z.lxor a d) = d)
    by now rewrite <- Z.lxor_assoc, Z.lxor_nilpotent, Z.lxor_0_l.
  rewrite Heq, Z.lxor_nilpotent in H. now symmetry.
Qed.

End CRC.

(** ** Modbus frames *)

Section ModbusFrames.

Lemma le16_roundtrip (c : Z) :
  Z.lor (Z.land c 0xFF) (Z.shiftl (Z.shiftr c 8) 8) = c.
Proof.
  apply Z.bits_inj'; intros n Hn.
  rewrite Z.lor_spec, Z.land_spec, Z.shiftl_spec by assumption.
  change 0xFF with (Z.ones 8).
  destruct (Z.ltb_spec n 8) as [Hlt|Hge].
  - rewrite Z.ones_spec_low by lia.
    rewrite (Z.testbit_neg_r _ (n - 8)) by lia.
    now rewrite andb_true_r, orb_false_r.
  - rewrite Z.ones_spec_high by lia.
    rewrite Z.shiftr_spec by lia.
    rewrite andb_false_r. simpl. f_equal. lia.
Qed.

Lemma skipn_last_two (l : list Z) :
  (2 <= length l)%nat ->
  skipn (length l - 2) l = [at_ l (length l - 2); at_ l (length l - 1)].
Proof.
  intros Hlen.
  pose proof (firstn_skipn (length l - 2) l) as Hsplit.
  pose proof (length_skipn (length l - 2) l) as Hs.
  pose proof (length_firstn (length l - 2) l) as Hf.
  destruct (skipn (length l - 2) l) as [|x [|y [|z t]]] eqn:E; simpl in Hs;
    try lia.
  unfold at_. rewrite <- Hsplit at 2 4.
  rewrite !app_nth2 by lia.
  replace (length l - 2 - length (firstn (length l - 2) l))%nat with 0%nat by lia.
  replace (length l - 1 - length (firstn (length l - 2) l))%nat with 1%nat by lia.
  reflexivity.
Qed.

(** The parser past its length check, in terms of [payload_of] and
    [crc_field]. *)
Lemma parse_unfold (resp : list Z) (slave reg_count : Z) :
  (5 <= length resp)%nat ->
  parse_read_holding_registers resp slave reg_count =
  let payload := payload_of resp in
  if negb (modbus_crc16 payload =? crc_field resp)
  then Raise (InvalidCRC (modbus_crc16 payload) (crc_field resp)) else
  if negb (at_ payload 0 =? slave) then Raise (UnexpectedSlave (at_ payload 0)) else
  if negb (at_ payload 1 =? 0x03) then
    if negb (Z.land (at_ payload 1) 0x80 =? 0)
    then Raise (ModbusException (at_ payload 1) (at_ payload 2))
    else Raise (UnexpectedFunction (at_ payload 1))
  else
  if negb (at_ payload 2 =? reg_count * 2)
  then Raise (UnexpectedByteCount (at_ payload 2) (reg_count * 2))
  else unpack_H_be_many (Z.to_nat reg_count)
         (firstn (Z.to_nat (at_ payload 2)) (skipn 3 payload)).
Proof.
  intros Hlen. unfold parse_read_holding_registers.
  destruct (Nat.ltb_spec (length resp) 5) as [Hlt|_]; [lia|].
  rewrite skipn_last_two by lia. cbn [unpack_H_le bind].
  fold (payload_of resp). fold (crc_field resp).
  assert (Hp : (2 <? length (payload_of resp))%nat = true).
  { apply Nat.ltb_lt. unfold payload_of. rewrite length_firstn. lia. }
  rewrite Hp. reflexivity.
Qed.

Lemma unpack_H_be_many_short (n : nat) : forall data,
  length data <> (2 * n)%nat -> unpack_H_be_many n data = Raise StructError.
Proof.
  induction n as [|n IH]; intros [|hi [|lo rest]] Hlen; simpl in *;
    try reflexivity; try lia.
  rewrite IH by lia. reflexivity.
Qed.

Lemma unpack_H_be_many_exact (n : nat) : forall data,
  length data = (2 * n)%nat ->
  unpack_H_be_many n data =
  Ok (map (fun k => Z.lor (Z.shiftl (nth (2 * k) data 0) 8) (nth (2 * k + 1) data 0))
          (seq 0 n)).
Proof.
  induction n as [|n IH]; intros [|hi [|lo rest]] Hlen; simpl in Hlen;
    try lia; [reflexivity|].
  cbn [unpack_H_be_many]. rewrite IH by lia. cbn [bind seq map].
  do 2 f_equal.
  rewrite <- seq_shift, map_map. apply map_ext; intros k.
  replace (2 * S k)%nat with (S (S (2 * k))) by lia. reflexivity.
Qed.

Lemma nth_data_slice (payload : list Z) (m j : nat) :
  (j < m)%nat ->
  nth j (firstn m (skipn 3 payload)) 0 = at_ payload (3 + j).
Proof.
  intros Hj. unfold at_.
  rewrite nth_firstn. destruct (Nat.ltb_spec j m); [|lia].
  now rewrite nth_skipn.
Qed.

End ModbusFrames.

Section ParserValidation.

Variables (resp : list Z) (slave reg_count : Z).

Lemma parse_short :
  (length resp < 5)%nat ->
  parse_read_holding_registers resp slave reg_count
  = Raise (ShortResponse (length resp)).
Proof.
  intros Hlen. unfold parse_read_holding_registers.
  destruct (Nat.ltb_spec (length resp) 5); [reflexivity | lia].
Qed.

Lemma parse_invalid_crc :
  (5 <= length resp)%nat -> ~ crc_ok resp ->
  parse_read_holding_registers resp slave reg_count
  = Raise (InvalidCRC (modbus_crc16 (payload_of resp)) (crc_field resp)).
Proof.
  intros Hlen Hn. rewrite parse_unfold by assumption. cbv zeta.
  destruct (Z.eqb_spec (modbus_crc16 (payload_of resp)) (crc_field resp));
    [contradiction | reflexivity].
Qed.

Lemma parse_unexpected_slave :
  (5 <= length resp)%nat -> crc_ok resp -> ~ slave_ok resp slave ->
  parse_read_holding_registers resp slave reg_count
  = Raise (UnexpectedSlave (at_ (payload_of resp) 0)).
Proof.
  intros Hlen Hc Hn. rewrite parse_unfold by assumption. cbv zeta.
  rewrite Hc, Z.eqb_refl.
  destruct (Z.eqb_spec (at_ (payload_of resp) 0) slave);
    [contradiction | reflexivity].
Qed.

Lemma parse_modbus_exception :
  (5 <= length resp)%nat -> crc_ok resp -> slave_ok resp slave ->
  ~ function_ok resp -> Z.land (at_ (payload_of resp) 1) 0x80 <> 0 ->
  parse_read_holding_registers resp slave reg_count
  = Raise (ModbusException (at_ (payload_of resp) 1) (at_ (payload_of resp) 2)).
Proof.
  intros Hlen Hc Hs Hn Hhigh. rewrite parse_unfold by assumption. cbv zeta.
  rewrite Hc, Hs, !Z.eqb_refl.
  destruct (Z.eqb_spec (at_ (payload_of resp) 1) 3); [contradiction|].
  destruct (Z.eqb_spec (Z.land (at_ (payload_of resp) 1) 128) 0);
    [contradiction | reflexivity].
Qed.

Lemma parse_unexpected_function :
  (5 <= length resp)%nat -> crc_ok resp -> slave_ok resp slave ->
  ~ function_ok resp -> Z.land (at_ (payload_of resp) 1) 0x80 = 0 ->
  parse_read_holding_registers resp slave reg_count
  = Raise (UnexpectedFunction (at_ (payload_of resp) 1)).
Proof.
  intros Hlen Hc Hs Hn Hlow. rewrite parse_unfold by assumption. cbv zeta.
  rewrite Hc, Hs, !Z.eqb_refl.
  destruct (Z.eqb_spec (at_ (payload_of resp) 1) 3); [contradiction|].
  rewrite Hlow. reflexivity.
Qed.

Lemma parse_unexpected_byte_count :
  (5 <= length resp)%nat -> crc_ok resp -> slave_ok resp slave ->
  function_ok resp -> ~ byte_count_ok resp reg_count ->
  parse_read_holding_registers resp slave reg_count
  = Raise (UnexpectedByteCount (at_ (payload_of resp) 2) (reg_count * 2)).
Proof.
  intros Hlen Hc Hs Hf Hn. rewrite parse_unfold by assumption. cbv zeta.
  rewrite Hc, Hs, Hf, !Z.eqb_refl.
  destruct (Z.eqb_spec (at_ (payload_of resp) 2) (reg_count * 2));
    [contradiction | reflexivity].
Qed.

Lemma parse_passed_checks :
  (5 <= length resp)%nat -> crc_ok resp -> slave_ok resp slave ->
  function_ok resp -> byte_count_ok resp reg_count ->
  parse_read_holding_registers resp slave reg_count
  = unpack_H_be_many (Z.to_nat reg_count)
      (firstn (Z.to_nat (reg_count * 2)) (skipn 3 (payload_of resp))).
Proof.
  unfold crc_ok, slave_ok, function_ok, byte_count_ok.
  intros Hlen Hcrc Hslave Hfunc Hbc.
  rewrite parse_unfold by assumption. cbv zeta.
  rewrite Hcrc, Hslave, Hfunc, Hbc, !Z.eqb_refl. reflexivity.
Qed.

Lemma payload_length :
  (2 <= length resp)%nat -> length (payload_of resp) = (length resp - 2)%nat.
Proof. intros H. unfold payload_of. rewrite length_firstn. lia. Qed.

Lemma parse_passed_short_data :
  (5 <= length resp)%nat -> crc_ok resp -> slave_ok resp slave ->
  function_ok resp -> byte_count_ok resp reg_count ->
  Z.of_nat (length resp) < 5 + 2 * reg_count ->
  parse_read_holding_registers resp slave reg_count = Raise StructError.
Proof.
  intros Hlen Hcrc Hslave Hfunc Hbc Hshort.
  rewrite parse_passed_checks by assumption.
  apply unpack_H_be_many_short.
  rewrite length_firstn, length_skipn, payload_length by lia. lia.
Qed.

Lemma parse_passed_full_data :
  (5 <= length resp)%nat -> crc_ok resp -> slave_ok resp slave ->
  function_ok resp -> byte_count_ok resp reg_count ->
  5 + 2 * reg_count <= Z.of_nat (length resp) ->
  parse_read_holding_registers resp slave reg_count
  = Ok (registers_of resp reg_count).
Proof.
  intros Hlen Hcrc Hslave Hfunc Hbc Hfull.
  rewrite parse_passed_checks by assumption.
  rewrite unpack_H_be_many_exact
    by (rewrite length_firstn, length_skipn, payload_length by lia; lia).
  f_equal. unfold registers_of. apply map_ext_in; intros k Hk.
  apply in_seq in Hk. unfold register_at.
  rewrite !nth_data_slice by lia.
  replace (3 + (2 * k + 1))%nat with (4 + 2 * k)%nat by lia. reflexivity.
Qed.

End ParserValidation.

(** From a successful parse, every check in turn: a failed one would have
    raised. *)
Ltac all_checks_hold resp slave reg_count H :=
  let Hge := fresh "Hge" in
  let Hc := fresh "Hc" in
  let Hs := fresh "Hs" in
  let Hf := fresh "Hf" in
  let Hb := fresh "Hb" in
  let Hfull := fresh "Hfull" in
  destruct (Nat.ltb_spec (length resp) 5) as [Hge|Hge];
    [rewrite (parse_short resp slave reg_count Hge) in H; discriminate|];
  destruct (Z.eq_dec (modbus_crc16 (payload_of resp)) (crc_field resp)) as [Hc|Hc];
    [|rewrite (parse_invalid_crc resp slave reg_count Hge Hc) in H; discriminate];
  destruct (Z.eq_dec (at_ (payload_of resp) 0) slave) as [Hs|Hs];
    [|rewrite (parse_unexpected_slave resp slave reg_count Hge Hc Hs) in H;
      discriminate];
  destruct (Z.eq_dec (at_ (payload_of resp) 1) 3) as [Hf|Hf];
    [|destruct (Z.eq_dec (Z.land (at_ (payload_of resp) 1) 0x80) 0);
      [rewrite (parse_unexpected_function resp slave reg_count) in H by assumption
      |rewrite (parse_modbus_exception resp slave reg_count) in H by assumption];
      discriminate];
  destruct (Z.eq_dec (at_ (payload_of resp) 2) (reg_count * 2)) as [Hb|Hb];
    [|rewrite (parse_unexpected_byte_count resp slave reg_count Hge Hc Hs Hf Hb) in H;
      discriminate];
  destruct (Z.lt_ge_cases (Z.of_nat (length resp)) (5 + 2 * reg_count))
    as [Hfull|Hfull];
    [rewrite (parse_passed_short_data resp slave reg_count Hge Hc Hs Hf Hb Hfull) in H;
     discriminate|].

(** C8 (amended).  The response parser validates in this order and raises
    at the first failing check: a minimum length of 5 bytes (a fixed
    minimum, not 5 plus twice the register count); the CRC16 of all bytes
    before the trailing two equals the little-endian CRC they hold; the
    first byte is the slave address; the second byte is 0x03, where a
    function byte with the high bit set is reported as a Modbus exception
    whose code is the following byte; the declared byte count is twice the
    register count.  Each of these failures is a [ValueError].  A response
    that passes the five checks but is shorter than 5 plus twice the
    register count fails in the unpacking ([struct.error]); one that is
    long enough yields the big-endian registers.  Hence register values
    are only ever returned for a response that is at least 5 plus twice
    the register count long and passes every check. *)
Theorem parse_validation_order (resp : list Z) (slave reg_count : Z) :
  let r := parse_read_holding_registers resp slave reg_count in
  let payload := payload_of resp in
  ((length resp < 5)%nat -> r = Raise (ShortResponse (length resp))) /\
  ((5 <= length resp)%nat -> ~ crc_ok resp ->
     r = Raise (InvalidCRC (modbus_crc16 payload) (crc_field resp))) /\
  ((5 <= length resp)%nat -> crc_ok resp -> ~ slave_ok resp slave ->
     r = Raise (UnexpectedSlave (at_ payload 0))) /\
  ((5 <= length resp)%nat -> crc_ok resp -> slave_ok resp slave ->
     ~ function_ok resp -> Z.land (at_ payload 1) 0x80 <> 0 ->
     r = Raise (ModbusException (at_ payload 1) (at_ payload 2))) /\
  ((5 <= length resp)%nat -> crc_ok resp -> slave_ok resp slave ->
     ~ function_ok resp -> Z.land (at_ payload 1) 0x80 = 0 ->
     r = Raise (UnexpectedFunction (at_ payload 1))) /\
  ((5 <= length resp)%nat -> crc_ok resp -> slave_ok resp slave ->
     function_ok resp -> ~ byte_count_ok resp reg_count ->
     r = Raise (UnexpectedByteCount (at_ payload 2) (reg_count * 2))) /\
  ((5 <= length resp)%nat -> crc_ok resp -> slave_ok resp slave ->
     function_ok resp -> byte_count_ok resp reg_count ->
     Z.of_nat (length resp) < 5 + 2 * reg_count ->
     r = Raise StructError) /\
  ((5 <= length resp)%nat -> crc_ok resp -> slave_ok resp slave ->
     function_ok resp -> byte_count_ok resp reg_count ->
     5 + 2 * reg_count <= Z.of_nat (length resp) ->
     r = Ok (registers_of resp reg_count)) /\
  (forall vals, r = Ok vals ->
     5 + 2 * reg_count <= Z.of_nat (length resp) /\
     (5 <= length resp)%nat /\ crc_ok resp /\ slave_ok resp slave /\
     function_ok resp /\ byte_count_ok resp reg_count /\
     vals = registers_of resp reg_count).
Proof.
  intros r payload. subst r payload.
  repeat split.
  - apply parse_short.
  - apply parse_invalid_crc.
  - apply parse_unexpected_slave.
  - apply parse_modbus_exception.
  - apply parse_unexpected_function.
  - apply parse_unexpected_byte_count.
  - apply parse_passed_short_data.
  - apply parse_passed_full_data.
  - all_checks_hold resp slave reg_count H. lia.
  - all_checks_hold resp slave reg_count H. lia.
  - all_checks_hold resp slave reg_count H. assumption.
  - all_checks_hold resp slave reg_count H. assumption.
  - all_checks_hold resp slave reg_count H. assumption.
  - all_checks_hold resp slave reg_count H. assumption.
  - all_checks_hold resp slave reg_count H.
    rewrite (parse_passed_full_data resp slave reg_count) in H by assumption.
    now inversion H.
Qed.

(** On the seven bytes that [read_wind_speed] hands over for one register
    the parser fails with a [ValueError] or not at all: the unpacking
    error needs a response shorter than that. *)
Lemma parse_seven_bytes (resp : list Z) (slave : Z) (ex : exn) :
  length resp = 7%nat ->
  parse_read_holding_registers resp slave 1 = Raise ex ->
  is_ValueError ex = true.
Proof.
  intros Hlen H.
  assert (Hge : (5 <= length resp)%nat) by lia.
  destruct (Z.eq_dec (modbus_crc16 (payload_of resp)) (crc_field resp)) as [Hc|Hc];
    [|rewrite (parse_invalid_crc resp slave 1 Hge Hc) in H;
      injection H as <-; reflexivity].
  destruct (Z.eq_dec (at_ (payload_of resp) 0) slave) as [Hs|Hs];
    [|rewrite (parse_unexpected_slave resp slave 1 Hge Hc Hs) in H;
      injection H as <-; reflexivity].
  destruct (Z.eq_dec (at_ (payload_of resp) 1) 3) as [Hf|Hf].
  - destruct (Z.eq_dec (at_ (payload_of resp) 2) (1 * 2)) as [Hb|Hb];
      [|rewrite (parse_unexpected_byte_count resp slave 1 Hge Hc Hs Hf Hb) in H;
        injection H as <-; reflexivity].
    rewrite (parse_passed_full_data resp slave 1 Hge Hc Hs Hf Hb) in H by lia.
    discriminate.
  - destruct (Z.eq_dec (Z.land (at_ (payload_of resp) 1) 0x80) 0) as [Hl|Hl].
    + rewrite (parse_unexpected_function resp slave 1 Hge Hc Hs Hf Hl) in H.
      injection H as <-. reflexivity.
    + rewrite (parse_modbus_exception resp slave 1 Hge Hc Hs Hf Hl) in H.
      injection H as <-. reflexivity.
Qed.

(** C8 (counterexample).  A five-byte Modbus exception response to a
    request for one register is shorter than 5 + 2 * 1 bytes, yet the
    parser does not reject it for its length: it gets as far as the
    function check and reports the exception with its code. *)
Lemma parse_min_length_counterexample :
  let resp := [2; 0x83; 2; 48; 241] in
  Z.of_nat (length resp) < 5 + 2 * 1 /\
  parse_read_holding_registers resp 2 1 = Raise (ModbusException 0x83 2) /\
  parse_read_holding_registers resp 2 1 <> Raise (ShortResponse (length resp)).
Proof.
  cbv zeta. split; [reflexivity|]. split; [reflexivity|].
  intros H. vm_compute in H. discriminate.
Qed.

(** A well-formed answer carrying one register. *)
Example parse_one_register :
  parse_read_holding_registers [2; 3; 2; 0; 25; 61; 142] 2 1 = Ok [25].
Proof. reflexivity. Qed.

(** A response that passes the five checks but carries no data bytes
    fails in [struct.unpack], with [struct.error] rather than [ValueError]. *)
Example parse_truncated_data :
  parse_read_holding_registers [2; 3; 2; 81; 49] 2 1 = Raise StructError.
Proof. reflexivity. Qed.

Example parse_bad_crc :
  parse_read_holding_registers [2; 3; 2; 0; 25; 62; 142] 2 1
  = Raise (InvalidCRC 36413 36414).
Proof. reflexivity. Qed.

(** The check value of CRC-16/MODBUS: the ASCII digits 1 to 9. *)
Example modbus_crc16_check :
  modbus_crc16 [49; 50; 51; 52; 53; 54; 55; 56; 57] = 0x4B37.
Proof. reflexivity. Qed.

(** ** Request frames and single-bit corruption *)

Section BitFlips.

Lemma pack_B_ok (v : Z) : 0 <= v <= 255 -> pack_B v = Ok [v].
Proof.
  intros H. unfold pack_B.
  destruct (Z.leb_spec 0 v), (Z.leb_spec v 255); try lia. reflexivity.
Qed.

Lemma pack_H_be_ok (v : Z) :
  0 <= v <= 65535 -> pack_H_be v = Ok [Z.shiftr v 8; Z.land v 0xFF].
Proof.
  intros H. unfold pack_H_be.
  destruct (Z.leb_spec 0 v), (Z.leb_spec v 65535); try lia. reflexivity.
Qed.

Lemma pack_H_le_ok (v : Z) :
  0 <= v <= 65535 -> pack_H_le v = Ok [Z.land v 0xFF; Z.shiftr v 8].
Proof.
  intros H. unfold pack_H_le.
  destruct (Z.leb_spec 0 v), (Z.leb_spec v 65535); try lia. reflexivity.
Qed.

Lemma build_request (slave start_addr reg_count : Z) :
  0 <= slave <= 255 -> 0 <= start_addr <= 65535 -> 0 <= reg_count <= 65535 ->
  build_read_holding_registers slave start_addr reg_count
  = Ok (request_frame slave start_addr reg_count).
Proof.
  intros Hs Ha Hc. unfold build_read_holding_registers.
  rewrite (pack_B_ok slave), (pack_B_ok 3), !pack_H_be_ok by lia.
  cbn [bind app]. rewrite pack_H_le_ok by apply modbus_crc16_range.
  reflexivity.
Qed.

Lemma xor_bytes_zeros (l : list Z) : xor_bytes l (repeat 0 (length l)) = l.
Proof.
  induction l as [|x l IH]; simpl; [reflexivity|].
  now rewrite Z.lxor_0_r, IH.
Qed.

Lemma flip_bit_xor (l : list Z) : forall i,
  flip_bit i l = xor_bytes l (unit_bit i (length l)).
Proof.
  induction l as [|x l IH]; intros i; simpl; [reflexivity|].
  destruct (i <? 8)%nat.
  - now rewrite xor_bytes_zeros.
  - now rewrite Z.lxor_0_r, IH.
Qed.

Lemma xor_bytes_app (p e1 t e2 : list Z) :
  length p = length e1 ->
  xor_bytes (p ++ t) (e1 ++ e2) = xor_bytes p e1 ++ xor_bytes t e2.
Proof.
  revert e1. induction p as [|x p IH]; intros [|y e1] Hlen; simpl in *;
    try discriminate; [reflexivity|].
  now rewrite IH by lia.
Qed.

Lemma length_unit_bit (len : nat) : forall i, length (unit_bit i len) = len.
Proof.
  induction len as [|len IH]; intros i; simpl; [reflexivity|].
  destruct (i <? 8)%nat; simpl; [now rewrite repeat_length | now rewrite IH].
Qed.

Lemma unit_bit_low (n m : nat) : forall i,
  (i < 8 * n)%nat -> unit_bit i (n + m) = unit_bit i n ++ repeat 0 m.
Proof.
  induction n as [|n IH]; intros i Hi; [lia|].
  cbn [Nat.add unit_bit]. destruct (Nat.ltb_spec i 8).
  - cbn [app]. now rewrite repeat_app.
  - cbn [app]. now rewrite IH by lia.
Qed.

Lemma unit_bit_high (n m : nat) : forall i,
  (8 * n <= i)%nat -> unit_bit i (n + m) = repeat 0 n ++ unit_bit (i - 8 * n) m.
Proof.
  induction n as [|n IH]; intros i Hi.
  - cbn [Nat.add repeat app]. now replace (i - 8 * 0)%nat with i by lia.
  - cbn [Nat.add unit_bit repeat app].
    destruct (Nat.ltb_spec i 8); [lia|].
    rewrite IH by lia.
    now replace (i - 8 - 8 * n)%nat with (i - 8 * S n)%nat by lia.
Qed.

Lemma payload_of_app (p : list Z) (u v : Z) : payload_of (p ++ [u; v]) = p.
Proof.
  unfold payload_of. rewrite length_app. cbn [length].
  replace (length p + 2 - 2)%nat with (length p + 0)%nat by lia.
  now rewrite firstn_app_2, app_nil_r.
Qed.

Lemma crc_field_app (p : list Z) (u v : Z) :
  crc_field (p ++ [u; v]) = Z.lor u (Z.shiftl v 8).
Proof.
  unfold crc_field, at_. rewrite length_app. cbn [length].
  rewrite !app_nth2 by lia.
  replace (length p + 2 - 2 - length p)%nat with 0%nat by lia.
  replace (length p + 2 - 1 - length p)%nat with 1%nat by lia.
  reflexivity.
Qed.

(** Every single-bit error pattern over the six bytes of a request has a
    non-zero syndrome. *)
Lemma single_bit_syndromes :
  forallb (fun i => negb (Z.land (crc_run 0 (unit_bit i 6)) 0xFFFF =? 0))
          (seq 0 48) = true.
Proof. vm_compute. reflexivity. Qed.

Lemma single_bit_syndrome (i : nat) :
  (i < 48)%nat -> Z.land (crc_run 0 (unit_bit i 6)) 0xFFFF <> 0.
Proof.
  intros Hi. pose proof single_bit_syndromes as H.
  rewrite forallb_forall in H. specialize (H i).
  assert (Hin : In i (seq 0 48)) by (apply in_seq; lia).
  apply H in Hin. apply negb_true_iff in Hin. now apply Z.eqb_neq.
Qed.

Lemma testbit_low_byte (c j : Z) : 8 <= j -> Z.testbit (Z.land c 0xFF) j = false.
Proof.
  intros Hj. rewrite Z.land_spec. change 0xFF with (Z.ones 8).
  rewrite Z.ones_spec_high by lia. apply andb_false_r.
Qed.

(** Flipping one bit of a two-byte little-endian field changes its value. *)
Lemma le16_flip_changes (c : Z) (j : nat) :
  (j < 16)%nat ->
  match xor_bytes [Z.land c 0xFF; Z.shiftr c 8] (unit_bit j 2) with
  | [u; v] => Z.lor u (Z.shiftl v 8) <> c
  | _ => False
  end.
Proof.
  intros Hj. cbn [unit_bit repeat xor_bytes].
  destruct (Nat.ltb_spec j 8) as [Hlo|Hhi]; cbn [xor_bytes].
  - rewrite Z.lxor_0_r. intros Heq.
    rewrite <- (le16_roundtrip c) in Heq at 3.
    apply (f_equal (fun z => Z.testbit z (Z.of_nat j))) in Heq.
    rewrite !Z.lor_spec, Z.lxor_spec, Z.shiftl_1_l, Z.pow2_bits_true in Heq by lia.
    rewrite Z.shiftl_spec_low in Heq by lia.
    destruct (Z.testbit (Z.land c 255) (Z.of_nat j)); discriminate.
  - destruct (Nat.ltb_spec (j - 8) 8) as [_|?]; [|lia]. cbn [xor_bytes].
    rewrite Z.lxor_0_r. intros Heq.
    rewrite <- (le16_roundtrip c) in Heq at 3.
    apply (f_equal (fun z => Z.testbit z (Z.of_nat j))) in Heq.
    rewrite !Z.lor_spec, !Z.shiftl_spec, Z.lxor_spec in Heq by lia.
    rewrite testbit_low_byte in Heq by lia.
    rewrite Z.shiftl_1_l in Heq.
    replace (Z.of_nat j - 8) with (Z.of_nat (j - 8)) in Heq by lia.
    rewrite Z.pow2_bits_true in Heq by lia.
    destruct (Z.testbit (Z.shiftr c 8) (Z.of_nat (j - 8))); discriminate.
Qed.

Lemma flipped_request_crc (slave start_addr reg_count : Z) (i : nat) :
  (i < 64)%nat ->
  ~ crc_ok (flip_bit i (request_frame slave start_addr reg_count)).
Proof.
  intros Hi. rewrite flip_bit_xor. unfold request_frame. cbv zeta.
  set (pdu := request_pdu slave start_addr reg_count).
  set (crc := modbus_crc16 pdu).
  assert (Hpdu : length pdu = 6%nat) by reflexivity.
  rewrite length_app, Hpdu. cbn [length Nat.add].
  change 8%nat with (6 + 2)%nat.
  destruct (Nat.lt_ge_cases i 48) as [Hlow|Hhigh].
  - rewrite unit_bit_low by lia.
    rewrite xor_bytes_app by (now rewrite length_unit_bit).
    cbn [repeat xor_bytes]. rewrite !Z.lxor_0_r.
    unfold crc_ok. rewrite payload_of_app, crc_field_app, le16_roundtrip.
    rewrite modbus_crc16_xor by (now rewrite length_unit_bit).
    fold crc. apply lxor_neq_l, single_bit_syndrome, Hlow.
  - rewrite unit_bit_high by lia.
    rewrite xor_bytes_app by (now rewrite repeat_length).
    change (repeat 0 6) with (repeat 0 (length pdu)). rewrite xor_bytes_zeros.
    pose proof (le16_flip_changes crc (i - 8 * 6) ltac:(lia)) as Hflip.
    destruct (xor_bytes [Z.land crc 255; Z.shiftr crc 8] (unit_bit (i - 8 * 6) 2))
      as [|u [|v [|w t]]]; try contradiction.
    unfold crc_ok. rewrite payload_of_app, crc_field_app. fold crc.
    intros Heq. now apply Hflip.
Qed.

End BitFlips.

Lemma is_byte_iff (b : Z) : is_byte b = true <-> 0 <= b <= 255.
Proof.
  unfold is_byte. rewrite andb_true_iff, Z.leb_le, Z.ltb_lt. lia.
Qed.

Lemma high_byte (v : Z) : 0 <= v <= 65535 -> is_byte (Z.shiftr v 8) = true.
Proof.
  intros H. apply is_byte_iff. rewrite Z.shiftr_div_pow2 by lia.
  change (2 ^ 8) with 256. split.
  - apply Z.div_pos; lia.
  - enough (v / 256 < 256) by lia. apply Z.div_lt_upper_bound; lia.
Qed.

Lemma low_byte (v : Z) : is_byte (Z.land v 0xFF) = true.
Proof.
  apply is_byte_iff. change (Z.land v 0xFF) with (Z.land v (Z.ones 8)).
  rewrite Z.land_ones by lia. change (2 ^ 8) with 256.
  pose proof (Z.mod_pos_bound v 256 eq_refl). lia.
Qed.

Lemma request_frame_bytes (slave start_addr reg_count : Z) :
  0 <= slave <= 255 -> 0 <= start_addr <= 65535 -> 0 <= reg_count <= 65535 ->
  is_bytes (request_frame slave start_addr reg_count) = true.
Proof.
  intros Hs Ha Hc. unfold request_frame, request_pdu, is_bytes.
  cbn [app forallb].
  rewrite (proj2 (is_byte_iff slave)) by lia.
  rewrite !high_byte by (assumption || apply modbus_crc16_range).
  rewrite !low_byte. reflexivity.
Qed.

Lemma length_flip_bit (l : list Z) : forall i, length (flip_bit i l) = length l.
Proof.
  induction l as [|x l IH]; intros i; simpl; [reflexivity|].
  destruct (i <? 8)%nat; simpl; [reflexivity | now rewrite IH].
Qed.

(** C7 (amended).  For every slave address in 0..255 and every start
    address and register count in 0..65535, the builder returns the frame
    [slave][0x03][start, big-endian][count, big-endian][CRC16,
    little-endian], eight bytes, the CRC16 (initial value 0xFFFF,
    reflected, polynomial 0xA001) being taken over the six preceding
    bytes.  The parser is a
    parser of responses: on such a request frame its length, CRC, slave
    and function checks pass, and it then reads the high byte of the start
    address as a byte count, so that it raises "unexpected byte count"
    whenever that byte differs from twice the register count; it does not
    give back (slave, start, count).  Flipping any single bit of a
    generated frame makes the parser raise the CRC [ValueError], whatever
    slave address and register count it is asked to expect. *)
Theorem request_frame_bit_flips_detected (slave start_addr reg_count : Z) :
  0 <= slave <= 255 -> 0 <= start_addr <= 65535 -> 0 <= reg_count <= 65535 ->
  let frame := request_frame slave start_addr reg_count in
  build_read_holding_registers slave start_addr reg_count = Ok frame /\
  length frame = 8%nat /\ is_bytes frame = true /\
  crc_ok frame /\ slave_ok frame slave /\ function_ok frame /\
  (Z.shiftr start_addr 8 <> reg_count * 2 ->
     parse_read_holding_registers frame slave reg_count
     = Raise (UnexpectedByteCount (Z.shiftr start_addr 8) (reg_count * 2))) /\
  (forall (i : nat) (slave' reg_count' : Z), (i < 64)%nat ->
     exists calc recv, calc <> recv /\
       parse_read_holding_registers (flip_bit i frame) slave' reg_count'
       = Raise (InvalidCRC calc recv)).
Proof.
  intros Hs Ha Hc frame.
  assert (Hcrc : crc_ok frame).
  { subst frame. unfold request_frame, crc_ok. cbv zeta.
    now rewrite payload_of_app, crc_field_app, le16_roundtrip. }
  assert (Hpay : payload_of frame = request_pdu slave start_addr reg_count).
  { subst frame. unfold request_frame. cbv zeta. apply payload_of_app. }
  assert (Hslave : slave_ok frame slave) by (unfold slave_ok; now rewrite Hpay).
  assert (Hfunc : function_ok frame) by (unfold function_ok; now rewrite Hpay).
  split; [now apply build_request|].
  split; [reflexivity|].
  split; [now apply request_frame_bytes|].
  repeat (split; [assumption|]).
  split.
  - intros Hbc.
    rewrite parse_unexpected_byte_count; try assumption;
      try (now rewrite Hpay).
    subst frame. cbn. lia.
  - intros i slave' reg_count' Hi.
    pose proof (flipped_request_crc slave start_addr reg_count i Hi) as Hbad.
    fold frame in Hbad.
    exists (modbus_crc16 (payload_of (flip_bit i frame))), (crc_field (flip_bit i frame)).
    split; [exact Hbad|].
    apply parse_invalid_crc; [|exact Hbad].
    rewrite length_flip_bit. subst frame. cbn. lia.
Qed.

(** The request the driver sends: slave 2, register 0, one register. *)
Lemma request_frame_bit_flips_witness :
  build_read_holding_registers 2 0 1 = Ok [2; 3; 0; 0; 0; 1; 132; 57] /\
  forall (i : nat), (i < 64)%nat ->
    exists calc recv, calc <> recv /\
      parse_read_holding_registers (flip_bit i [2; 3; 0; 0; 0; 1; 132; 57]) 2 1
      = Raise (InvalidCRC calc recv).
Proof.
  destruct (request_frame_bit_flips_detected 2 0 1)
    as (Hb & _ & _ & _ & _ & _ & _ & Hf);
    [lia | lia | lia |].
  split; [exact Hb|].
  intros i Hi. exact (Hf i 2 1 Hi).
Defined.

(** C7 (counterexample).  The frame built for the request the driver
    really sends (slave 2, register 0, one register) is not accepted by
    the parser when it is asked to expect slave 2 and one register. *)
Lemma request_round_trip_counterexample :
  build_read_holding_registers 2 0 1 = Ok [2; 3; 0; 0; 0; 1; 132; 57] /\
  parse_read_holding_registers [2; 3; 0; 0; 0; 1; 132; 57] 2 1
  = Raise (UnexpectedByteCount 0 2).
Proof. split; reflexivity. Qed.

Example flip_bit_example :
  flip_bit 9 [2; 3; 0; 0; 0; 1; 132; 57] = [2; 1; 0; 0; 0; 1; 132; 57] /\
  parse_read_holding_registers (flip_bit 9 [2; 3; 0; 0; 0; 1; 132; 57]) 2 1
  = Raise (InvalidCRC 63997 14724).
Proof. split; reflexivity. Qed.

(** ** The canonical timestamps *)

Example iso_parse_2024 :
  iso8601.parse "2024-01-01T00:00:00Z" = Some 1704067200.
Proof. reflexivity. Qed.

Example iso_parse_leap_day :
  iso8601.parse "2024-02-29T12:34:56Z" = Some 1709210096.
Proof. reflexivity. Qed.

Example iso_parse_rejects :
  iso8601.parse "2023-02-29T12:34:56Z" = None /\
  iso8601.parse "2024-01-01 00:00:00" = None /\
  iso8601.parse "2024-01-01T00:00:60Z" = None /\
  iso8601.parse "0000-01-01T00:00:00Z" = None /\
  iso8601.parse "2024-01-01T00:00:00Z " = None.
Proof. repeat split; reflexivity. Qed.

(** Two spellings of one instant. *)
Example iso_parse_spellings :
  iso8601.parse "2024-1-1T1:2:3Z" = iso8601.parse "2024-01-01T01:02:03Z" /\
  iso8601.parse "2024-01- 1t01:02:03z" = Some 1704070923.
Proof. split; reflexivity. Qed.

Example iso_format_2024 :
  iso8601.format 1704067200 = "2024-01-01T00:00:00Z"%string /\
  iso8601.format 1709210096 = "2024-02-29T12:34:56Z"%string /\
  iso8601.format 0 = "1970-01-01T00:00:00Z"%string.
Proof. repeat split; reflexivity. Qed.

(** ** Binary64 comparisons *)

Section FloatOrder.

Local Open Scope float_scope.

Lemma SFcompare_antisym (x y : spec_float) :
  SFcompare y x = option_map CompOpp (SFcompare x y).
Proof.
  destruct x as [sx|sx| |sx mx ex], y as [sy|sy| |sy my ey]; simpl;
    try destruct sx; try destruct sy; try reflexivity.
  - rewrite (Z.compare_antisym ex ey).
    destruct (ex ?= ey)%Z; simpl; try reflexivity.
    change (Pos.compare_cont Eq my mx) with (Pos.compare my mx).
    change (Pos.compare_cont Eq mx my) with (Pos.compare mx my).
    now rewrite (Pos.compare_antisym mx my).
  - rewrite (Z.compare_antisym ex ey).
    destruct (ex ?= ey)%Z; simpl; try reflexivity.
    change (Pos.compare_cont Eq my mx) with (Pos.compare my mx).
    change (Pos.compare_cont Eq mx my) with (Pos.compare mx my).
    now rewrite (Pos.compare_antisym mx my).
Qed.

(** [x < y] excludes [y <= x]. *)
Lemma ltb_not_leb (x y : float) : (x <? y) = true -> (y <=? x) = false.
Proof.
  rewrite ltb_spec, leb_spec. unfold SFltb, SFleb.
  rewrite (SFcompare_antisym (Prim2SF x) (Prim2SF y)).
  destruct (SFcompare (Prim2SF x) (Prim2SF y)) as [[| |]|]; simpl; congruence.
Qed.

(** [x < y] gives [x <= y]. *)
Lemma ltb_leb (x y : float) : (x <? y) = true -> (x <=? y) = true.
Proof.
  rewrite ltb_spec, leb_spec. unfold SFltb, SFleb.
  destruct (SFcompare (Prim2SF x) (Prim2SF y)) as [[| |]|]; congruence.
Qed.

(** Two numbers that are not NaN are comparable. *)
Lemma leb_total (x y : float) :
  is_nan x = false -> is_nan y = false -> (x <=? y) = true \/ (y <? x) = true.
Proof.
  unfold is_nan. rewrite !eqb_spec, leb_spec, ltb_spec.
  unfold SFeqb, SFleb, SFltb.
  rewrite (SFcompare_antisym (Prim2SF x) (Prim2SF y)).
  destruct (Prim2SF x) as [sx|sx| |sx mx ex] eqn:Ex,
           (Prim2SF y) as [sy|sy| |sy my ey] eqn:Ey;
    try (simpl; discriminate).
  all: intros _ _.
  all: match goal with
       | |- context [SFcompare ?a ?b] =>
           assert (Hc : SFcompare a b <> None) by (simpl; discriminate);
           destruct (SFcompare a b) as [[| |]|]; simpl; try congruence; auto
       end.
Qed.

Lemma leb_refl (x : float) : is_nan x = false -> (x <=? x) = true.
Proof.
  unfold is_nan. rewrite eqb_spec, leb_spec. unfold SFeqb, SFleb.
  destruct (SFcompare (Prim2SF x) (Prim2SF x)) as [[| |]|]; simpl; congruence.
Qed.

End FloatOrder.

(** ** to_kmh *)

Section UnitNormalisation.









End UnitNormalisation.



Example to_kmh_examples :
  to_kmh default_config 5 (Some " KM/H "%string) = Some 5%float /\
  to_kmh default_config 5 (Some "m/s"%string) = Some 18%float /\
  to_kmh default_config 5 None = Some 18%float /\
  to_kmh kmh_config 5 (Some ""%string) = Some 5%float /\
  to_kmh kmh_config 5 (Some "  "%string) = Some 18%float.
Proof. repeat split; reflexivity. Qed.

(** ** Fusion *)

Section Fusion.

Variable cfg : Config.
Variable lib : Datetime.

Local Open Scope float_scope.

Lemma u_eff_of_below (u : float) : (u <? 1) = true -> u_eff_of u = 1.
Proof. intros H. unfold u_eff_of. now rewrite (ltb_not_leb u 1 H). Qed.

Lemma u_eff_of_above (u : float) : (1 <=? u) = true -> u_eff_of u = u.
Proof. intros H. unfold u_eff_of. now rewrite H. Qed.

Lemma u_eff_of_floor (u : float) : (1 <=? u_eff_of u) = true.
Proof. unfold u_eff_of. destruct (1 <=? u) eqn:E; [exact E | reflexivity]. Qed.

Lemma u_eff_of_upper (u : float) :
  is_nan u = false -> (u <=? u_eff_of u) = true.
Proof.
  intros Hu. unfold u_eff_of. destruct (1 <=? u) eqn:E.
  - now apply leb_refl.
  - destruct (leb_total u 1 Hu eq_refl) as [H|H]; [exact H|].
    apply ltb_leb in H. congruence.
Qed.

Lemma ref_ts_max (a b : Z) : (if (a >=? b)%Z then a else b) = Z.max a b.
Proof. destruct (Z.geb_spec a b); lia. Qed.

Lemma compute_ready (store_ok sms_ok : bool) (st : State)
    (t h u : float) (ts_dht ts_wind : Z) :
  dht_t st = Some t -> dht_h st = Some h -> wind_u st = Some u ->
  dht_ts st = Some ts_dht -> wind_ts st = Some ts_wind ->
  (seconds_between ts_dht ts_wind <= SYNC_WINDOW_S cfg)%Z ->
  compute_and_store_if_ready cfg lib store_ok sms_ok st =
  let ts_iso := strftime lib (Z.max ts_dht ts_wind) in
  let fmi := fmi_of t h in
  if fmi <=? 0 then (st, FmiNonPositive fmi)
  else
    let f_val := f_index_of t h u in
    match write_f_to_influx store_ok f_val ts_iso st with
    | (st1, Failed) => (st1, Computed fmi f_val ts_iso Failed None)
    | (st1, w) =>
        let '(st2, a) := maybe_send_alert cfg lib sms_ok f_val ts_iso st1 in
        (st2, Computed fmi f_val ts_iso w (Some a))
    end.
Proof.
  intros Ht Hh Hu Hd Hw Hsync. unfold compute_and_store_if_ready.
  rewrite Ht, Hh, Hu, Hd, Hw.
  destruct (Z.gtb_spec (seconds_between ts_dht ts_wind) (SYNC_WINDOW_S cfg));
    [lia|].
  rewrite ref_ts_max. reflexivity.
Qed.

End Fusion.

(** The scenario of the synchronised pair (30.0, 40.0, 18.0 km/h): the
    index 1.44 is stored and, being below the threshold 1.5, raises no
    alert; with the wind at 20 km/h the index 1.6 is admitted. *)
Example fusion_scenario :
  let st18 := set_wind 18 1704067200 (set_dht 30 40 1704067200 initial_state) in
  let st20 := set_wind 20 1704067200 (set_dht 30 40 1704067200 initial_state) in
  snd (compute_and_store_if_ready default_config iso8601.lib true true st18)
  = Computed 12.5 1.44 "2024-01-01T00:00:00Z" Written (Some BelowThreshold) /\
  snd (compute_and_store_if_ready default_config iso8601.lib true true st20)
  = Computed 12.5 1.6 "2024-01-01T00:00:00Z" Written (Some (Allowed true)).
Proof. split; reflexivity. Qed.

(** A non-physical pair: temperature 60.0, humidity 10.0 give fmi -2.5 and
    the state is left as it was. *)
Example fusion_non_physical :
  let st := set_wind 18 1704067200 (set_dht 60 10 1704067200 initial_state) in
  compute_and_store_if_ready default_config iso8601.lib true true st
  = (st, FmiNonPositive (-2.5)%float).
Proof. reflexivity. Qed.

(** ** Deduplicated store write *)

Section WriteDedup.

Lemma opt_str_eqb_true (a : option string) (b : string) :
  opt_str_eqb a b = true <-> a = Some b.
Proof.
  destruct a as [x|]; simpl.
  - rewrite String.eqb_eq. split; congruence.
  - split; discriminate.
Qed.

Lemma opt_str_eqb_false (a : option string) (b : string) :
  opt_str_eqb a b = false <-> a <> Some b.
Proof.
  rewrite <- opt_str_eqb_true. destruct (opt_str_eqb a b); split; congruence.
Qed.

Lemma write_duplicate (store_ok : bool) (f : float) (ts : string) (st : State) :
  last_write_ts_iso st = Some ts ->
  write_f_to_influx store_ok f ts st = (st, SkippedDuplicate).
Proof.
  intros H. unfold write_f_to_influx.
  now rewrite (proj2 (opt_str_eqb_true _ _) H).
Qed.

Lemma write_fresh (store_ok : bool) (f : float) (ts : string) (st : State) :
  last_write_ts_iso st <> Some ts ->
  write_f_to_influx store_ok f ts st =
  if store_ok
  then (set_last_write ts (emit (InfluxWrite f ts true) st), Written)
  else (emit (InfluxWrite f ts false) st, Failed).
Proof.
  intros H. unfold write_f_to_influx.
  rewrite (proj2 (opt_str_eqb_false _ _) H). now destruct store_ok.
Qed.

(** What a write leaves alone. *)
Lemma write_frame (store_ok : bool) (f : float) (ts : string) (st : State) :
  let st' := fst (write_f_to_influx store_ok f ts st) in
  last_alert_epoch_data st' = last_alert_epoch_data st /\
  last_alert_ts_iso st' = last_alert_ts_iso st /\
  sms_count st' = sms_count st /\
  dht_t st' = dht_t st /\ dht_h st' = dht_h st /\ dht_ts st' = dht_ts st /\
  wind_u st' = wind_u st /\ wind_ts st' = wind_ts st.
Proof.
  unfold write_f_to_influx.
  destruct (opt_str_eqb (last_write_ts_iso st) ts); [now repeat split|].
  destruct store_ok; now repeat split.
Qed.

End WriteDedup.

(** C5.  The deduplicated write returns without calling the store when the
    timestamp equals [last_write_ts_iso].  Otherwise it calls the store
    with the value and the timestamp; when the store answers,
    [last_write_ts_iso] becomes that timestamp; when the store raises, the
    exception escapes and [last_write_ts_iso] is what it was, so that a
    later call with the same timestamp calls the store again.  A second
    call in succession with the same timestamp, after a first that the
    store accepted, is skipped: the two calls make exactly one store call
    when the timestamp was not already the recorded one (and none when it
    was). *)
Theorem write_f_to_influx_dedup (f : float) (ts : string) (st : State) :
  (last_write_ts_iso st = Some ts ->
     forall store_ok,
       write_f_to_influx store_ok f ts st = (st, SkippedDuplicate)) /\
  (last_write_ts_iso st <> Some ts ->
     write_f_to_influx true f ts st
     = (set_last_write ts (emit (InfluxWrite f ts true) st), Written) /\
     write_f_to_influx false f ts st
     = (emit (InfluxWrite f ts false) st, Failed) /\
     last_write_ts_iso (fst (write_f_to_influx false f ts st))
     = last_write_ts_iso st /\
     (forall store_ok f',
        events (fst (write_f_to_influx store_ok f' ts
                       (fst (write_f_to_influx false f ts st))))
        = InfluxWrite f' ts store_ok :: InfluxWrite f ts false :: events st)) /\
  (forall f',
     let st1 := fst (write_f_to_influx true f ts st) in
     write_f_to_influx true f' ts st1 = (st1, SkippedDuplicate) /\
     store_calls st1 =
     (store_calls st + if opt_str_eqb (last_write_ts_iso st) ts then 0 else 1)%nat).
Proof.
  split; [intros H ok; now apply write_duplicate|].
  split.
  - intros H.
    rewrite !write_fresh by assumption.
    repeat split.
    intros store_ok f'. cbn [fst].
    rewrite write_fresh by exact H. now destruct store_ok.
  - intros f' st1. subst st1.
    destruct (opt_str_eqb (last_write_ts_iso st) ts) eqn:E.
    + apply opt_str_eqb_true in E.
      rewrite (write_duplicate true f ts st E). cbn [fst].
      split; [now apply write_duplicate | lia].
    + apply opt_str_eqb_false in E.
      rewrite (write_fresh true f ts st E). cbn [fst].
      split; [now apply write_duplicate|].
      unfold store_calls. cbn. lia.
Qed.

Example write_twice :
  let st1 := fst (write_f_to_influx true 1.44 "2024-01-01T00:00:00Z" initial_state) in
  let st2 := fst (write_f_to_influx true 1.44 "2024-01-01T00:00:00Z" st1) in
  store_calls st2 = 1%nat /\ last_write_ts_iso st2 = Some "2024-01-01T00:00:00Z"%string.
Proof. split; reflexivity. Qed.

Example write_retry_after_failure :
  let st1 := fst (write_f_to_influx false 1.44 "2024-01-01T00:00:00Z" initial_state) in
  let st2 := fst (write_f_to_influx true 1.44 "2024-01-01T00:00:00Z" st1) in
  last_write_ts_iso st1 = None /\ store_calls st2 = 2%nat /\
  stored_count "2024-01-01T00:00:00Z" st2 = 1%nat.
Proof. repeat split; reflexivity. Qed.

(** ** At most one write per run of a timestamp *)

Section WriteLog.

Variable cfg : Config.
Variable lib : Datetime.

Lemma write_inv_initial : write_inv initial_state.
Proof. split; [reflexivity | exact I]. Qed.

Lemma write_inv_write (store_ok : bool) (f : float) (ts : string) (st : State) :
  write_inv st -> write_inv (fst (write_f_to_influx store_ok f ts st)).
Proof.
  intros [Hc Hn]. unfold write_f_to_influx.
  destruct (opt_str_eqb (last_write_ts_iso st) ts) eqn:E; [now split|].
  apply opt_str_eqb_false in E.
  destruct store_ok; cbn [fst]; [|now split].
  unfold write_inv, write_log_consistent in *. cbn.
  split; [reflexivity|].
  destruct (stored_timestamps (events st)) as [|x l] eqn:El; [exact I|].
  split; [|exact Hn]. cbn in Hc. congruence.
Qed.

Lemma alert_keeps_write_log (sms_ok : bool) (f : float) (ts : string) (st : State) :
  let st' := fst (maybe_send_alert cfg lib sms_ok f ts st) in
  last_write_ts_iso st' = last_write_ts_iso st /\
  stored_timestamps (events st') = stored_timestamps (events st) /\
  filter is_store_call (events st') = filter is_store_call (events st).
Proof.
  unfold maybe_send_alert.
  destruct (PrimFloat.leb f (F_THRESHOLD cfg)); [now repeat split|].
  destruct (parse_iso8601 lib ts) as [e|]; [|now repeat split].
  unfold alert_critical_section.
  destruct (opt_str_eqb (last_alert_ts_iso st) ts); [now repeat split|].
  destruct (last_alert_epoch_data st) as [l|];
    [|destruct (local_time lib e); now repeat split].
  destruct (e - l <=? 0); [now repeat split|].
  destruct (e - l <? ALERT_COOLDOWN cfg); [now repeat split|].
  destruct (local_time lib e); now repeat split.
Qed.

Lemma write_inv_alert (sms_ok : bool) (f : float) (ts : string) (st : State) :
  write_inv st -> write_inv (fst (maybe_send_alert cfg lib sms_ok f ts st)).
Proof.
  intros [Hc Hn].
  destruct (alert_keeps_write_log sms_ok f ts st) as (H1 & H2 & _).
  unfold write_inv, write_log_consistent. now rewrite H1, H2.
Qed.

Lemma write_inv_compute (store_ok sms_ok : bool) (st : State) :
  write_inv st ->
  write_inv (fst (compute_and_store_if_ready cfg lib store_ok sms_ok st)).
Proof.
  intros H. unfold compute_and_store_if_ready.
  destruct (dht_t st), (dht_h st), (wind_u st), (dht_ts st), (wind_ts st);
    try exact H.
  destruct (_ >? _); [exact H|].
  destruct (PrimFloat.leb _ _); [exact H|].
  match goal with |- context [write_f_to_influx ?ok ?f ?ts st] =>
    pose proof (write_inv_write ok f ts st H) as Hw;
    destruct (write_f_to_influx ok f ts st) as [st1 w]
  end.
  cbn [fst] in Hw.
  destruct w; try exact Hw;
    match goal with |- context [maybe_send_alert cfg lib ?ok ?f ?ts st1] =>
      pose proof (write_inv_alert ok f ts st1 Hw) as Ha;
      destruct (maybe_send_alert cfg lib ok f ts st1) as [st2 a]
    end; exact Ha.
Qed.

Lemma write_inv_on_message (store_ok sms_ok : bool) (m : Message) (st : State) :
  write_inv st -> write_inv (on_message cfg lib store_ok sms_ok m st).
Proof.
  intros H. destruct m as [t h ts | u ts | u unit ts]; cbn [on_message].
  - apply write_inv_compute. exact H.
  - apply write_inv_compute. exact H.
  - destruct (to_kmh cfg u unit); [|exact H].
    apply write_inv_compute. exact H.
Qed.

Lemma write_inv_run (ms : list (Message * bool * bool)) : forall st,
  write_inv st -> write_inv (run cfg lib ms st).
Proof.
  induction ms as [|[[m ok1] ok2] ms IH]; intros st H; [exact H|].
  cbn [run]. apply IH, write_inv_on_message, H.
Qed.

Lemma write_inv_run_writes (calls : list WriteCall) : forall st,
  write_inv st -> write_inv (run_writes calls st).
Proof.
  induction calls as [|c calls IH]; intros st H; [exact H|].
  cbn [run_writes]. apply IH, write_inv_write, H.
Qed.

Lemma run_writes_same_skipped (T : string) (calls : list WriteCall) : forall st,
  Forall (fun c => wc_ts_iso c = T) calls ->
  last_write_ts_iso st = Some T ->
  run_writes calls st = st.
Proof.
  induction calls as [|c calls IH]; intros st Hall Hlast; [reflexivity|].
  inversion Hall as [|c' calls' Hc Hrest]; subst.
  cbn [run_writes]. rewrite write_duplicate by assumption.
  cbn [fst]. now apply IH.
Qed.

Lemma run_writes_same_count (T : string) (calls : list WriteCall) : forall st,
  Forall (fun c => wc_ts_iso c = T) calls ->
  (stored_count T (run_writes calls st) <= stored_count T st + 1)%nat.
Proof.
  induction calls as [|c calls IH]; intros st Hall; [cbn; lia|].
  inversion Hall as [|c' calls' Hc Hrest]; subst.
  cbn [run_writes].
  destruct (opt_str_eqb (last_write_ts_iso st) (wc_ts_iso c)) eqn:E.
  - apply opt_str_eqb_true in E. rewrite write_duplicate by assumption.
    cbn [fst]. now apply IH.
  - apply opt_str_eqb_false in E. rewrite write_fresh by assumption.
    destruct (wc_store_ok c); cbn [fst].
    + rewrite (run_writes_same_skipped (wc_ts_iso c)) by (assumption || reflexivity).
      unfold stored_count. cbn. rewrite String.eqb_refl. cbn. lia.
    + etransitivity; [apply IH; assumption|].
      unfold stored_count. cbn. lia.
Qed.

End WriteLog.

(** C6 (amended).  The dedup state remembers only the most recently
    written timestamp.  Over a process lifetime, whether given as a
    sequence of deduplicated write calls or as the messages delivered, no
    two consecutive successful store writes carry the same timestamp; and
    in every sequence of write calls that all carry the timestamp T, from
    any state, at most one successful store write is made.  (When a write
    with another timestamp succeeds in between, T can be written again.) *)
Theorem write_dedup_consecutive :
  (forall calls,
     no_adjacent_dup (stored_timestamps (events (run_writes calls initial_state)))) /\
  (forall cfg lib ms,
     no_adjacent_dup (stored_timestamps (events (run cfg lib ms initial_state)))) /\
  (forall T calls st,
     Forall (fun c => wc_ts_iso c = T) calls ->
     (stored_count T (run_writes calls st) <= stored_count T st + 1)%nat).
Proof.
  split; [|split].
  - intros calls. apply write_inv_run_writes, write_inv_initial.
  - intros cfg lib ms. apply write_inv_run, write_inv_initial.
  - intros T calls st. apply run_writes_same_count.
Qed.

(** C6 (counterexample).  Three calls that the store accepts, the second
    with another timestamp: the first timestamp is written twice. *)
Lemma write_dedup_interleaved_counterexample :
  let T := "2024-01-01T00:00:00Z"%string in
  let T' := "2024-01-01T00:01:00Z"%string in
  let calls :=
    [ {| wc_store_ok := true; wc_f_value := 1.44; wc_ts_iso := T |};
      {| wc_store_ok := true; wc_f_value := 1.44; wc_ts_iso := T' |};
      {| wc_store_ok := true; wc_f_value := 1.44; wc_ts_iso := T |} ] in
  stored_count T (run_writes calls initial_state) = 2%nat /\
  ~ (stored_count T (run_writes calls initial_state) <= 1)%nat.
Proof. cbv zeta. split; [reflexivity|]. vm_compute. lia. Qed.

(** The same with messages: a redelivered pair of readings for the first
    instant, after a pair for a later instant, is stored again. *)
Example write_dedup_redelivery :
  let T := 1704067200 in
  let ms := [ (DhtReading 30 40 T, true, true); (WindKmh 18 T, true, true);
              (DhtReading 30 40 (T + 60), true, true);
              (WindKmh 18 (T + 60), true, true);
              (DhtReading 30 40 T, true, true); (WindKmh 18 T, true, true) ] in
  stored_timestamps (events (run default_config iso8601.lib ms initial_state))
  = [ "2024-01-01T00:00:00Z"; "2024-01-01T00:01:00Z"; "2024-01-01T00:00:00Z" ]%string.
Proof. reflexivity. Qed.

(** ** A failed store write and the alert *)

(** C10.  When the store raises for a fusion event (slots populated and
    in window, fmi positive, timestamp not the last written one, store
    call failing), the alert evaluation is not reached: the only effect is
    the failed store call; no SMS is sent, the alert state and the dedup
    state are what they were, however large the index is. *)
Theorem store_failure_skips_alert (cfg : Config) (lib : Datetime)
    (sms_ok : bool) (st : State) (t h u : float) (ts_dht ts_wind : Z) :
  dht_t st = Some t -> dht_h st = Some h -> wind_u st = Some u ->
  dht_ts st = Some ts_dht -> wind_ts st = Some ts_wind ->
  seconds_between ts_dht ts_wind <= SYNC_WINDOW_S cfg ->
  (fmi_of t h <=? 0)%float = false ->
  let ts_iso := strftime lib (Z.max ts_dht ts_wind) in
  let f_val := f_index_of t h u in
  last_write_ts_iso st <> Some ts_iso ->
  let res := compute_and_store_if_ready cfg lib false sms_ok st in
  res = (emit (InfluxWrite f_val ts_iso false) st,
         Computed (fmi_of t h) f_val ts_iso Failed None) /\
  sms_count (fst res) = sms_count st /\
  same_alert_state st (fst res) /\
  last_write_ts_iso (fst res) = last_write_ts_iso st.
Proof.
  intros Ht Hh Hu Hd Hw Hsync Hfmi ts_iso f_val Hfresh res. subst res.
  rewrite (compute_ready cfg lib false sms_ok st t h u ts_dht ts_wind)
    by assumption.
  cbv zeta. rewrite Hfmi. fold ts_iso. fold f_val.
  rewrite write_fresh by assumption.
  repeat split.
Qed.

(** An index of 1.6, above the threshold 1.5, whose store write fails. *)
Lemma store_failure_skips_alert_witness :
  let st := set_wind 20 1704067200 (set_dht 30 40 1704067200 initial_state) in
  (F_THRESHOLD default_config <? f_index_of 30 40 20)%float = true /\
  compute_and_store_if_ready default_config iso8601.lib false true st
  = (emit (InfluxWrite 1.6 "2024-01-01T00:00:00Z" false) st,
     Computed 12.5 1.6 "2024-01-01T00:00:00Z" Failed None).
Proof.
  intros st. split; [reflexivity|].
  refine (proj1 (store_failure_skips_alert default_config iso8601.lib true st
                   30 40 20 1704067200 1704067200
                   eq_refl eq_refl eq_refl eq_refl eq_refl _ eq_refl _)).
  - unfold seconds_between. simpl. lia.
  - discriminate.
Defined.

(** Had the store answered, the same event would have raised the alert;
    after the failure, a later delivery of the same instant writes and
    alerts. *)
Example store_failure_then_retry :
  let st := set_wind 20 1704067200 (set_dht 30 40 1704067200 initial_state) in
  let st1 := fst (compute_and_store_if_ready default_config iso8601.lib false true st) in
  snd (compute_and_store_if_ready default_config iso8601.lib true true st)
  = Computed 12.5 1.6 "2024-01-01T00:00:00Z" Written (Some (Allowed true)) /\
  sms_count st1 = 0%nat /\
  snd (compute_and_store_if_ready default_config iso8601.lib true true st1)
  = Computed 12.5 1.6 "2024-01-01T00:00:00Z" Written (Some (Allowed true)).
Proof. repeat split; reflexivity. Qed.

(** ** Alert dispatch *)

Section Alerts.

Variable cfg : Config.
Variable lib : Datetime.

Lemma above_threshold_over (f : float) :
  (F_THRESHOLD cfg <? f)%float = true -> over_threshold cfg f.
Proof. apply ltb_not_leb. Qed.

Lemma alert_below (sms_ok : bool) (f : float) (ts : string) (st : State) :
  (f <=? F_THRESHOLD cfg)%float = true ->
  maybe_send_alert cfg lib sms_ok f ts st = (st, BelowThreshold).
Proof. intros H. unfold maybe_send_alert. now rewrite H. Qed.

Lemma alert_over (sms_ok : bool) (f : float) (ts : string) (st : State) (e : Z) :
  over_threshold cfg f -> parse_iso8601 lib ts = Some e ->
  maybe_send_alert cfg lib sms_ok f ts st =
  match alert_critical_section cfg ts e st with
  | (st1, Some why) => (st1, why)
  | (st1, None) => let_through lib sms_ok f ts e st1
  end.
Proof. intros Ho Hp. unfold maybe_send_alert. now rewrite Ho, Hp. Qed.

(** Formatting and sending leave the alert state and the store log as
    they are, and add at most the send to the log. *)
Lemma let_through_state (sms_ok : bool) (f : float) (ts : string) (e : Z)
    (st1 : State) :
  let r := let_through lib sms_ok f ts e st1 in
  last_alert_epoch_data (fst r) = last_alert_epoch_data st1 /\
  last_alert_ts_iso (fst r) = last_alert_ts_iso st1 /\
  last_write_ts_iso (fst r) = last_write_ts_iso st1 /\
  ~ suppressed (snd r) /\
  (events (fst r) = events st1 \/
   events (fst r) = SmsSend f ts sms_ok :: events st1).
Proof.
  unfold let_through. destruct (local_time lib e); cbn; repeat split; auto.
Qed.

Lemma critical_duplicate (ts : string) (e : Z) (st : State) :
  last_alert_ts_iso st = Some ts ->
  alert_critical_section cfg ts e st = (st, Some DuplicateTimestamp).
Proof.
  intros H. unfold alert_critical_section.
  now rewrite (proj2 (opt_str_eqb_true _ _) H).
Qed.

Lemma critical_first (ts : string) (e : Z) (st : State) :
  last_alert_ts_iso st <> Some ts -> last_alert_epoch_data st = None ->
  alert_critical_section cfg ts e st = (set_last_alert e ts st, None).
Proof.
  intros H Hn. unfold alert_critical_section.
  now rewrite (proj2 (opt_str_eqb_false _ _) H), Hn.
Qed.

Lemma critical_later (ts : string) (e l : Z) (st : State) :
  last_alert_ts_iso st <> Some ts -> last_alert_epoch_data st = Some l ->
  alert_critical_section cfg ts e st =
  if e - l <=? 0 then (st, Some NonMonotonic)
  else if e - l <? ALERT_COOLDOWN cfg then (st, Some Cooldown)
  else (set_last_alert e ts st, None).
Proof.
  intros H Hl. unfold alert_critical_section.
  rewrite (proj2 (opt_str_eqb_false _ _) H), Hl.
  destruct (e - l <=? 0); [reflexivity|].
  now destruct (e - l <? ALERT_COOLDOWN cfg).
Qed.

(** The critical section either leaves the state alone and gives a reason,
    or records the event. *)
Lemma critical_cases (ts : string) (e : Z) (st : State) :
  (exists why, alert_critical_section cfg ts e st = (st, Some why)
               /\ why <> BelowThreshold /\ suppressed why) \/
  (alert_critical_section cfg ts e st = (set_last_alert e ts st, None) /\
   epoch_lt (last_alert_epoch_data st) (Some e)).
Proof.
  destruct (opt_str_eqb (last_alert_ts_iso st) ts) eqn:E.
  - apply opt_str_eqb_true in E. left. exists DuplicateTimestamp.
    rewrite critical_duplicate by assumption. now repeat split.
  - apply opt_str_eqb_false in E.
    destruct (last_alert_epoch_data st) as [l|] eqn:El.
    + rewrite (critical_later ts e l) by assumption.
      destruct (Z.leb_spec (e - l) 0).
      * left. exists NonMonotonic. now repeat split.
      * destruct (Z.ltb_spec (e - l) (ALERT_COOLDOWN cfg)).
        -- left. exists Cooldown. now repeat split.
        -- right. split; [reflexivity|]. cbn. lia.
    + rewrite critical_first by assumption. right. now split.
Qed.

(** Every call either leaves the whole state as it was, without sending,
    or records a strictly later epoch and goes on to the send. *)
Lemma alert_cases (sms_ok : bool) (f : float) (ts : string) (st : State) :
  (fst (maybe_send_alert cfg lib sms_ok f ts st) = st /\
   suppressed (snd (maybe_send_alert cfg lib sms_ok f ts st))) \/
  (exists e, parse_iso8601 lib ts = Some e /\
     maybe_send_alert cfg lib sms_ok f ts st
     = let_through lib sms_ok f ts e (set_last_alert e ts st) /\
     epoch_lt (last_alert_epoch_data st) (Some e)).
Proof.
  destruct (PrimFloat.leb f (F_THRESHOLD cfg)) eqn:Ef.
  - left. rewrite alert_below by assumption. now split.
  - destruct (parse_iso8601 lib ts) as [e|] eqn:Ep.
    + rewrite (alert_over sms_ok f ts st e Ef Ep).
      destruct (critical_cases ts e st) as [(why & -> & _ & Hs) | [-> Hlt]].
      * left. now split.
      * right. exists e. now repeat split.
    + left. unfold maybe_send_alert. rewrite Ef, Ep. now split.
Qed.

(** The recorded timestamp and the recorded epoch always belong to the
    same event. *)
Lemma alert_consistent (sms_ok : bool) (f : float) (ts : string) (st : State) :
  alert_state_consistent lib st ->
  alert_state_consistent lib (fst (maybe_send_alert cfg lib sms_ok f ts st)).
Proof.
  intros H.
  destruct (alert_cases sms_ok f ts st) as [[-> _] | (e & Hp & -> & _)];
    [exact H|].
  unfold alert_state_consistent.
  destruct (let_through_state sms_ok f ts e (set_last_alert e ts st))
    as (-> & -> & _).
  exact Hp.
Qed.

(** An evaluation adds at most its own send to the log. *)
Lemma alert_events (sms_ok : bool) (f : float) (ts : string) (st : State) :
  events (fst (maybe_send_alert cfg lib sms_ok f ts st)) = events st \/
  events (fst (maybe_send_alert cfg lib sms_ok f ts st))
  = SmsSend f ts sms_ok :: events st.
Proof.
  destruct (alert_cases sms_ok f ts st) as [[-> _] | (e & _ & -> & _)];
    [now left|].
  destruct (let_through_state sms_ok f ts e (set_last_alert e ts st))
    as (_ & _ & _ & _ & H).
  exact H.
Qed.

Lemma epoch_le_refl (a : option Z) : epoch_le a a.
Proof. destruct a; cbn; [lia | exact I]. Qed.

Lemma epoch_le_trans (a b c : option Z) :
  epoch_le a b -> epoch_le b c -> epoch_le a c.
Proof. destruct a, b, c; cbn; try tauto; lia. Qed.

Lemma epoch_lt_le (a b : option Z) : epoch_lt a b -> epoch_le a b.
Proof. destruct a, b; cbn; try tauto; lia. Qed.

Lemma alert_monotone (sms_ok : bool) (f : float) (ts : string) (st : State) :
  epoch_le (last_alert_epoch_data st)
           (last_alert_epoch_data (fst (maybe_send_alert cfg lib sms_ok f ts st))).
Proof.
  destruct (alert_cases sms_ok f ts st) as [[-> _] | (e & _ & -> & Hlt)].
  - apply epoch_le_refl.
  - destruct (let_through_state sms_ok f ts e (set_last_alert e ts st))
      as (-> & _).
    cbn. now apply epoch_lt_le.
Qed.

Lemma compute_monotone (store_ok sms_ok : bool) (st : State) :
  epoch_le (last_alert_epoch_data st)
    (last_alert_epoch_data
       (fst (compute_and_store_if_ready cfg lib store_ok sms_ok st))).
Proof.
  unfold compute_and_store_if_ready.
  destruct (dht_t st), (dht_h st), (wind_u st), (dht_ts st), (wind_ts st);
    try apply epoch_le_refl.
  destruct (_ >? _); [apply epoch_le_refl|].
  destruct (PrimFloat.leb _ _); [apply epoch_le_refl|].
  match goal with |- context [write_f_to_influx ?ok ?f ?ts st] =>
    pose proof (write_frame ok f ts st) as Hw;
    destruct (write_f_to_influx ok f ts st) as [st1 w]
  end.
  cbv zeta in Hw. cbn [fst] in Hw. destruct Hw as (Hw & _).
  destruct w; cbn [fst];
    try (rewrite <- Hw;
         match goal with |- context [maybe_send_alert cfg lib ?ok ?f ?ts st1] =>
           pose proof (alert_monotone ok f ts st1) as Ha;
           destruct (maybe_send_alert cfg lib ok f ts st1) as [st2 a]
         end; exact Ha).
  rewrite Hw. apply epoch_le_refl.
Qed.

Lemma on_message_monotone (store_ok sms_ok : bool) (m : Message) (st : State) :
  epoch_le (last_alert_epoch_data st)
    (last_alert_epoch_data (on_message cfg lib store_ok sms_ok m st)).
Proof.
  destruct m as [t h ts | u ts | u unit ts]; cbn [on_message].
  - apply (compute_monotone store_ok sms_ok (set_dht t h ts st)).
  - apply (compute_monotone store_ok sms_ok (set_wind u ts st)).
  - destruct (to_kmh cfg u unit) as [u_kmh|]; [|apply epoch_le_refl].
    apply (compute_monotone store_ok sms_ok (set_wind u_kmh ts st)).
Qed.

Lemma run_monotone (ms : list (Message * bool * bool)) : forall st,
  epoch_le (last_alert_epoch_data st)
           (last_alert_epoch_data (run cfg lib ms st)).
Proof.
  induction ms as [|[[m ok1] ok2] ms IH]; intros st; [apply epoch_le_refl|].
  cbn [run]. eapply epoch_le_trans; [apply on_message_monotone | apply IH].
Qed.

End Alerts.

(** C3.  With both sensor slots populated and their timestamps within the
    synchronisation window, the fusion step computes
    [fmi = 10 - 0.25 * (t - h)].  If [fmi <= 0] it stops there: the state
    is returned as it was, so nothing is written to the store and the
    dedup and alert state are unchanged.  Otherwise the index is
    [u_eff / fmi] with [u_eff] the wind floored at 1.0, and it is this
    value, under the later of the two timestamps, that goes out: the one
    store call made (none when the timestamp is the one last written)
    carries it, the alert evaluation, reached unless that store call
    failed, is made on it, and an SMS added to the log carries it.
    [u_eff] is [u] when [1.0 <= u] and exactly 1.0 when [u < 1.0]; it
    never lies below 1.0 nor, for a wind that is a number, below [u].
    Temperature 30.0 and humidity 40.0 give fmi 12.5, and wind 18.0 then
    gives index 1.44. *)
Theorem fusion_index (cfg : Config) (lib : Datetime) (store_ok sms_ok : bool)
    (st : State) (t h u : float) (ts_dht ts_wind : Z) :
  dht_t st = Some t -> dht_h st = Some h -> wind_u st = Some u ->
  dht_ts st = Some ts_dht -> wind_ts st = Some ts_wind ->
  seconds_between ts_dht ts_wind <= SYNC_WINDOW_S cfg ->
  let res := compute_and_store_if_ready cfg lib store_ok sms_ok st in
  let fmi := (10 - 0.25 * (t - h))%float in
  let u_eff := if (1 <=? u)%float then u else 1%float in
  let f := (u_eff / fmi)%float in
  let ts := strftime lib (Z.max ts_dht ts_wind) in
  ((fmi <=? 0)%float = true -> res = (st, FmiNonPositive fmi)) /\
  ((fmi <=? 0)%float = false ->
     (exists w a, snd res = Computed fmi f ts w a) /\
     (last_write_ts_iso st = Some ts ->
        filter is_store_call (events (fst res))
        = filter is_store_call (events st)) /\
     (last_write_ts_iso st <> Some ts ->
        filter is_store_call (events (fst res))
        = InfluxWrite f ts store_ok :: filter is_store_call (events st)) /\
     (last_write_ts_iso st <> Some ts -> store_ok = false ->
        res = (emit (InfluxWrite f ts false) st,
               Computed fmi f ts Failed None)) /\
     (last_write_ts_iso st = Some ts \/ store_ok = true ->
        let st1 := fst (write_f_to_influx store_ok f ts st) in
        fst res = fst (maybe_send_alert cfg lib sms_ok f ts st1) /\
        exists w,
          snd res = Computed fmi f ts w
                      (Some (snd (maybe_send_alert cfg lib sms_ok f ts st1)))) /\
     (forall f' ts' ok,
        In (SmsSend f' ts' ok) (events (fst res)) ->
        In (SmsSend f' ts' ok) (events st) \/
        (f' = f /\ ts' = ts /\ ok = sms_ok))) /\
  ((u <? 1)%float = true -> u_eff = 1%float) /\
  ((1 <=? u)%float = true -> u_eff = u) /\
  (1 <=? u_eff)%float = true /\
  (is_nan u = false -> (u <=? u_eff)%float = true) /\
  fmi_of 30 40 = 12.5%float /\
  f_index_of 30 40 18 = 1.44%float.
Proof.
  intros Ht Hh Hu Hd Hw Hsync res fmi u_eff f ts. subst res.
  rewrite (compute_ready cfg lib store_ok sms_ok st t h u ts_dht ts_wind)
    by assumption.
  cbv zeta. change (fmi_of t h) with fmi. change (f_index_of t h u) with f.
  fold ts.
  split; [intros E; now rewrite E|].
  split.
  { intros E. rewrite E.
    destruct (opt_str_eqb (last_write_ts_iso st) ts) eqn:Edup.
    - apply opt_str_eqb_true in Edup. rewrite write_duplicate by exact Edup.
      cbn [fst].
      destruct (alert_keeps_write_log cfg lib sms_ok f ts st) as (_ & _ & Hk).
      destruct (alert_events cfg lib sms_ok f ts st) as [Hev | Hev].
      all: cbv zeta in Hk;
        destruct (maybe_send_alert cfg lib sms_ok f ts st) as [st2 a];
        cbn [fst snd] in *.
      all: split; [now exists SkippedDuplicate, (Some a)|].
      all: split; [intros _; exact Hk|].
      all: split; [intros Hn; contradiction|].
      all: split; [intros Hn; contradiction|].
      all: split; [intros _; split;
                   [reflexivity | now exists SkippedDuplicate]|].
      all: intros f' ts' ok Hin; rewrite Hev in Hin.
      + now left.
      + destruct Hin as [Heq | Hin]; [|now left].
        injection Heq as <- <- <-. now right.
    - apply opt_str_eqb_false in Edup. rewrite write_fresh by exact Edup.
      destruct store_ok.
      + cbn [fst].
        set (st1 := set_last_write ts (emit (InfluxWrite f ts true) st)).
        destruct (alert_keeps_write_log cfg lib sms_ok f ts st1) as (_ & _ & Hk).
        destruct (alert_events cfg lib sms_ok f ts st1) as [Hev | Hev].
        all: cbv zeta in Hk;
          destruct (maybe_send_alert cfg lib sms_ok f ts st1) as [st2 a];
          cbn [fst snd] in *.
        all: split; [now exists Written, (Some a)|].
        all: split; [intros Hn; contradiction|].
        all: split; [intros _; exact Hk|].
        all: split; [intros _ Hn; discriminate|].
        all: split; [intros _; split; [reflexivity | now exists Written]|].
        all: intros f' ts' ok Hin; rewrite Hev in Hin; subst st1;
          cbn [events set_last_write emit In] in Hin.
        * destruct Hin as [Heq | Hin]; [discriminate | now left].
        * destruct Hin as [Heq | [Heq | Hin]];
            [injection Heq as <- <- <-; now right | discriminate | now left].
      + cbn [fst snd].
        split; [now exists Failed, None|].
        split; [intros Hn; contradiction|].
        split; [intros _; reflexivity|].
        split; [intros _ _; reflexivity|].
        split; [intros [Hn | Hn]; [contradiction | discriminate]|].
        intros f' ts' ok Hin. cbn [events emit In] in Hin.
        destruct Hin as [Heq | Hin]; [discriminate | now left]. }
  split; [apply u_eff_of_below|].
  split; [apply u_eff_of_above|].
  split; [apply u_eff_of_floor|].
  split; [apply u_eff_of_upper|].
  split; reflexivity.
Qed.

(** The synchronised pair 30.0 / 40.0 with wind 18.0 km/h: the index 1.44
    is what the store receives. *)
Lemma fusion_index_witness :
  let st := set_wind 18 1704067200 (set_dht 30 40 1704067200 initial_state) in
  let res := compute_and_store_if_ready default_config iso8601.lib true true st in
  (exists w a, snd res = Computed 12.5 1.44 "2024-01-01T00:00:00Z" w a) /\
  filter is_store_call (events (fst res))
  = [InfluxWrite 1.44 "2024-01-01T00:00:00Z" true].
Proof.
  intros st res.
  destruct (fusion_index default_config iso8601.lib true true st
              30 40 18 1704067200 1704067200)
    as (_ & H & _); try reflexivity.
  destruct H as (Hres & _ & Hstore & _); [reflexivity|].
  split; [exact Hres|].
  apply Hstore. discriminate.
Defined.

(** C1.  For a call of [maybe_send_alert] whose timestamp parses (to the
    epoch [e]): a value at most the threshold is suppressed, the state
    unchanged; otherwise a timestamp equal to the last alerted one is
    suppressed; otherwise, with a previous alert at epoch [l], the event is
    suppressed as non-monotonic when [e - l <= 0] and by cooldown when
    [0 < e - l < ALERT_COOLDOWN]; otherwise it is admitted: this event's
    timestamp and epoch are recorded, and only then is the local time
    formatted and the send made, from a state that already holds them,
    whatever the modem answers; when formatting the local time raises,
    the state stays recorded and nothing is sent.  Consequently, in any
    state whose last alert is an event admitted at epoch [e], an
    over-threshold evaluation at an epoch in the open interval
    [(e, e + ALERT_COOLDOWN)] is suppressed by cooldown (and whatever its
    value, it changes nothing and sends nothing), and one at an epoch at
    least [e + ALERT_COOLDOWN] and strictly greater than [e], with a
    value above the threshold, is admitted in its turn. *)
Theorem maybe_send_alert_decision (cfg : Config) (lib : Datetime)
    (sms_ok : bool) (f : float) (ts : string) (st : State) (e : Z) :
  parse_iso8601 lib ts = Some e ->
  let r := maybe_send_alert cfg lib sms_ok f ts st in
  let recorded := set_last_alert e ts st in
  ((f <=? F_THRESHOLD cfg)%float = true -> r = (st, BelowThreshold)) /\
  (over_threshold cfg f -> last_alert_ts_iso st = Some ts ->
     r = (st, DuplicateTimestamp)) /\
  (over_threshold cfg f -> last_alert_ts_iso st <> Some ts ->
     forall l, last_alert_epoch_data st = Some l -> e - l <= 0 ->
     r = (st, NonMonotonic)) /\
  (over_threshold cfg f -> last_alert_ts_iso st <> Some ts ->
     forall l, last_alert_epoch_data st = Some l ->
     0 < e - l < ALERT_COOLDOWN cfg ->
     r = (st, Cooldown)) /\
  (over_threshold cfg f -> last_alert_ts_iso st <> Some ts ->
     (last_alert_epoch_data st = None \/
      exists l, last_alert_epoch_data st = Some l /\
                0 < e - l /\ ALERT_COOLDOWN cfg <= e - l) ->
     (forall ts_local, local_time lib e = Some ts_local ->
        r = (emit (SmsSend f ts sms_ok) recorded, Allowed sms_ok)) /\
     (local_time lib e = None -> r = (recorded, LocalTimeRaised)) /\
     last_alert_ts_iso recorded = Some ts /\
     last_alert_epoch_data recorded = Some e /\
     last_alert_ts_iso (fst r) = Some ts /\
     last_alert_epoch_data (fst r) = Some e /\
     ~ suppressed (snd r)) /\
  (forall st2 sms_ok' f' ts' e',
     last_alert_ts_iso st2 = Some ts -> last_alert_epoch_data st2 = Some e ->
     parse_iso8601 lib ts' = Some e' ->
     let r' := maybe_send_alert cfg lib sms_ok' f' ts' st2 in
     let recorded' := set_last_alert e' ts' st2 in
     (e < e' < e + ALERT_COOLDOWN cfg ->
        (over_threshold cfg f' -> r' = (st2, Cooldown)) /\
        fst r' = st2 /\ suppressed (snd r')) /\
     (e + ALERT_COOLDOWN cfg <= e' -> e < e' ->
        (F_THRESHOLD cfg <? f')%float = true ->
        (forall ts_local, local_time lib e' = Some ts_local ->
           r' = (emit (SmsSend f' ts' sms_ok') recorded', Allowed sms_ok')) /\
        (local_time lib e' = None -> r' = (recorded', LocalTimeRaised)))).
Proof.
  intros Hp r recorded. subst r.
  split; [apply alert_below|].
  split.
  { intros Ho Hd. rewrite (alert_over cfg lib sms_ok f ts st e Ho Hp).
    now rewrite critical_duplicate. }
  split.
  { intros Ho Hd l Hl Hle. rewrite (alert_over cfg lib sms_ok f ts st e Ho Hp).
    rewrite (critical_later cfg ts e l) by assumption.
    destruct (Z.leb_spec (e - l) 0); [reflexivity | lia]. }
  split.
  { intros Ho Hd l Hl Hcd. rewrite (alert_over cfg lib sms_ok f ts st e Ho Hp).
    rewrite (critical_later cfg ts e l) by assumption.
    destruct (Z.leb_spec (e - l) 0); [lia|].
    destruct (Z.ltb_spec (e - l) (ALERT_COOLDOWN cfg)); [reflexivity | lia]. }
  split.
  { intros Ho Hd Hadm. rewrite (alert_over cfg lib sms_ok f ts st e Ho Hp).
    assert (Hc : alert_critical_section cfg ts e st = (recorded, None)).
    { destruct Hadm as [Hn | (l & Hl & Hpos & Hcd)].
      - now rewrite critical_first.
      - rewrite (critical_later cfg ts e l) by assumption.
        destruct (Z.leb_spec (e - l) 0); [lia|].
        destruct (Z.ltb_spec (e - l) (ALERT_COOLDOWN cfg)); [lia | reflexivity]. }
    rewrite Hc.
    destruct (let_through_state lib sms_ok f ts e recorded)
      as (H1 & H2 & _ & H4 & _).
    cbv zeta in H1, H2, H4. rewrite H1, H2.
    split; [intros ts_local Hl; unfold let_through; now rewrite Hl|].
    split; [intros Hl; unfold let_through; now rewrite Hl|].
    now repeat split. }
  intros st2 sms_ok' f' ts' e' Hts Hl Hp' r' recorded'. subst r'.
  assert (Hne : e' <> e -> last_alert_ts_iso st2 <> Some ts').
  { intros Hne Heq. rewrite Hts in Heq. injection Heq as ->.
    unfold parse_iso8601 in *. congruence. }
  split.
  - intros Hin.
    assert (Hcool : over_threshold cfg f' ->
              maybe_send_alert cfg lib sms_ok' f' ts' st2 = (st2, Cooldown)).
    { intros Ho'.
      rewrite (alert_over cfg lib sms_ok' f' ts' st2 e' Ho' Hp').
      rewrite (critical_later cfg ts' e' e) by (try apply Hne; trivial; lia).
      destruct (Z.leb_spec (e' - e) 0); [lia|].
      destruct (Z.ltb_spec (e' - e) (ALERT_COOLDOWN cfg)); [reflexivity | lia]. }
    split; [exact Hcool|].
    destruct (PrimFloat.leb f' (F_THRESHOLD cfg)) eqn:Ef.
    + rewrite alert_below by assumption. now split.
    + rewrite (Hcool Ef). now split.
  - intros Hcd Hgt Hab.
    rewrite (alert_over cfg lib sms_ok' f' ts' st2 e'
               (above_threshold_over cfg f' Hab) Hp').
    rewrite (critical_later cfg ts' e' e) by (try apply Hne; trivial; lia).
    destruct (Z.leb_spec (e' - e) 0); [lia|].
    destruct (Z.ltb_spec (e' - e) (ALERT_COOLDOWN cfg)); [lia|].
    split; [intros ts_local Hlt | intros Hlt]; unfold let_through;
      now rewrite Hlt.
Qed.

(** A first alert at midnight, a second event five seconds later and a
    third one a minute later, cooldown 60 s. *)
Lemma maybe_send_alert_decision_witness :
  let st1 := emit (SmsSend 1.6 "2024-01-01T00:00:00Z" true)
               (set_last_alert 1704067200 "2024-01-01T00:00:00Z" initial_state) in
  maybe_send_alert default_config iso8601.lib true 1.6 "2024-01-01T00:00:00Z"
    initial_state = (st1, Allowed true) /\
  maybe_send_alert default_config iso8601.lib true 1.6 "2024-01-01T00:00:05Z" st1
  = (st1, Cooldown) /\
  maybe_send_alert default_config iso8601.lib true 1.6 "2024-01-01T00:01:00Z" st1
  = (emit (SmsSend 1.6 "2024-01-01T00:01:00Z" true)
       (set_last_alert 1704067260 "2024-01-01T00:01:00Z" st1), Allowed true).
Proof.
  intros st1.
  pose proof (maybe_send_alert_decision default_config iso8601.lib true 1.6
                "2024-01-01T00:00:00Z" initial_state 1704067200 eq_refl) as H.
  cbv zeta in H. destruct H as (_ & _ & _ & _ & Hadm & Hnext).
  split; [|split].
  - destruct Hadm as (Hsent & _); [reflexivity | discriminate | now left|].
    apply (Hsent "2023-12-31 19:00:00"%string). reflexivity.
  - apply (Hnext st1 true 1.6%float "2024-01-01T00:00:05Z"%string 1704067205
             eq_refl eq_refl eq_refl);
      [cbn; lia | reflexivity].
  - destruct (Hnext st1 true 1.6%float "2024-01-01T00:01:00Z"%string 1704067260
                eq_refl eq_refl eq_refl) as (_ & Hlater).
    destruct Hlater as (Hsent & _); [cbn; lia | lia | reflexivity|].
    apply (Hsent "2023-12-31 19:01:00"%string). reflexivity.
Defined.

(** The first instants of year 1 have no local time in America/Bogota:
    the event is recorded, the formatting raises, and no SMS goes out. *)
Example alert_local_time_out_of_range :
  maybe_send_alert default_config iso8601.lib true 1.6
    "0001-01-01T00:00:00Z" initial_state
  = (set_last_alert (-62135596800) "0001-01-01T00:00:00Z" initial_state,
     LocalTimeRaised) /\
  events (set_last_alert (-62135596800) "0001-01-01T00:00:00Z" initial_state)
  = [].
Proof. split; reflexivity. Qed.

(** C2.  Every alert evaluation either leaves the alert state as it was or
    records a strictly greater epoch; a call whose event epoch is at most
    the recorded one sends nothing and changes nothing, whatever the
    value; and over any sequence of delivered messages the recorded epoch
    never decreases. *)
Theorem alert_epoch_monotone (cfg : Config) (lib : Datetime) :
  (forall sms_ok f ts st,
     let st' := fst (maybe_send_alert cfg lib sms_ok f ts st) in
     (st' = st \/
      epoch_lt (last_alert_epoch_data st) (last_alert_epoch_data st'))) /\
  (forall sms_ok f ts st e l,
     parse_iso8601 lib ts = Some e ->
     last_alert_epoch_data st = Some l -> e <= l ->
     fst (maybe_send_alert cfg lib sms_ok f ts st) = st /\
     suppressed (snd (maybe_send_alert cfg lib sms_ok f ts st))) /\
  (forall ms st,
     epoch_le (last_alert_epoch_data st)
              (last_alert_epoch_data (run cfg lib ms st))).
Proof.
  split; [|split].
  - intros sms_ok f ts st st'. subst st'.
    destruct (alert_cases cfg lib sms_ok f ts st) as [[-> _] | (e & _ & -> & Hlt)].
    + now left.
    + right.
      destruct (let_through_state lib sms_ok f ts e (set_last_alert e ts st))
        as (-> & _).
      exact Hlt.
  - intros sms_ok f ts st e l Hp Hl Hle.
    destruct (alert_cases cfg lib sms_ok f ts st) as [H | (e' & Hp' & _ & Hlt)].
    + exact H.
    + rewrite Hl in Hlt. cbn in Hlt. congruence || (rewrite Hp in Hp'; injection Hp' as <-; lia).
  - intros ms st. apply run_monotone.
Qed.

Example alert_out_of_order :
  let st1 := fst (maybe_send_alert default_config iso8601.lib true 1.6
                    "2024-01-01T00:01:00Z" initial_state) in
  maybe_send_alert default_config iso8601.lib true 99 "2024-01-01T00:00:00Z" st1
  = (st1, NonMonotonic) /\
  maybe_send_alert default_config iso8601.lib true 99 "2024-01-01T00:01:00Z" st1
  = (st1, DuplicateTimestamp).
Proof. split; reflexivity. Qed.

(** ** Concurrent callers: the lock makes the decision and the recording
       one operation *)

Import concurrent.

Section Concurrency.

Variable cfg : Config.
Variable lib : Datetime.

Ltac world_simpl :=
  cbn [threads with_pc with_shared acquire release shared lock snapshot
       th_pc th_ts_iso th_f_value] in *.

Ltac thread_cases j i :=
  cbn [threads with_pc with_shared acquire release];
  destruct (Nat.eqb_spec j i) as [->|?]; world_simpl.

Lemma same_alert_state_refl (st : State) : same_alert_state st st.
Proof. now split. Qed.

Lemma critical_same_alert (ts : string) (e : Z) (a b : State) :
  same_alert_state a b ->
  snd (alert_critical_section cfg ts e a) = snd (alert_critical_section cfg ts e b) /\
  same_alert_state (fst (alert_critical_section cfg ts e a))
                   (fst (alert_critical_section cfg ts e b)).
Proof.
  intros [He Ht]. unfold alert_critical_section, same_alert_state.
  rewrite He, Ht.
  destruct (opt_str_eqb (last_alert_ts_iso b) ts);
    [cbn; repeat split; congruence|].
  destruct (last_alert_epoch_data b) as [l|] eqn:Eb;
    [|cbn; repeat split; congruence].
  destruct (e - l <=? 0); [cbn; repeat split; congruence|].
  destruct (e - l <? ALERT_COOLDOWN cfg); cbn; repeat split; congruence.
Qed.

(** A reason the critical section gives is one for suppressing: letting
    an event through is its answer [None]. *)
Lemma critical_never_allowed (ts : string) (e : Z) (st : State)
    (a : AlertOutcome) :
  snd (alert_critical_section cfg ts e st) = Some a -> suppressed a.
Proof.
  destruct (critical_cases cfg ts e st) as [(why & -> & _ & Hs) | [-> _]];
    cbn [snd]; [|discriminate].
  intros H. injection H as <-. exact Hs.
Qed.

Lemma inv_spawn (st : State) (inputs : nat -> float * string) :
  inv cfg lib (spawn st inputs).
Proof.
  constructor; cbn; intros; try discriminate; try exact I;
    split; discriminate.
Qed.

(** The holder of the lock is the only thread at a program point inside
    the [with] block. *)
Lemma holder_unique (w : World) (i j : nat) :
  inv cfg lib w ->
  holds_lock (th_pc (threads w i)) = true ->
  holds_lock (th_pc (threads w j)) = true -> i = j.
Proof.
  intros Hinv Hi Hj.
  apply (inv_mutex _ _ _ Hinv) in Hi. apply (inv_mutex _ _ _ Hinv) in Hj.
  congruence.
Qed.


Ltac inv_fields i :=
  constructor;
  [ intros j; thread_cases j i
  | intros j e0; thread_cases j i
  | intros j b0; thread_cases j i
  | intros j ej; thread_cases j i
  | intros j; unfold allowed_at; thread_cases j i
  | intros j1 j2 e1 e2 Hne; thread_cases j1 i; thread_cases j2 i
  | intros j; unfold atomic_at; thread_cases j i ].

Ltac other_thread H :=
  solve [ eauto | apply (inv_mutex _ _ _ H) | eapply (inv_parse _ _ _ H); eauto
        | eapply (inv_allowed_parse _ _ _ H); eauto
        | eapply (inv_written _ _ _ H); eauto | apply (inv_allowed _ _ _ H)
        | eapply (inv_apart _ _ _ H); eauto | apply (inv_atomic _ _ _ H)
        | discriminate | congruence | exact I
        | cbn in *; intros; congruence
        | let Hq := fresh in
          intros Hq; inversion Hq; subst; cbn; intros; discriminate ].

(** A thread outside the [with] block owes nothing to the lock's
    invariants. *)
Ltac outside_thread Hout j :=
  let Hj := fresh "Hj" in
  pose proof (Hout j ltac:(assumption)) as Hj;
  match goal with
  | |- context [th_pc ?t] => destruct (th_pc t); try exact I; discriminate
  end.

Lemma step_inv_start (w : World) (i : nat) (b : bool) :
  inv cfg lib w -> th_pc (threads w i) = Start ->
  inv cfg lib (step cfg lib i b w).
Proof.
  intros Hinv Hp. unfold step. rewrite Hp.
  pose proof (inv_mutex _ _ _ Hinv i) as Hmi. rewrite Hp in Hmi. cbn in Hmi.
  destruct (PrimFloat.leb _ _); [|destruct (parse_iso8601 lib _) as [e|] eqn:Ep].
  all: inv_fields i; other_thread Hinv.
Qed.

Lemma step_inv_waiting (w : World) (i : nat) (b : bool) (e : Z) :
  inv cfg lib w -> th_pc (threads w i) = Waiting e ->
  inv cfg lib (step cfg lib i b w).
Proof.
  intros Hinv Hp. unfold step. rewrite Hp.
  pose proof (inv_parse _ _ _ Hinv i e) as Hpi. rewrite Hp in Hpi.
  specialize (Hpi eq_refl).
  destruct (lock w) as [k|] eqn:Hl; [exact Hinv|].
  assert (Hfree : forall j, holds_lock (th_pc (threads w j)) = false).
  { intros j. destruct (holds_lock (th_pc (threads w j))) eqn:E; [|reflexivity].
    apply (inv_mutex _ _ _ Hinv) in E. congruence. }
  inv_fields i; try other_thread Hinv.
  - now split.
  - rewrite Hfree. split; [discriminate|]. intros [= ->]. contradiction.
  - apply same_alert_state_refl.
  - pose proof (Hfree j) as Hj.
    destruct (th_pc (threads w j)); try exact I; discriminate.
Qed.

(** While thread [i] is inside the [with] block, no other thread is. *)
Lemma others_outside (w : World) (i j : nat) :
  inv cfg lib w -> holds_lock (th_pc (threads w i)) = true -> j <> i ->
  holds_lock (th_pc (threads w j)) = false.
Proof.
  intros Hinv Hi Hne.
  destruct (holds_lock (th_pc (threads w j))) eqn:E; [|reflexivity].
  exfalso. apply Hne. now apply (holder_unique w j i Hinv).
Qed.

Lemma step_inv_check_timestamp (w : World) (i : nat) (b : bool) (e : Z) :
  inv cfg lib w -> th_pc (threads w i) = CheckTimestamp e ->
  inv cfg lib (step cfg lib i b w).
Proof.
  intros Hinv Hp. unfold step. rewrite Hp.
  pose proof (inv_parse _ _ _ Hinv i e) as Hpi. rewrite Hp in Hpi.
  specialize (Hpi eq_refl).
  pose proof (inv_mutex _ _ _ Hinv i) as Hmi. rewrite Hp in Hmi. cbn in Hmi.
  pose proof (inv_atomic _ _ _ Hinv i) as Hai. unfold atomic_at in Hai.
  rewrite Hp in Hai.
  destruct (opt_str_eqb _ _) eqn:Edup.
  all: inv_fields i; try other_thread Hinv.
  - destruct Hai as [He Ht]. rewrite <- Ht in Edup.
    apply opt_str_eqb_true in Edup.
    rewrite critical_duplicate by assumption. cbn [fst snd].
    split; [reflexivity | now split].
  - split; [exact Hai|]. destruct Hai as [_ Ht]. now rewrite Ht.
Qed.

Lemma passed_outside_written (p : pc) :
  passed p = true -> holds_lock p = false -> written p = true.
Proof. destruct p as [| | | | | |e [a|]| |]; cbn; congruence. Qed.

Lemma step_inv_check_epoch (w : World) (i : nat) (b : bool) (e : Z) :
  inv cfg lib w -> th_pc (threads w i) = CheckEpoch e ->
  inv cfg lib (step cfg lib i b w).
Proof.
  intros Hinv Hp. unfold step. rewrite Hp.
  pose proof (inv_parse _ _ _ Hinv i e) as Hpi. rewrite Hp in Hpi.
  specialize (Hpi eq_refl).
  pose proof (inv_mutex _ _ _ Hinv i) as Hmi. rewrite Hp in Hmi. cbn in Hmi.
  pose proof (inv_atomic _ _ _ Hinv i) as Hai. unfold atomic_at in Hai.
  rewrite Hp in Hai. destruct Hai as [[He Ht] Hdup].
  assert (Hout : forall j, j <> i -> holds_lock (th_pc (threads w j)) = false).
  { intros j Hj. apply (others_outside w i j Hinv); [now rewrite Hp | exact Hj]. }
  apply opt_str_eqb_false in Hdup.
  assert (Hnew : forall j ej, j <> i ->
            passed (th_pc (threads w j)) = true ->
            parse_iso8601 lib (th_ts_iso (threads w j)) = Some ej ->
            match last_alert_epoch_data (shared w) with
            | Some l => 0 < e - l /\ ALERT_COOLDOWN cfg <= e - l
            | None => True
            end ->
            0 < e - ej /\ ALERT_COOLDOWN cfg <= e - ej).
  { intros j ej Hj Hpass Hpj Hall.
    pose proof (passed_outside_written _ Hpass (Hout j Hj)) as Hwr.
    destruct (inv_written _ _ _ Hinv j ej Hwr Hpj) as (l' & Hl' & Hle).
    rewrite Hl' in Hall. lia. }
  destruct (last_alert_epoch_data (shared w)) as [l|] eqn:El;
    [destruct (Z.leb_spec (e - l) 0) as [Hle|Hgt];
       [|destruct (Z.ltb_spec (e - l) (ALERT_COOLDOWN cfg)) as [Hlt|Hge]]|].
  all: inv_fields i; try other_thread Hinv.
  - rewrite (critical_later cfg _ e l) by congruence.
    destruct (Z.leb_spec (e - l) 0); [|lia]. cbn [fst snd].
    split; [reflexivity | split; congruence].
  - rewrite (critical_later cfg _ e l) by congruence.
    destruct (Z.leb_spec (e - l) 0); [lia|].
    destruct (Z.ltb_spec (e - l) (ALERT_COOLDOWN cfg)); [|lia].
    cbn [fst snd]. split; [reflexivity | split; congruence].
  - rewrite El. lia.
  - intros _ Hpass H1 H2. rewrite Hpi in H1. injection H1 as <-.
    destruct (Hnew j2 e2) as [? ?]; try assumption; [split; lia | lia].
  - intros Hpass _ H1 H2. rewrite Hpi in H2. injection H2 as <-.
    destruct (Hnew j1 e1) as [? ?]; try assumption; [split; lia | lia].
  - split; [split; congruence|].
    rewrite (critical_later cfg _ e l) by congruence.
    destruct (Z.leb_spec (e - l) 0); [lia|].
    destruct (Z.ltb_spec (e - l) (ALERT_COOLDOWN cfg)); [lia | reflexivity].
  - now rewrite El.
  - intros _ Hpass H1 H2. rewrite Hpi in H1. injection H1 as <-.
    destruct (Hnew j2 e2) as [? ?]; try assumption; [exact I | lia].
  - intros Hpass _ H1 H2. rewrite Hpi in H2. injection H2 as <-.
    destruct (Hnew j1 e1) as [? ?]; try assumption; [exact I | lia].
  - split; [split; congruence|]. apply critical_first; congruence.
Qed.

Lemma step_inv_record_epoch (w : World) (i : nat) (b : bool) (e : Z) :
  inv cfg lib w -> th_pc (threads w i) = RecordEpoch e ->
  inv cfg lib (step cfg lib i b w).
Proof.
  intros Hinv Hp. unfold step. rewrite Hp.
  pose proof (inv_parse _ _ _ Hinv i e) as Hpi. rewrite Hp in Hpi.
  specialize (Hpi eq_refl).
  pose proof (inv_mutex _ _ _ Hinv i) as Hmi. rewrite Hp in Hmi. cbn in Hmi.
  pose proof (inv_atomic _ _ _ Hinv i) as Hai. unfold atomic_at in Hai.
  rewrite Hp in Hai. destruct Hai as [[He Ht] Hcrit].
  pose proof (inv_allowed _ _ _ Hinv i) as Hali. unfold allowed_at in Hali.
  rewrite Hp in Hali.
  assert (Hout : forall j, j <> i -> holds_lock (th_pc (threads w j)) = false).
  { intros j Hj. apply (others_outside w i j Hinv); [now rewrite Hp | exact Hj]. }
  inv_fields i; try other_thread Hinv.
  - intros _ H1. rewrite Hpi in H1. injection H1 as <-.
    exists e. cbn. split; [reflexivity | lia].
  - intros Hwr Hpj.
    destruct (inv_written _ _ _ Hinv j ej Hwr Hpj) as (l & Hl & Hle).
    exists e. cbn. split; [reflexivity|]. rewrite Hl in Hali. lia.
  - outside_thread Hout j.
  - intros _ Hpass H1 H2.
    eapply (inv_apart _ _ _ Hinv i j2); eauto. now rewrite Hp.
  - intros Hpass _ H1 H2.
    eapply (inv_apart _ _ _ Hinv j1 i); eauto. now rewrite Hp.
  - outside_thread Hout j.
Qed.

Lemma step_inv_record_timestamp (w : World) (i : nat) (b : bool) (e : Z) :
  inv cfg lib w -> th_pc (threads w i) = RecordTimestamp e ->
  inv cfg lib (step cfg lib i b w).
Proof.
  intros Hinv Hp. unfold step. rewrite Hp.
  pose proof (inv_parse _ _ _ Hinv i e) as Hpi. rewrite Hp in Hpi.
  specialize (Hpi eq_refl).
  pose proof (inv_mutex _ _ _ Hinv i) as Hmi. rewrite Hp in Hmi. cbn in Hmi.
  pose proof (inv_atomic _ _ _ Hinv i) as Hai. unfold atomic_at in Hai.
  rewrite Hp in Hai. destruct Hai as (He & Ht & Hcrit).
  assert (Hout : forall j, j <> i -> holds_lock (th_pc (threads w j)) = false).
  { intros j Hj. apply (others_outside w i j Hinv); [now rewrite Hp | exact Hj]. }
  inv_fields i; try other_thread Hinv.
  - intros _ H1. rewrite Hpi in H1. injection H1 as <-.
    exists e. cbn. split; [exact He | lia].
  - intros _ Hpass H1 H2.
    eapply (inv_apart _ _ _ Hinv i j2); eauto. now rewrite Hp.
  - intros Hpass _ H1 H2.
    eapply (inv_apart _ _ _ Hinv j1 i); eauto. now rewrite Hp.
  - rewrite Hcrit. unfold same_alert_state. cbn.
    split; [reflexivity | split; congruence].
  - outside_thread Hout j.
Qed.

Lemma step_inv_leaving (w : World) (i : nat) (b : bool) (e : Z)
    (why : option AlertOutcome) :
  inv cfg lib w -> th_pc (threads w i) = Leaving e why ->
  inv cfg lib (step cfg lib i b w).
Proof.
  intros Hinv Hp. unfold step. rewrite Hp.
  pose proof (inv_parse _ _ _ Hinv i e) as Hpi. rewrite Hp in Hpi.
  specialize (Hpi eq_refl).
  pose proof (inv_mutex _ _ _ Hinv i) as Hmi. rewrite Hp in Hmi. cbn in Hmi.
  pose proof (inv_atomic _ _ _ Hinv i) as Hai. unfold atomic_at in Hai.
  rewrite Hp in Hai. destruct Hai as (Hsnd & Hsame).
  assert (Hout : forall j, j <> i -> holds_lock (th_pc (threads w j)) = false).
  { intros j Hj. apply (others_outside w i j Hinv); [now rewrite Hp | exact Hj]. }
  assert (Hfin : forall a, why = Some a -> passed (Finished a) = false).
  { intros a ->. apply critical_never_allowed in Hsnd.
    destruct a; try reflexivity; contradiction. }
  destruct why as [a|].
  all: inv_fields i; try other_thread Hinv.
  - cbn. split; discriminate.
  - rewrite (Hout j) by assumption. split; discriminate.
  - change (written (Finished a)) with (passed (Finished a)).
    rewrite (Hfin a eq_refl). discriminate.
  - rewrite (Hfin a eq_refl). discriminate.
  - rewrite (Hfin a eq_refl). discriminate.
  - cbn. split; discriminate.
  - rewrite (Hout j) by assumption. split; discriminate.
  - intros _ H1. eapply (inv_written _ _ _ Hinv i); [now rewrite Hp | exact H1].
  - intros _ Hpass H1 H2.
    eapply (inv_apart _ _ _ Hinv i j2); eauto. now rewrite Hp.
  - intros Hpass _ H1 H2.
    eapply (inv_apart _ _ _ Hinv j1 i); eauto. now rewrite Hp.
Qed.

Lemma step_inv_sending (w : World) (i : nat) (b : bool) (e : Z) :
  inv cfg lib w -> th_pc (threads w i) = Sending e ->
  inv cfg lib (step cfg lib i b w).
Proof.
  intros Hinv Hp. unfold step. rewrite Hp.
  pose proof (inv_parse _ _ _ Hinv i e) as Hpi. rewrite Hp in Hpi.
  specialize (Hpi eq_refl).
  pose proof (inv_mutex _ _ _ Hinv i) as Hmi. rewrite Hp in Hmi. cbn in Hmi.
  destruct (local_time lib e) as [ts_local|].
  all: inv_fields i; try other_thread Hinv.
  - intros _ H1.
    apply (inv_written _ _ _ Hinv i ej); [now rewrite Hp | exact H1].
  - intros _ Hpass H1 H2.
    eapply (inv_apart _ _ _ Hinv i j2); eauto. now rewrite Hp.
  - intros Hpass _ H1 H2.
    eapply (inv_apart _ _ _ Hinv j1 i); eauto. now rewrite Hp.
  - intros _ H1.
    apply (inv_written _ _ _ Hinv i ej); [now rewrite Hp | exact H1].
  - intros _ Hpass H1 H2.
    eapply (inv_apart _ _ _ Hinv i j2); eauto. now rewrite Hp.
  - intros Hpass _ H1 H2.
    eapply (inv_apart _ _ _ Hinv j1 i); eauto. now rewrite Hp.
Qed.

(** Every step keeps the invariant. *)
Lemma step_inv (w : World) (i : nat) (b : bool) :
  inv cfg lib w -> inv cfg lib (step cfg lib i b w).
Proof.
  intros Hinv. destruct (th_pc (threads w i)) as [|e|e|e|e|e|e why|e|a] eqn:Hp.
  - now apply step_inv_start.
  - now apply (step_inv_waiting w i b e).
  - now apply (step_inv_check_timestamp w i b e).
  - now apply (step_inv_check_epoch w i b e).
  - now apply (step_inv_record_epoch w i b e).
  - now apply (step_inv_record_timestamp w i b e).
  - now apply (step_inv_leaving w i b e why).
  - now apply (step_inv_sending w i b e).
  - unfold step. now rewrite Hp.
Qed.

Lemma exec_inv (sched : list (nat * bool)) : forall w,
  inv cfg lib w -> inv cfg lib (exec cfg lib sched w).
Proof.
  induction sched as [|[i b] sched IH]; intros w Hinv; [exact Hinv|].
  cbn [exec]. apply IH, step_inv, Hinv.
Qed.

(** Only the send, made outside the [with] block, adds to the log of
    external calls. *)
Lemma step_events (w : World) (i : nat) (b : bool) :
  events (shared (step cfg lib i b w)) <> events (shared w) ->
  exists e, th_pc (threads w i) = Sending e.
Proof.
  unfold step.
  destruct (th_pc (threads w i)) as [|e|e|e|e|e|e [a|]|e|a] eqn:Hp;
    try (intros H; now contradiction H).
  - destruct (PrimFloat.leb _ _); [intros H; now contradiction H|].
    destruct (parse_iso8601 lib _); intros H; now contradiction H.
  - destruct (lock w); intros H; now contradiction H.
  - destruct (opt_str_eqb _ _); intros H; now contradiction H.
  - destruct (last_alert_epoch_data (shared w)) as [l|];
      [|intros H; now contradiction H].
    cbv zeta. destruct (e - l <=? 0); [intros H; now contradiction H|].
    destruct (e - l <? ALERT_COOLDOWN cfg); intros H; now contradiction H.
  - intros _. now exists e.
Qed.

Lemma step_inputs (w : World) (i j : nat) (b : bool) :
  th_ts_iso (threads (step cfg lib i b w) j) = th_ts_iso (threads w j) /\
  th_f_value (threads (step cfg lib i b w) j) = th_f_value (threads w j).
Proof.
  unfold step.
  destruct (th_pc (threads w i)) as [|e|e|e|e|e|e [a|]|e|a];
    repeat match goal with
           | |- context [if ?c then _ else _] => destruct c
           | |- context [match ?c with Some _ => _ | None => _ end] => destruct c
           end;
    cbv zeta;
    repeat match goal with
           | |- context [if ?c then _ else _] => destruct c
           end;
    cbn [threads with_pc with_shared acquire release];
    try (destruct (Nat.eqb_spec j i) as [->|?]); now split.
Qed.

Lemma exec_inputs (sched : list (nat * bool)) : forall w j,
  th_ts_iso (threads (exec cfg lib sched w) j) = th_ts_iso (threads w j) /\
  th_f_value (threads (exec cfg lib sched w) j) = th_f_value (threads w j).
Proof.
  induction sched as [|[i b] sched IH]; intros w j; [now split|].
  cbn [exec]. destruct (IH (step cfg lib i b w) j) as [-> ->].
  apply step_inputs.
Qed.

End Concurrency.

(** A step of the world is, for the thread that moves, the step on its
    view. *)
Lemma step_view (cfg : Config) (lib : Datetime) (w : World) (i : nat)
    (sms_ok : bool) (p : pc) (f : float) (ts : string) (st : State)
    (lk : option nat) :
  thread_at w i p f ts st lk ->
  let '(p', st', lk') := view_step cfg lib i sms_ok f ts (p, st, lk) in
  thread_at (step cfg lib i sms_ok w) i p' f ts st' lk'.
Proof.
  intros [Hp Hf Hts Hst Hlk]. unfold step, view_step.
  rewrite Hp, Hf, Hts, Hst, Hlk.
  destruct p as [|e|e|e|e|e|e [a|]|e|a];
    repeat match goal with
           | |- context [if ?c then _ else _] => destruct c
           | |- context [match ?c with Some _ => _ | None => _ end] => destruct c
           end;
    constructor;
    cbn [threads with_pc with_shared acquire release shared lock snapshot];
    rewrite ?Nat.eqb_refl; cbn [th_pc th_f_value th_ts_iso]; congruence.
Qed.

Lemma exec_view (cfg : Config) (lib : Datetime) (i : nat) (sms_ok : bool)
    (f : float) (ts : string) (n : nat) : forall w p st lk,
  thread_at w i p f ts st lk ->
  let '(p', st', lk') := view_steps cfg lib i sms_ok f ts n (p, st, lk) in
  thread_at (exec cfg lib (repeat (i, sms_ok) n) w) i p' f ts st' lk'.
Proof.
  induction n as [|n IH]; intros w p st lk Hat; [exact Hat|].
  cbn [repeat exec view_steps].
  pose proof (step_view cfg lib w i sms_ok p f ts st lk Hat) as Hstep.
  destruct (view_step cfg lib i sms_ok f ts (p, st, lk)) as [[p1 st1] lk1].
  apply IH, Hstep.
Qed.

(** Eight steps take a thread that runs alone through the whole of
    [maybe_send_alert]. *)
Lemma view_steps_maybe_send_alert (cfg : Config) (lib : Datetime) (i : nat)
    (sms_ok : bool) (f : float) (ts : string) (st : State) :
  view_steps cfg lib i sms_ok f ts 8 (Start, st, None)
  = (Finished (snd (maybe_send_alert cfg lib sms_ok f ts st)),
     fst (maybe_send_alert cfg lib sms_ok f ts st), None).
Proof.
  unfold maybe_send_alert, alert_critical_section.
  cbn [view_steps]. unfold view_step at 8.
  destruct (PrimFloat.leb f (F_THRESHOLD cfg)); [reflexivity|].
  destruct (parse_iso8601 lib ts) as [e|]; [|reflexivity].
  unfold view_step at 7. unfold view_step at 6.
  destruct (opt_str_eqb (last_alert_ts_iso st) ts); [reflexivity|].
  unfold view_step at 5.
  destruct (last_alert_epoch_data st) as [l|];
    [|unfold view_step; destruct (local_time lib e); reflexivity].
  destruct (e - l <=? 0); [reflexivity|].
  destruct (e - l <? ALERT_COOLDOWN cfg); [reflexivity|].
  unfold view_step. destruct (local_time lib e); reflexivity.
Qed.

(** A thread that runs alone does what [maybe_send_alert] does. *)
Lemma solo_thread (cfg : Config) (lib : Datetime) (st : State)
    (sms_ok : bool) (f : float) (ts : string) :
  let w := exec cfg lib (repeat (0%nat, sms_ok) 8) (spawn st (fun _ => (f, ts))) in
  shared w = fst (maybe_send_alert cfg lib sms_ok f ts st) /\
  th_pc (threads w 0%nat) = Finished (snd (maybe_send_alert cfg lib sms_ok f ts st)) /\
  lock w = None.
Proof.
  intros w.
  assert (H0 : thread_at (spawn st (fun _ => (f, ts))) 0 Start f ts st None)
    by now constructor.
  pose proof (exec_view cfg lib 0 sms_ok f ts 8 _ _ _ _ H0) as H.
  rewrite view_steps_maybe_send_alert in H. fold w in H.
  destruct H as [Hp _ _ Hst Hlk]. now repeat split.
Qed.

(** C9.  For any number of threads calling [maybe_send_alert] in
    parallel, each with its own event, in any interleaving of their
    steps: (1) a thread is at the duplicate-timestamp, monotonicity or
    cooldown test, or at one of the two recordings, exactly when it holds
    [alert_lock], so at most one thread is there at a time; (2) when a
    thread leaves the [with] block, its decision and the recorded alert
    state are those of the critical section run in one piece on the state
    found when the lock was acquired; (3) two events that both pass the
    tests lie at least the cooldown interval apart, and not at the same
    instant: two events within the cooldown interval of each other never
    both pass; (4) a thread about to send no longer holds the lock, and
    the alert state already records its epoch or a later one; (5) no step
    other than that send calls anything external. *)
Theorem alert_lock_atomic (cfg : Config) (lib : Datetime) (st : State)
    (inputs : nat -> float * string) (sched : list (nat * bool)) :
  let w := exec cfg lib sched (spawn st inputs) in
  (forall i, holds_lock (th_pc (threads w i)) = true <-> lock w = Some i) /\
  (forall i e why,
     th_pc (threads w i) = Leaving e why ->
     snd (alert_critical_section cfg (snd (inputs i)) e (snapshot w)) = why /\
     same_alert_state
       (fst (alert_critical_section cfg (snd (inputs i)) e (snapshot w)))
       (shared w)) /\
  (forall i j ei ej,
     i <> j ->
     passed (th_pc (threads w i)) = true ->
     passed (th_pc (threads w j)) = true ->
     parse_iso8601 lib (snd (inputs i)) = Some ei ->
     parse_iso8601 lib (snd (inputs j)) = Some ej ->
     ei <> ej /\ ALERT_COOLDOWN cfg <= Z.abs (ei - ej)) /\
  (forall i e,
     th_pc (threads w i) = Sending e ->
     lock w <> Some i /\
     exists l, last_alert_epoch_data (shared w) = Some l /\ e <= l) /\
  (forall i b,
     events (shared (step cfg lib i b w)) <> events (shared w) ->
     exists e, th_pc (threads w i) = Sending e /\ lock w <> Some i).
Proof.
  intros w.
  assert (Hinv : inv cfg lib w) by apply exec_inv, inv_spawn.
  assert (Hts : forall i, th_ts_iso (threads w i) = snd (inputs i)).
  { intros i. subst w.
    destruct (exec_inputs cfg lib sched (spawn st inputs) i) as [-> _].
    reflexivity. }
  assert (Hsend : forall i e, th_pc (threads w i) = Sending e -> lock w <> Some i).
  { intros i e Hp Hl. apply (inv_mutex _ _ _ Hinv) in Hl.
    rewrite Hp in Hl. discriminate. }
  split; [apply (inv_mutex _ _ _ Hinv)|].
  split.
  { intros i e why Hp. pose proof (inv_atomic _ _ _ Hinv i) as Ha.
    unfold atomic_at in Ha. rewrite Hp, Hts in Ha. exact Ha. }
  split.
  { intros i j ei ej Hne Hi Hj Hpi Hpj.
    apply (inv_apart _ _ _ Hinv i j); try assumption; now rewrite Hts. }
  split.
  { intros i e Hp. split; [now apply (Hsend i e)|].
    apply (inv_written _ _ _ Hinv i e); [now rewrite Hp|].
    apply (inv_parse _ _ _ Hinv). now rewrite Hp. }
  intros i b Hev. destruct (step_events cfg lib w i b Hev) as [e Hp].
  exists e. split; [exact Hp | now apply (Hsend i e)].
Qed.

(** Two over-threshold events five seconds apart, evaluated by two
    threads whose steps interleave: the first is sent, the second is
    blocked by the cooldown, and one SMS leaves. *)
Example two_parallel_events :
  let inputs := fun i : nat =>
    if Nat.eqb i 0 then (1.6%float, "2024-01-01T00:00:00Z"%string)
    else (1.6%float, "2024-01-01T00:00:05Z"%string) in
  let sched := [ (0, true); (1, true); (0, true); (1, true); (0, true);
                 (1, true); (0, true); (0, true); (0, true); (0, true);
                 (1, true); (0, true); (1, true); (1, true); (1, true) ]%nat in
  let w := exec default_config iso8601.lib sched (spawn initial_state inputs) in
  th_pc (threads w 0%nat) = Finished (Allowed true) /\
  th_pc (threads w 1%nat) = Finished Cooldown /\
  sms_count (shared w) = 1%nat /\
  last_alert_epoch_data (shared w) = Some 1704067200 /\
  lock w = None.
Proof. repeat split; reflexivity. Qed.

(** The other order of arrival at the lock: the later event is sent and
    the earlier one is then refused as non-monotonic. *)
Example two_parallel_events_reversed :
  let inputs := fun i : nat =>
    if Nat.eqb i 0 then (1.6%float, "2024-01-01T00:00:00Z"%string)
    else (1.6%float, "2024-01-01T00:00:05Z"%string) in
  let sched := [ (0, true); (1, true); (1, true); (0, true); (1, true);
                 (1, true); (1, true); (1, true); (1, true); (0, true);
                 (1, true); (0, true); (0, true); (0, true) ]%nat in
  let w := exec default_config iso8601.lib sched (spawn initial_state inputs) in
  th_pc (threads w 0%nat) = Finished NonMonotonic /\
  th_pc (threads w 1%nat) = Finished (Allowed true) /\
  sms_count (shared w) = 1%nat.
Proof. repeat split; reflexivity. Qed.

(** * Further properties of the driver *)

Import frames.

(** ** Sealed frames *)

Section SealedFrames.

Lemma seal_length (p : list Z) : length (seal p) = (length p + 2)%nat.
Proof. unfold seal. cbv zeta. rewrite length_app. reflexivity. Qed.

Lemma seal_payload (p : list Z) : payload_of (seal p) = p.
Proof. unfold seal. cbv zeta. apply payload_of_app. Qed.

(** The CRC check accepts what [seal] closes. *)
Lemma seal_crc_ok (p : list Z) : crc_ok (seal p).
Proof.
  unfold crc_ok. rewrite seal_payload. unfold seal. cbv zeta.
  now rewrite crc_field_app, le16_roundtrip.
Qed.

Lemma small_is_masked (c : Z) : 0 <= c < 65536 -> Z.land c 0xFFFF = c.
Proof.
  intros H. change (Z.land c 0xFFFF) with (Z.land c (Z.ones 16)).
  rewrite Z.land_ones by lia. apply Z.mod_small. exact H.
Qed.

Lemma masked_is_small (c : Z) : 0 <= Z.land c 0xFFFF < 65536.
Proof.
  change (Z.land c 0xFFFF) with (Z.land c (Z.ones 16)).
  rewrite Z.land_ones by lia. apply (Z.mod_pos_bound c 65536). reflexivity.
Qed.

Lemma lxor_small (a b : Z) :
  0 <= a < 65536 -> 0 <= b < 65536 -> 0 <= Z.lxor a b < 65536.
Proof.
  intros Ha Hb.
  rewrite <- (small_is_masked a Ha), <- (small_is_masked b Hb).
  rewrite <- land_lxor_distr. apply masked_is_small.
Qed.

(** A turn of the CRC loop keeps a live register live: the register is a
    sixteen-bit linear feedback shift register whose feedback reaches the
    top bit, so it never falls to zero. *)
Lemma crc_shift_live (c : Z) : live c -> live (crc_shift c).
Proof.
  unfold live. intros Hc. rewrite crc_shift_eq.
  rewrite Z.shiftr_div_pow2 by lia. change (2 ^ 1) with 2.
  pose proof (Z.bit0_mod c) as Hbit.
  pose proof (Z.div_mod c 2 ltac:(lia)) as Hdiv.
  destruct (Z.testbit c 0) eqn:E; cbn [Z.b2z] in Hbit.
  - assert (Hr : 0 <= Z.lxor (c / 2) 0xA001 < 65536)
      by (apply lxor_small; lia).
    enough (Z.lxor (c / 2) 0xA001 <> 0) by lia.
    intros H0. apply Z.lxor_eq in H0. lia.
  - rewrite Z.lxor_0_r. lia.
Qed.

Lemma crc_shifts_live (n : nat) : forall c, live c -> live (crc_shifts n c).
Proof.
  induction n as [|n IH]; intros c Hc; [exact Hc|].
  cbn [crc_shifts]. apply IH, crc_shift_live, Hc.
Qed.

Lemma crc_run_zeros_live (n : nat) : forall c,
  live c -> live (crc_run c (repeat 0 n)).
Proof.
  induction n as [|n IH]; intros c Hc; [exact Hc|].
  cbn [repeat]. unfold crc_run in *. cbn [fold_left]. apply IH.
  unfold crc_update. rewrite Z.lxor_0_r. now apply crc_shifts_live.
Qed.

Lemma single_bit_live (i : nat) : (i < 8)%nat -> live (Z.shiftl 1 (Z.of_nat i)).
Proof.
  intros Hi. unfold live. rewrite Z.shiftl_1_l.
  split; [apply Z.pow_pos_nonneg; lia|].
  apply Z.lt_le_trans with (2 ^ 8); [apply Z.pow_lt_mono_r; lia | now cbn].
Qed.

(** The syndrome of a single-bit error, whatever the length of the string. *)
Lemma unit_bit_live (n : nat) : forall i,
  (i < 8 * n)%nat -> live (crc_run 0 (unit_bit i n)).
Proof.
  induction n as [|n IH]; intros i Hi; [lia|].
  cbn [unit_bit]. destruct (Nat.ltb_spec i 8) as [Hlt|Hge].
  - unfold crc_run. cbn [fold_left]. apply (crc_run_zeros_live n).
    unfold crc_update. rewrite Z.lxor_0_l.
    apply crc_shifts_live, single_bit_live, Hlt.
  - unfold crc_run in *. cbn [fold_left].
    change (crc_update 0 0) with 0. apply IH. lia.
Qed.

Lemma flipped_sealed_crc (p : list Z) (i : nat) :
  (i < 8 * (length p + 2))%nat -> ~ crc_ok (flip_bit i (seal p)).
Proof.
  intros Hi. rewrite flip_bit_xor, seal_length. unfold seal. cbv zeta.
  set (crc := modbus_crc16 p).
  destruct (Nat.lt_ge_cases i (8 * length p)) as [Hlow|Hhigh].
  - rewrite unit_bit_low by lia.
    rewrite xor_bytes_app by (now rewrite length_unit_bit).
    cbn [repeat xor_bytes]. rewrite !Z.lxor_0_r.
    unfold crc_ok. rewrite payload_of_app, crc_field_app, le16_roundtrip.
    rewrite modbus_crc16_xor by (now rewrite length_unit_bit).
    fold crc. apply lxor_neq_l.
    pose proof (unit_bit_live (length p) i Hlow) as Hl. unfold live in Hl.
    rewrite small_is_masked by lia. lia.
  - rewrite unit_bit_high by lia.
    rewrite xor_bytes_app by (now rewrite repeat_length).
    rewrite xor_bytes_zeros.
    pose proof (le16_flip_changes crc (i - 8 * length p) ltac:(lia)) as Hflip.
    destruct (xor_bytes [Z.land crc 255; Z.shiftr crc 8]
                (unit_bit (i - 8 * length p) 2))
      as [|u [|v [|w t]]]; try contradiction.
    unfold crc_ok. rewrite payload_of_app, crc_field_app. fold crc.
    intros Heq. now apply Hflip.
Qed.

End SealedFrames.

(** X1.  Whatever byte string is closed by its CRC16, and however long it
    is (a request, or an answer with any number of registers), flipping
    any single bit of the frame, in the payload or in the CRC itself,
    makes the parser raise the CRC [ValueError], for every slave address
    and register count it is asked to expect. *)
Theorem sealed_frame_bit_flip_detected (payload : list Z) (i : nat)
    (slave reg_count : Z) :
  (3 <= length payload)%nat ->
  (i < 8 * (length payload + 2))%nat ->
  exists calc recv, calc <> recv /\
    parse_read_holding_registers (flip_bit i (seal payload)) slave reg_count
    = Raise (InvalidCRC calc recv).
Proof.
  intros Hlen Hi.
  pose proof (flipped_sealed_crc payload i Hi) as Hbad.
  exists (modbus_crc16 (payload_of (flip_bit i (seal payload)))),
         (crc_field (flip_bit i (seal payload))).
  split; [exact Hbad|].
  apply parse_invalid_crc; [|exact Hbad].
  rewrite length_flip_bit, seal_length. lia.
Qed.

(** An answer carrying the register 25, with bit 3 of its fourth byte
    flipped. *)
Lemma sealed_frame_bit_flip_witness :
  exists calc recv, calc <> recv /\
    parse_read_holding_registers (flip_bit 27 (seal [2; 3; 2; 0; 25])) 2 1
    = Raise (InvalidCRC calc recv).
Proof.
  apply (sealed_frame_bit_flip_detected [2; 3; 2; 0; 25] 27 2 1); cbn; lia.
Defined.

(** ** Answers of a device *)

Section DeviceAnswers.

Lemma be16_roundtrip (v : Z) :
  Z.lor (Z.shiftl (Z.shiftr v 8) 8) (Z.land v 0xFF) = v.
Proof. rewrite Z.lor_comm. apply le16_roundtrip. Qed.

Lemma length_flat_map_be16 (regs : list Z) :
  length (flat_map be16 regs) = (2 * length regs)%nat.
Proof. induction regs as [|v regs IH]; simpl; [reflexivity | lia]. Qed.

Lemma unpack_be16 (regs : list Z) :
  unpack_H_be_many (length regs) (flat_map be16 regs) = Ok regs.
Proof.
  induction regs as [|v regs IH]; [reflexivity|].
  cbn [length flat_map be16 app unpack_H_be_many].
  rewrite IH. cbn [bind]. now rewrite be16_roundtrip.
Qed.

Lemma is_register_iff (v : Z) : is_register v = true <-> 0 <= v <= 65535.
Proof. unfold is_register. rewrite andb_true_iff, !Z.leb_le. lia. Qed.

Lemma is_bytes_app (a b : list Z) :
  is_bytes (a ++ b) = is_bytes a && is_bytes b.
Proof. apply forallb_app. Qed.

Lemma be16_bytes (regs : list Z) :
  forallb is_register regs = true -> is_bytes (flat_map be16 regs) = true.
Proof.
  induction regs as [|v regs IH]; [reflexivity|].
  cbn [forallb flat_map be16 app]. rewrite andb_true_iff. intros [Hv Hr].
  unfold is_bytes in *. cbn [forallb]. apply is_register_iff in Hv.
  now rewrite high_byte, low_byte, IH.
Qed.

Lemma seal_bytes (p : list Z) : is_bytes p = true -> is_bytes (seal p) = true.
Proof.
  intros Hp. unfold seal. cbv zeta. rewrite is_bytes_app, Hp.
  unfold is_bytes. cbn [forallb].
  now rewrite low_byte, high_byte by apply modbus_crc16_range.
Qed.

Lemma response_payload (slave : Z) (regs : list Z) :
  payload_of (response_frame slave regs)
  = [slave; 0x03; 2 * Z.of_nat (length regs)] ++ flat_map be16 regs.
Proof. apply seal_payload. Qed.

Lemma response_length (slave : Z) (regs : list Z) :
  length (response_frame slave regs) = (5 + 2 * length regs)%nat.
Proof.
  unfold response_frame. rewrite seal_length, length_app, length_flat_map_be16.
  cbn [length]. lia.
Qed.

Lemma response_parse (slave : Z) (regs : list Z) :
  parse_read_holding_registers (response_frame slave regs) slave
    (Z.of_nat (length regs)) = Ok regs.
Proof.
  rewrite parse_passed_checks.
  - rewrite response_payload. cbn [app skipn].
    rewrite firstn_all2 by (rewrite length_flat_map_be16; lia).
    rewrite Nat2Z.id. apply unpack_be16.
  - rewrite response_length. lia.
  - apply seal_crc_ok.
  - unfold slave_ok. now rewrite response_payload.
  - unfold function_ok. now rewrite response_payload.
  - unfold byte_count_ok. rewrite response_payload. cbn [app at_ nth]. lia.
Qed.

(** Past the length check every failure of the parser but the unpacking
    one is a [ValueError], and the unpacking fails only on a response
    shorter than 5 plus twice the register count. *)
Lemma parse_long_enough (resp : list Z) (slave reg_count : Z) (ex : exn) :
  (5 <= length resp)%nat ->
  5 + 2 * reg_count <= Z.of_nat (length resp) ->
  parse_read_holding_registers resp slave reg_count = Raise ex ->
  is_ValueError ex = true.
Proof.
  intros Hge Hfull H.
  destruct (Z.eq_dec (modbus_crc16 (payload_of resp)) (crc_field resp)) as [Hc|Hc];
    [|rewrite (parse_invalid_crc resp slave reg_count Hge Hc) in H;
      injection H as <-; reflexivity].
  destruct (Z.eq_dec (at_ (payload_of resp) 0) slave) as [Hs|Hs];
    [|rewrite (parse_unexpected_slave resp slave reg_count Hge Hc Hs) in H;
      injection H as <-; reflexivity].
  destruct (Z.eq_dec (at_ (payload_of resp) 1) 3) as [Hf|Hf].
  - destruct (Z.eq_dec (at_ (payload_of resp) 2) (reg_count * 2)) as [Hb|Hb];
      [|rewrite (parse_unexpected_byte_count resp slave reg_count Hge Hc Hs Hf Hb)
          in H; injection H as <-; reflexivity].
    rewrite (parse_passed_full_data resp slave reg_count Hge Hc Hs Hf Hb Hfull) in H.
    discriminate.
  - destruct (Z.eq_dec (Z.land (at_ (payload_of resp) 1) 0x80) 0) as [Hl|Hl].
    + rewrite (parse_unexpected_function resp slave reg_count Hge Hc Hs Hf Hl) in H.
      injection H as <-. reflexivity.
    + rewrite (parse_modbus_exception resp slave reg_count Hge Hc Hs Hf Hl) in H.
      injection H as <-. reflexivity.
Qed.

Lemma pack_B_cases (v : Z) :
  (0 <= v <= 255 /\ pack_B v = Ok [v]) \/
  (~ 0 <= v <= 255 /\ pack_B v = Raise StructError).
Proof.
  unfold pack_B.
  destruct (Z.leb_spec 0 v), (Z.leb_spec v 255); cbn [andb];
    ((left; split; [lia | reflexivity]) || (right; split; [lia | reflexivity])).
Qed.

Lemma pack_H_be_cases (v : Z) :
  (0 <= v <= 65535 /\ pack_H_be v = Ok [Z.shiftr v 8; Z.land v 0xFF]) \/
  (~ 0 <= v <= 65535 /\ pack_H_be v = Raise StructError).
Proof.
  unfold pack_H_be.
  destruct (Z.leb_spec 0 v), (Z.leb_spec v 65535); cbn [andb];
    ((left; split; [lia | reflexivity]) || (right; split; [lia | reflexivity])).
Qed.

Lemma build_out_of_range (slave start_addr reg_count : Z) :
  ~ (0 <= slave <= 255 /\ 0 <= start_addr <= 65535 /\ 0 <= reg_count <= 65535) ->
  build_read_holding_registers slave start_addr reg_count = Raise StructError.
Proof.
  intros Hn. unfold build_read_holding_registers.
  destruct (pack_B_cases slave) as [[Hs ->]|[_ ->]]; [|reflexivity].
  rewrite (pack_B_ok 3) by lia. cbn [bind].
  destruct (pack_H_be_cases start_addr) as [[Ha ->]|[_ ->]]; [|reflexivity].
  cbn [bind].
  destruct (pack_H_be_cases reg_count) as [[Hc ->]|[_ ->]]; [|reflexivity].
  exfalso. apply Hn. auto.
Qed.

End DeviceAnswers.

(** X2.  Round trip of an answer.  The frame a device sends back for a
    list of registers, [slave][0x03][byte count][registers, big-endian]
    closed by its CRC16, is a string of 5 plus twice as many bytes as
    registers; the parser, asked for that slave and that many registers,
    returns exactly the registers; asked for another slave or another
    number of registers it raises the matching [ValueError]. *)
Theorem response_round_trip (slave : Z) (regs : list Z) :
  is_byte slave = true -> (length regs <= 127)%nat ->
  forallb is_register regs = true ->
  let frame := response_frame slave regs in
  let n := Z.of_nat (length regs) in
  is_bytes frame = true /\
  length frame = (5 + 2 * length regs)%nat /\
  parse_read_holding_registers frame slave n = Ok regs /\
  (forall slave', slave' <> slave ->
     parse_read_holding_registers frame slave' n = Raise (UnexpectedSlave slave)) /\
  (forall n', n' <> n ->
     parse_read_holding_registers frame slave n'
     = Raise (UnexpectedByteCount (2 * n) (n' * 2))).
Proof.
  intros Hs Hn Hregs frame n. subst frame n.
  assert (Hlen : (5 <= length (response_frame slave regs))%nat)
    by (rewrite response_length; lia).
  pose proof (seal_crc_ok ([slave; 0x03; 2 * Z.of_nat (length regs)]
                             ++ flat_map be16 regs)) as Hcrc.
  fold (response_frame slave regs) in Hcrc.
  split.
  { unfold response_frame. apply seal_bytes. rewrite is_bytes_app.
    rewrite be16_bytes by assumption. unfold is_bytes. cbn [forallb].
    rewrite Hs. rewrite (proj2 (is_byte_iff 3)) by lia.
    rewrite (proj2 (is_byte_iff _)) by lia. reflexivity. }
  split; [apply response_length|].
  split; [apply response_parse|].
  split.
  - intros slave' Hne.
    rewrite parse_unexpected_slave; try assumption.
    + now rewrite response_payload.
    + unfold slave_ok. rewrite response_payload. cbn [app at_ nth]. congruence.
  - intros n' Hne.
    rewrite parse_unexpected_byte_count; try assumption.
    + now rewrite response_payload.
    + unfold slave_ok. now rewrite response_payload.
    + unfold function_ok. now rewrite response_payload.
    + unfold byte_count_ok. rewrite response_payload. cbn [app at_ nth]. lia.
Qed.

(** The anemometer at address 2 answering 2.5 m/s (register 25). *)
Lemma response_round_trip_witness :
  is_bytes [2; 3; 2; 0; 25; 61; 142] = true /\
  parse_read_holding_registers [2; 3; 2; 0; 25; 61; 142] 2 1 = Ok [25].
Proof.
  destruct (response_round_trip 2 [25]) as (Hb & _ & Hp & _);
    [reflexivity | cbn; lia | reflexivity |].
  split; [exact Hb | exact Hp].
Defined.

(** X3.  On a response of at least 5 bytes and at least 5 plus twice the
    register count, the parser never fails in the unpacking: whatever it
    raises is a [ValueError].  [read_wind_speed] reads exactly seven bytes
    for its one register and catches [ValueError], so no parsing error
    escapes it. *)
Theorem parse_raises_only_ValueError (resp : list Z) (slave reg_count : Z)
    (ex : exn) :
  (5 <= length resp)%nat ->
  5 + 2 * reg_count <= Z.of_nat (length resp) ->
  parse_read_holding_registers resp slave reg_count = Raise ex ->
  is_ValueError ex = true /\ ex <> StructError.
Proof.
  intros Hge Hfull H.
  pose proof (parse_long_enough resp slave reg_count ex Hge Hfull H) as Hv.
  split; [exact Hv|]. intros ->. discriminate.
Qed.

(** Seven bytes whose CRC does not match. *)
Lemma parse_raises_only_ValueError_witness :
  is_ValueError (InvalidCRC 36413 0) = true /\ InvalidCRC 36413 0 <> StructError.
Proof.
  apply (parse_raises_only_ValueError [2; 3; 2; 0; 25; 0; 0] 2 1);
    [cbn; lia | cbn; lia | reflexivity].
Defined.

(** X4.  The request builder fails exactly when an argument does not fit
    its field (slave address in one byte, start address and register
    count in two), and then with [struct.error]; otherwise it returns the
    eight-byte frame.  It raises nothing else. *)
Theorem build_read_holding_registers_domain (slave start_addr reg_count : Z) :
  let in_range :=
    0 <= slave <= 255 /\ 0 <= start_addr <= 65535 /\ 0 <= reg_count <= 65535 in
  (in_range ->
     build_read_holding_registers slave start_addr reg_count
     = Ok (seal (request_pdu slave start_addr reg_count))) /\
  (~ in_range ->
     build_read_holding_registers slave start_addr reg_count = Raise StructError).
Proof.
  cbv zeta. split.
  - intros (Hs & Ha & Hc). now apply build_request.
  - apply build_out_of_range.
Qed.

(** * Further properties of the fusion worker *)

Import alert_log.

Section Lifetime.

Variable cfg : Config.
Variable lib : Datetime.

Lemma write_not_failed (ok : bool) (f : float) (ts : string) (st : State) :
  snd (write_f_to_influx ok f ts st) <> Failed ->
  last_write_ts_iso (fst (write_f_to_influx ok f ts st)) = Some ts.
Proof.
  unfold write_f_to_influx.
  destruct (opt_str_eqb (last_write_ts_iso st) ts) eqn:E.
  - intros _. now apply opt_str_eqb_true in E.
  - destruct ok; cbn; [reflexivity | congruence].
Qed.

(** A property kept by the deduplicated write and by an alert evaluation
    that follows a write is kept by the fusion step. *)
Lemma compute_invariant (P : State -> Prop) (store_ok sms_ok : bool) (st : State) :
  (forall ok f ts s, P s -> P (fst (write_f_to_influx ok f ts s))) ->
  (forall ok f ts s, P s -> last_write_ts_iso s = Some ts ->
     P (fst (maybe_send_alert cfg lib ok f ts s))) ->
  P st -> P (fst (compute_and_store_if_ready cfg lib store_ok sms_ok st)).
Proof.
  intros Hw Ha H. unfold compute_and_store_if_ready.
  destruct (dht_t st), (dht_h st), (wind_u st), (dht_ts st), (wind_ts st);
    try exact H.
  destruct (_ >? _); [exact H|].
  destruct (PrimFloat.leb _ _); [exact H|].
  match goal with |- context [write_f_to_influx ?ok ?f ?ts st] =>
    pose proof (Hw ok f ts st H) as H1;
    pose proof (write_not_failed ok f ts st) as H2;
    destruct (write_f_to_influx ok f ts st) as [st1 w]
  end.
  cbn [fst snd] in H1, H2.
  destruct w; try exact H1;
    match goal with |- context [maybe_send_alert cfg lib ?ok ?f ?ts st1] =>
      pose proof (Ha ok f ts st1 H1 (H2 ltac:(discriminate))) as H3;
      destruct (maybe_send_alert cfg lib ok f ts st1) as [st2 a]
    end; exact H3.
Qed.

Lemma run_invariant (P : State -> Prop) :
  (forall t h ts s, P s -> P (set_dht t h ts s)) ->
  (forall u ts s, P s -> P (set_wind u ts s)) ->
  (forall ok f ts s, P s -> P (fst (write_f_to_influx ok f ts s))) ->
  (forall ok f ts s, P s -> last_write_ts_iso s = Some ts ->
     P (fst (maybe_send_alert cfg lib ok f ts s))) ->
  forall ms st, P st -> P (run cfg lib ms st).
Proof.
  intros Hd Hwd Hw Ha ms.
  induction ms as [|[[m ok1] ok2] ms IH]; intros st H; [exact H|].
  cbn [run]. apply IH.
  destruct m as [t h ts | u ts | u unit ts]; cbn [on_message].
  - apply compute_invariant; auto.
  - apply compute_invariant; auto.
  - destruct (to_kmh cfg u unit); [|exact H].
    apply compute_invariant; auto.
Qed.

(** An evaluation that lets the event through: what the guards have
    established. *)
Lemma alert_cases_spaced (sms_ok : bool) (f : float) (ts : string) (st : State) :
  fst (maybe_send_alert cfg lib sms_ok f ts st) = st \/
  (exists e, strptime lib ts = Some e /\
     (fst (maybe_send_alert cfg lib sms_ok f ts st)
      = emit (SmsSend f ts sms_ok) (set_last_alert e ts st) \/
      fst (maybe_send_alert cfg lib sms_ok f ts st) = set_last_alert e ts st) /\
     (f <=? F_THRESHOLD cfg)%float = false /\
     match last_alert_epoch_data st with
     | None => True
     | Some l => l < e /\ ALERT_COOLDOWN cfg <= e - l
     end).
Proof.
  unfold maybe_send_alert, parse_iso8601.
  destruct (PrimFloat.leb f (F_THRESHOLD cfg)) eqn:Ef; [now left|].
  destruct (strptime lib ts) as [e|] eqn:Ep; [|now left].
  unfold alert_critical_section.
  destruct (opt_str_eqb (last_alert_ts_iso st) ts); [now left|].
  destruct (last_alert_epoch_data st) as [l|] eqn:El.
  - destruct (Z.leb_spec (e - l) 0); [now left|].
    destruct (Z.ltb_spec (e - l) (ALERT_COOLDOWN cfg)); [now left|].
    right. exists e.
    destruct (local_time lib e); cbn [fst];
      (split; [reflexivity|]); (split; [auto|]); (split; [reflexivity | lia]).
  - right. exists e.
    destruct (local_time lib e); cbn [fst];
      (split; [reflexivity|]); (split; [auto|]); now split.
Qed.

Lemma alert_log_inv_write (ok : bool) (f : float) (ts : string) (st : State) :
  alert_log_inv cfg lib st ->
  alert_log_inv cfg lib (fst (write_f_to_influx ok f ts st)).
Proof.
  unfold write_f_to_influx.
  destruct (opt_str_eqb (last_write_ts_iso st) ts); [trivial|].
  destruct ok; trivial.
Qed.

Lemma alert_log_inv_alert (ok : bool) (f : float) (ts : string) (st : State) :
  alert_log_inv cfg lib st ->
  alert_log_inv cfg lib (fst (maybe_send_alert cfg lib ok f ts st)).
Proof.
  intros (epochs & Hmap & Hsp & Hlast).
  destruct (alert_cases_spaced ok f ts st)
    as [-> | (e & Hp & [-> | ->] & _ & Hgap)].
  - now exists epochs.
  - exists (e :: epochs). cbn. rewrite Hp, Hmap.
    split; [reflexivity|]. split; [|exists e; split; [reflexivity | lia]].
    destruct epochs as [|y rest]; [exact I|].
    destruct Hlast as (l & Hl & Hle). rewrite Hl in Hgap.
    destruct Hgap as [Hlt Hge]. repeat split; try assumption; lia.
  - exists epochs. cbn. split; [exact Hmap|]. split; [exact Hsp|].
    destruct epochs as [|y rest]; [exact I|].
    destruct Hlast as (l & Hl & Hle). rewrite Hl in Hgap.
    exists e. split; [reflexivity | lia].
Qed.

Lemma over_threshold_write (ok : bool) (f : float) (ts : string) (st : State) :
  Forall (sms_over_threshold cfg) (events st) ->
  Forall (sms_over_threshold cfg) (events (fst (write_f_to_influx ok f ts st))).
Proof.
  intros H. unfold write_f_to_influx.
  destruct (opt_str_eqb (last_write_ts_iso st) ts); [exact H|].
  destruct ok; cbn; constructor; try exact I; exact H.
Qed.

Lemma over_threshold_alert (ok : bool) (f : float) (ts : string) (st : State) :
  Forall (sms_over_threshold cfg) (events st) ->
  Forall (sms_over_threshold cfg)
         (events (fst (maybe_send_alert cfg lib ok f ts st))).
Proof.
  intros H.
  destruct (alert_cases_spaced ok f ts st)
    as [-> | (e & _ & [-> | ->] & Hover & _)]; [exact H| |exact H].
  cbn. constructor; [exact Hover | exact H].
Qed.

Lemma follow_store_write (ok : bool) (f : float) (ts : string) (st : State) :
  alerts_follow_store (events st) ->
  alerts_follow_store (events (fst (write_f_to_influx ok f ts st))).
Proof.
  intros H. unfold write_f_to_influx.
  destruct (opt_str_eqb (last_write_ts_iso st) ts); [exact H|].
  destruct ok; exact H.
Qed.

Lemma follow_store_alert (ok : bool) (f : float) (ts : string) (st : State) :
  write_log_consistent st -> last_write_ts_iso st = Some ts ->
  alerts_follow_store (events st) ->
  alerts_follow_store (events (fst (maybe_send_alert cfg lib ok f ts st))).
Proof.
  intros Hc Hlast H.
  destruct (alert_cases_spaced ok f ts st) as [-> | (e & _ & [-> | ->] & _)];
    [exact H| |exact H].
  cbn. split; [|exact H]. unfold write_log_consistent in Hc. congruence.
Qed.

(** What the fusion step adds to the log. *)
Lemma compute_effects (store_ok sms_ok : bool) (st : State) :
  exists eff,
    events (fst (compute_and_store_if_ready cfg lib store_ok sms_ok st))
    = effects_log eff ++ events st /\
    match eff with
    | NoCall | Stored _ _ => True
    | StoreFailed _ _ => store_ok = false
    | StoredAndSms f _ ok => ok = sms_ok /\ (f <=? F_THRESHOLD cfg)%float = false
    | SmsOnly f ts ok =>
        ok = sms_ok /\ (f <=? F_THRESHOLD cfg)%float = false /\
        last_write_ts_iso st = Some ts
    end.
Proof.
  unfold compute_and_store_if_ready.
  destruct (dht_t st), (dht_h st), (wind_u st), (dht_ts st), (wind_ts st);
    try (now exists NoCall).
  destruct (_ >? _); [now exists NoCall|].
  destruct (PrimFloat.leb _ _); [now exists NoCall|].
  match goal with |- context [write_f_to_influx ?ok ?f ?ts st] =>
    set (fv := f); set (tsv := ts)
  end.
  destruct (opt_str_eqb (last_write_ts_iso st) tsv) eqn:E.
  - apply opt_str_eqb_true in E. rewrite write_duplicate by assumption.
    destruct (alert_cases_spaced sms_ok fv tsv st)
      as [H | (e & _ & [H | H] & Hover & _)];
      destruct (maybe_send_alert cfg lib sms_ok fv tsv st) as [st2 a];
      cbn [fst] in *; subst st2.
    + now exists NoCall.
    + exists (SmsOnly fv tsv sms_ok). now repeat split.
    + now exists NoCall.
  - apply opt_str_eqb_false in E. rewrite write_fresh by assumption.
    destruct store_ok.
    + match goal with |- context [maybe_send_alert cfg lib sms_ok fv tsv ?s] =>
        destruct (alert_cases_spaced sms_ok fv tsv s)
          as [H | (e & _ & [H | H] & Hover & _)];
        destruct (maybe_send_alert cfg lib sms_ok fv tsv s) as [st2 a]
      end; cbn [fst] in *; subst st2.
      * now exists (Stored fv tsv).
      * exists (StoredAndSms fv tsv sms_ok). now repeat split.
      * now exists (Stored fv tsv).
    + now exists (StoreFailed fv tsv).
Qed.

(** What the fusion step leaves alone: the sensor slots. *)
Lemma alert_slots (ok : bool) (f : float) (ts : string) (st : State) :
  let st' := fst (maybe_send_alert cfg lib ok f ts st) in
  dht_t st' = dht_t st /\ dht_h st' = dht_h st /\ dht_ts st' = dht_ts st /\
  wind_u st' = wind_u st /\ wind_ts st' = wind_ts st.
Proof.
  cbv zeta.
  destruct (alert_cases_spaced ok f ts st) as [-> | (e & _ & [-> | ->] & _)];
    now repeat split.
Qed.

Lemma compute_slots (store_ok sms_ok : bool) (st : State) :
  let st' := fst (compute_and_store_if_ready cfg lib store_ok sms_ok st) in
  dht_t st' = dht_t st /\ dht_h st' = dht_h st /\ dht_ts st' = dht_ts st /\
  wind_u st' = wind_u st /\ wind_ts st' = wind_ts st.
Proof.
  cbv zeta.
  apply (compute_invariant
           (fun s => dht_t s = dht_t st /\ dht_h s = dht_h st /\
                     dht_ts s = dht_ts st /\ wind_u s = wind_u st /\
                     wind_ts s = wind_ts st)).
  - intros ok f ts s (H1 & H2 & H3 & H4 & H5).
    destruct (write_frame ok f ts s) as (_ & _ & _ & F1 & F2 & F3 & F4 & F5).
    repeat split; congruence.
  - intros ok f ts s (H1 & H2 & H3 & H4 & H5) _.
    destruct (alert_slots ok f ts s) as (F1 & F2 & F3 & F4 & F5).
    repeat split; congruence.
  - now repeat split.
Qed.

(** A second evaluation of the same event changes nothing. *)
Lemma alert_twice (a b : bool) (f : float) (ts : string) (st : State) :
  fst (maybe_send_alert cfg lib b f ts (fst (maybe_send_alert cfg lib a f ts st)))
  = fst (maybe_send_alert cfg lib a f ts st).
Proof.
  unfold maybe_send_alert.
  destruct (PrimFloat.leb f (F_THRESHOLD cfg)); [reflexivity|].
  destruct (parse_iso8601 lib ts) as [e|]; [|reflexivity].
  destruct (critical_cases cfg ts e st) as [(why & Hc & _ & _) | [Hc _]];
    rewrite Hc.
  - destruct why; cbn [fst]; rewrite ?Hc; reflexivity.
  - destruct (local_time lib e); cbn [fst];
      rewrite critical_duplicate by reflexivity; reflexivity.
Qed.

Lemma compute_redelivered (b1 b2 sms_ok : bool) (st : State) :
  fst (compute_and_store_if_ready cfg lib b1 b2
         (fst (compute_and_store_if_ready cfg lib true sms_ok st)))
  = fst (compute_and_store_if_ready cfg lib true sms_ok st).
Proof.
  destruct (compute_slots true sms_ok st) as (H1 & H2 & H3 & H4 & H5).
  cbv zeta in *.
  set (st' := fst (compute_and_store_if_ready cfg lib true sms_ok st)) in *.
  unfold compute_and_store_if_ready at 1. rewrite H1, H2, H3, H4, H5.
  subst st'. unfold compute_and_store_if_ready.
  destruct (dht_t st), (dht_h st), (wind_u st), (dht_ts st), (wind_ts st);
    try reflexivity.
  destruct (_ >? _); [reflexivity|].
  destruct (PrimFloat.leb _ _); [reflexivity|].
  match goal with |- context [write_f_to_influx true ?f ?ts st] =>
    set (fv := f); set (tsv := ts)
  end.
  assert (Hs : exists s, write_f_to_influx true fv tsv st = (s, SkippedDuplicate)
                         /\ last_write_ts_iso s = Some tsv
               \/ write_f_to_influx true fv tsv st = (s, Written)
                  /\ last_write_ts_iso s = Some tsv).
  { destruct (opt_str_eqb (last_write_ts_iso st) tsv) eqn:E.
    - apply opt_str_eqb_true in E. exists st. left.
      now rewrite write_duplicate.
    - apply opt_str_eqb_false in E. eexists. right.
      rewrite write_fresh by assumption. split; reflexivity. }
  destruct Hs as (s & [[-> Hl] | [-> Hl]]);
    pose proof (alert_twice sms_ok b2 fv tsv s) as Htw;
    destruct (alert_keeps_write_log cfg lib sms_ok fv tsv s) as (Hk & _);
    cbv zeta in Hk;
    destruct (maybe_send_alert cfg lib sms_ok fv tsv s) as [st2 a];
    cbn [fst] in *;
    rewrite write_duplicate by congruence;
    destruct (maybe_send_alert cfg lib b2 fv tsv st2) as [st3 a'];
    cbn [fst] in *; assumption.
Qed.

Lemma set_dht_same (t h : float) (ts : Z) (s : State) :
  dht_t s = Some t -> dht_h s = Some h -> dht_ts s = Some ts ->
  set_dht t h ts s = s.
Proof. destruct s; cbn; intros -> -> ->; reflexivity. Qed.

Lemma set_wind_same (u : float) (ts : Z) (s : State) :
  wind_u s = Some u -> wind_ts s = Some ts -> set_wind u ts s = s.
Proof. destruct s; cbn; intros -> ->; reflexivity. Qed.

Lemma dht_redelivered (b1 b2 sms_ok : bool) (t h : float) (ts : Z) (st : State) :
  let st' := fst (compute_and_store_if_ready cfg lib true sms_ok
                    (set_dht t h ts st)) in
  fst (compute_and_store_if_ready cfg lib b1 b2 (set_dht t h ts st')) = st'.
Proof.
  intros st'.
  destruct (compute_slots true sms_ok (set_dht t h ts st)) as (H1 & H2 & H3 & _).
  fold st' in H1, H2, H3. cbn in H1, H2, H3.
  rewrite set_dht_same by assumption. apply compute_redelivered.
Qed.

Lemma wind_redelivered (b1 b2 sms_ok : bool) (u : float) (ts : Z) (st : State) :
  let st' := fst (compute_and_store_if_ready cfg lib true sms_ok
                    (set_wind u ts st)) in
  fst (compute_and_store_if_ready cfg lib b1 b2 (set_wind u ts st')) = st'.
Proof.
  intros st'.
  destruct (compute_slots true sms_ok (set_wind u ts st)) as (_ & _ & _ & H4 & H5).
  fold st' in H4, H5. cbn in H4, H5.
  rewrite set_wind_same by assumption. apply compute_redelivered.
Qed.

End Lifetime.

(** X5.  Over a process lifetime, whatever messages are delivered and
    whatever the store and the modem answer: the timestamps of the SMS
    sends all parse, their epochs are strictly increasing and any two
    consecutive ones are at least [ALERT_COOLDOWN] seconds apart (in data
    time), and every send carries an index that is not below or equal to
    the threshold. *)
Theorem sms_sends_spaced (cfg : Config) (lib : Datetime)
    (ms : list (Message * bool * bool)) :
  let evs := events (run cfg lib ms initial_state) in
  (exists epochs,
     map (strptime lib) (sms_timestamps evs) = map Some epochs /\
     well_spaced (ALERT_COOLDOWN cfg) epochs) /\
  Forall (sms_over_threshold cfg) evs.
Proof.
  cbv zeta.
  assert (H : alert_log_inv cfg lib (run cfg lib ms initial_state) /\
              Forall (sms_over_threshold cfg)
                     (events (run cfg lib ms initial_state))).
  { apply (run_invariant cfg lib
             (fun s => alert_log_inv cfg lib s /\
                       Forall (sms_over_threshold cfg) (events s))).
    - intros t h ts s Hs. exact Hs.
    - intros u ts s Hs. exact Hs.
    - intros ok f ts s [Ha Ho].
      split; [now apply alert_log_inv_write | now apply over_threshold_write].
    - intros ok f ts s [Ha Ho] _.
      split; [now apply alert_log_inv_alert | now apply over_threshold_alert].
    - split; [|constructor]. now exists []. }
  destruct H as [(epochs & Hmap & Hsp & _) Ho].
  split; [now exists epochs | exact Ho].
Qed.

(** X6.  Over a process lifetime every SMS send carries the timestamp of
    the latest successful store write made before it: an alert is only
    ever raised for an instant that is in the database.  (The index in the
    SMS is that of the current evaluation; when the write was skipped as a
    duplicate it need not be the stored one.) *)
Theorem sms_follows_store (cfg : Config) (lib : Datetime)
    (ms : list (Message * bool * bool)) :
  alerts_follow_store (events (run cfg lib ms initial_state)).
Proof.
  enough (H : write_inv (run cfg lib ms initial_state) /\
              alerts_follow_store (events (run cfg lib ms initial_state)))
    by apply H.
  apply (run_invariant cfg lib
           (fun s => write_inv s /\ alerts_follow_store (events s))).
  - intros t h ts s Hs. exact Hs.
  - intros u ts s Hs. exact Hs.
  - intros ok f ts s [Hw Hf].
    split; [now apply write_inv_write | now apply follow_store_write].
  - intros ok f ts s [Hw Hf] Hlast.
    split; [now apply write_inv_alert|].
    apply follow_store_alert; try assumption. apply Hw.
  - split; [apply write_inv_initial | exact I].
Qed.

(** X7.  One delivered message makes at most one store call and at most
    one SMS send, the store call first: the log grows by nothing, by one
    store call, by a successful store call followed by an SMS send with
    the same index and timestamp, or, when the timestamp is the one last
    written, by an SMS send alone.  An SMS send never follows a failed
    store call, and its index is over the threshold. *)
Theorem on_message_effects (cfg : Config) (lib : Datetime)
    (store_ok sms_ok : bool) (m : Message) (st : State) :
  exists eff,
    events (on_message cfg lib store_ok sms_ok m st)
    = effects_log eff ++ events st /\
    match eff with
    | NoCall | Stored _ _ => True
    | StoreFailed _ _ => store_ok = false
    | StoredAndSms f _ ok => ok = sms_ok /\ (f <=? F_THRESHOLD cfg)%float = false
    | SmsOnly f ts ok =>
        ok = sms_ok /\ (f <=? F_THRESHOLD cfg)%float = false /\
        last_write_ts_iso st = Some ts
    end.
Proof.
  destruct m as [t h ts | u ts | u unit ts]; cbn [on_message].
  - apply (compute_effects cfg lib store_ok sms_ok (set_dht t h ts st)).
  - apply (compute_effects cfg lib store_ok sms_ok (set_wind u ts st)).
  - destruct (to_kmh cfg u unit) as [u_kmh|]; [|now exists NoCall].
    apply (compute_effects cfg lib store_ok sms_ok (set_wind u_kmh ts st)).
Qed.

(** X8.  Redelivery is harmless.  When a message has been processed with
    the store answering, processing the same message again straight away
    leaves the whole state as it is, whatever the store and the modem
    would answer this time: no second store call, no second SMS. *)
Theorem on_message_redelivery (cfg : Config) (lib : Datetime)
    (b1 b2 sms_ok : bool) (m : Message) (st : State) :
  on_message cfg lib b1 b2 m (on_message cfg lib true sms_ok m st)
  = on_message cfg lib true sms_ok m st.
Proof.
  destruct m as [t h ts | u ts | u unit ts]; cbn [on_message].
  - apply dht_redelivered.
  - apply wind_redelivered.
  - destruct (to_kmh cfg u unit) as [u_kmh|]; [|reflexivity].
    apply wind_redelivered.
Qed.

(** * Properties of the SMS sender *)

Import sms_alert.

Section SmsLoop.

Variable can_sleep : float -> bool.
Variable modem : Z -> Attempt.
Variables (dest payload : string) (retries : Z).

Lemma doubled_in_doubling (k : nat) : forall (m : nat) (d : float),
  (k < m)%nat -> In (doubled k d) (doubling m d).
Proof.
  induction k as [|k IH]; intros [|m] d Hk; try lia; cbn [doubled doubling].
  - now left.
  - right. apply IH. lia.
Qed.

(** The loop from a pass on: after [n] further attempts it ends, at the
    first attempt that succeeds, at the first failed one whose number
    exceeds [retries], or at a wait that [time.sleep] refuses. *)
Lemma send_loop_spec (fuel : nat) : forall (a : Z) (delay : float) (calls : list Call),
  0 <= a -> (Z.to_nat (retries - a) < fuel)%nat ->
  exists e n calls',
    send_loop can_sleep fuel modem dest payload retries a delay calls
    = Some (e, calls') /\
    1 <= n <= Z.max 1 (retries + 1 - a) /\
    attempts_made calls' = attempts_made calls + n /\
    (forall k, a < k < a + n -> attempt_failed (modem k) = true) /\
    match e with
    | Returns true => attempt_failed (modem (a + n)) = false
    | Returns false =>
        attempt_failed (modem (a + n)) = true /\ n = Z.max 1 (retries + 1 - a)
    | SleepRaises d =>
        attempt_failed (modem (a + n)) = true /\ a + n <= retries /\
        d = doubled (Z.to_nat (n - 1)) delay /\ can_sleep d = false
    end /\
    sleeps_rev calls' = rev (doubling (Z.to_nat (n - 1)) delay) ++ sleeps_rev calls /\
    Forall (fun d => can_sleep d = true) (doubling (Z.to_nat (n - 1)) delay) /\
    diagnoses calls'
    = (diagnoses calls
       + if (a =? 0)%Z && attempt_failed (modem 1) then 1 else 0)%nat /\
    (forall c, In c calls' -> In c calls \/
       match c with
       | SendSms k d p => d = dest /\ p = payload /\ a < k <= a + n
       | Diagnose => a = 0
       | Sleep _ => True
       end) /\
    (exists k rest, calls' = SendSms k dest payload :: rest \/
                    calls' = Diagnose :: SendSms k dest payload :: rest).
Proof.
  induction fuel as [|fuel IH]; intros a delay calls Ha Hfuel; [lia|].
  cbn [send_loop]. cbv zeta.
  assert (Hdiag1 : forall l,
            diagnoses (if a + 1 =? 1 then Diagnose :: SendSms (a + 1) dest payload :: l
                       else SendSms (a + 1) dest payload :: l)
            = (diagnoses l + if (a =? 0)%Z then 1 else 0)%nat).
  { intros l. destruct (Z.eqb_spec a 0) as [->|Hne].
    - cbn. lia.
    - destruct (Z.eqb_spec (a + 1) 1); [lia|]. cbn. lia. }
  assert (Hin1 : forall l c,
            In c (if a + 1 =? 1 then Diagnose :: SendSms (a + 1) dest payload :: l
                  else SendSms (a + 1) dest payload :: l) ->
            In c l \/ c = SendSms (a + 1) dest payload \/ (c = Diagnose /\ a = 0)).
  { intros l c Hc. destruct (Z.eqb_spec (a + 1) 1) as [E|E]; cbn [In] in Hc.
    - destruct Hc as [<- | [<- | Hc]]; [right; right; split; [reflexivity | lia]
                                       | right; now left | now left].
    - destruct Hc as [<- | Hc]; [right; now left | now left]. }
  assert (Hhd1 : forall l, exists k rest,
            (if a + 1 =? 1 then Diagnose :: SendSms (a + 1) dest payload :: l
             else SendSms (a + 1) dest payload :: l)
            = SendSms k dest payload :: rest \/
            (if a + 1 =? 1 then Diagnose :: SendSms (a + 1) dest payload :: l
             else SendSms (a + 1) dest payload :: l)
            = Diagnose :: SendSms k dest payload :: rest).
  { intros l. destruct (a + 1 =? 1); eexists _, _; [right | left]; reflexivity. }
  assert (Hcount1 : forall l,
            attempts_made (if a + 1 =? 1
                           then Diagnose :: SendSms (a + 1) dest payload :: l
                           else SendSms (a + 1) dest payload :: l)
            = attempts_made l + 1).
  { intros l. destruct (a + 1 =? 1); cbn [attempts_made]; lia. }
  assert (Hsl1 : forall l,
            sleeps_rev (if a + 1 =? 1
                        then Diagnose :: SendSms (a + 1) dest payload :: l
                        else SendSms (a + 1) dest payload :: l)
            = sleeps_rev l).
  { intros l. destruct (a + 1 =? 1); reflexivity. }
  assert (Hone : forall c, In c calls \/ c = SendSms (a + 1) dest payload
                           \/ (c = Diagnose /\ a = 0) ->
            In c calls \/
            match c with
            | SendSms k d p => d = dest /\ p = payload /\ a < k <= a + 1
            | Diagnose => a = 0
            | Sleep _ => True
            end).
  { intros c [H | [-> | [-> H]]]; [now left | right | now right].
    repeat split; lia. }
  destruct (attempt_failed (modem (a + 1))) eqn:Ef.
  - assert (Hd : (diagnoses calls + (if (a =? 0)%Z then 1 else 0))%nat
                 = (diagnoses calls
                    + (if (a =? 0)%Z && attempt_failed (modem 1%Z)
                       then 1 else 0))%nat).
    { destruct (Z.eqb_spec a 0) as [->|_]; [|reflexivity].
      change (0 + 1) with 1 in Ef. now rewrite Ef. }
    destruct (Z.gtb_spec (a + 1) retries) as [Hlast|Hmore].
    + exists (Returns false), 1. eexists. split; [reflexivity|].
      split; [lia|]. split; [apply Hcount1|].
      split; [intros k Hk; lia|].
      split; [split; [exact Ef | lia]|].
      split; [apply Hsl1|]. split; [constructor|].
      split; [now rewrite Hdiag1|].
      split; [intros c Hc; apply Hone, Hin1, Hc | apply Hhd1].
    + destruct (can_sleep delay) eqn:Es.
      * match goal with
        |- context [send_loop can_sleep fuel modem dest payload retries ?a' ?d' ?c'] =>
          destruct (IH a' d' c' ltac:(lia) ltac:(lia))
            as (e & n & calls' & Heq & Hn & Hcount & Hfail & Hend & Hsl & Hall
                & Hdiag & Hin & Hhd)
        end.
        exists e, (n + 1), calls'.
        replace (Z.to_nat (n + 1 - 1)) with (S (Z.to_nat (n - 1))) by lia.
        replace (a + (n + 1)) with (a + 1 + n) by lia.
        split; [exact Heq|]. split; [lia|].
        split; [rewrite Hcount; cbn [attempts_made]; rewrite Hcount1; lia|].
        split.
        { intros k Hk. destruct (Z.eq_dec k (a + 1)) as [->|Hne]; [exact Ef|].
          apply Hfail. lia. }
        split.
        { destruct e as [[|]|d].
          - exact Hend.
          - destruct Hend as [H1 ->]. split; [exact H1 | lia].
          - destruct Hend as (H1 & H2 & H3 & H4). cbn [doubled].
            repeat split; assumption || lia. }
        split.
        { rewrite Hsl. cbn [doubling rev sleeps_rev]. rewrite <- app_assoc.
          cbn [app]. now rewrite Hsl1. }
        split; [cbn [doubling]; constructor; assumption|].
        split.
        { rewrite Hdiag. cbn [diagnoses]. rewrite Hdiag1, <- Hd.
          destruct (Z.eqb_spec (a + 1) 0); [lia|]. cbn [andb]. lia. }
        split; [|exact Hhd].
        intros c Hc. destruct (Hin c Hc) as [Hold | Hnew].
        -- cbn [In] in Hold. destruct Hold as [<- | Hold]; [now right|].
           destruct (Hone c (Hin1 calls c Hold)) as [H | H]; [now left | right].
           destruct c as [k d p | | d]; [|exact H|exact I].
           destruct H as (-> & -> & Hk). repeat split; lia.
        -- right. destruct c as [k d p | | d]; [|lia|exact I].
           destruct Hnew as (-> & -> & Hk). repeat split; lia.
      * exists (SleepRaises delay), 1. eexists. split; [reflexivity|].
        split; [lia|]. split; [apply Hcount1|].
        split; [intros k Hk; lia|].
        split; [repeat split; [exact Ef | lia | exact Es]|].
        split; [apply Hsl1|]. split; [constructor|].
        split; [now rewrite Hdiag1|].
        split; [intros c Hc; apply Hone, Hin1, Hc | apply Hhd1].
  - exists (Returns true), 1. eexists. split; [reflexivity|].
    split; [lia|]. split; [cbn [attempts_made]; lia|].
    split; [intros k Hk; lia|].
    split; [exact Ef|].
    split; [reflexivity|]. split; [constructor|].
    split.
    { cbn [diagnoses]. destruct (Z.eqb_spec a 0) as [->|Hne]; cbn [andb].
      - change (0 + 1) with 1 in Ef. rewrite Ef. lia.
      - lia. }
    split.
    { intros c [<- | Hc]; [right | now left]. repeat split; lia. }
    eexists _, _. left. reflexivity.
Qed.

End SmsLoop.

Section PhoneNumbers.

Lemma occurs_remove_char (c : ascii) (s : string) :
  occurs c (remove_char c s) = false.
Proof.
  induction s as [|x r IH]; [reflexivity|]. cbn [remove_char].
  destruct (Ascii.eqb x c) eqn:E; [exact IH|].
  cbn [occurs]. now rewrite E, IH.
Qed.

Lemma occurs_remove_other (c d : ascii) (s : string) :
  occurs c s = false -> occurs c (remove_char d s) = false.
Proof.
  induction s as [|x r IH]; [reflexivity|]. cbn [occurs remove_char].
  intros H. apply orb_false_iff in H. destruct H as [Hx Hr].
  destruct (Ascii.eqb x d); [now apply IH|].
  cbn [occurs]. now rewrite Hx, IH.
Qed.

Lemma filter_remove_char (p : ascii -> bool) (c : ascii) (s : string) :
  p c = false ->
  filter_string p (remove_char c s) = filter_string p s.
Proof.
  intros Hc. induction s as [|x r IH]; [reflexivity|].
  cbn [remove_char filter_string].
  destruct (Ascii.eqb_spec x c) as [->|Hne].
  - now rewrite Hc.
  - cbn [filter_string]. now rewrite IH.
Qed.

Lemma kept_space (c : ascii) : is_space c = true -> kept c = false.
Proof. intros H. unfold kept. now rewrite H. Qed.

Lemma filter_lstrip (s : string) :
  filter_string kept (lstrip s) = filter_string kept s.
Proof.
  induction s as [|x r IH]; [reflexivity|]. cbn [lstrip].
  destruct (is_space x) eqn:E; [|reflexivity].
  cbn [filter_string]. now rewrite (kept_space x E).
Qed.

Lemma filter_rstrip (s : string) :
  filter_string kept (rstrip s) = filter_string kept s.
Proof.
  induction s as [|x r IH]; [reflexivity|]. cbn [rstrip].
  destruct (rstrip r) as [|y t] eqn:Er.
  - cbn [filter_string] in *. rewrite <- IH.
    destruct (is_space x) eqn:E.
    + now rewrite (kept_space x E).
    + reflexivity.
  - cbn [filter_string] in *. now rewrite IH.
Qed.

End PhoneNumbers.

Section OkResponse.

Lemma code_points_eqb_eq (a b : list N) :
  code_points_eqb a b = true <-> a = b.
Proof.
  revert b. induction a as [|x a IH]; intros [|y b]; cbn; try easy.
  rewrite andb_true_iff, N.eqb_eq, IH. split.
  - now intros [-> ->].
  - intros H. now injection H.
Qed.

(** One character uppercases to one code point, which is that of O only
    for O and o and that of K only for K and k, or to SS. *)
Lemma upper_char_shape (c : ascii) :
  (exists x, upper_char c = [x] /\
             (x = 79%N -> c = "O"%char \/ c = "o"%char) /\
             (x = 75%N -> c = "K"%char \/ c = "k"%char)) \/
  upper_char c = [83; 83]%N.
Proof.
  destruct c as [[] [] [] [] [] [] [] []];
    try (right; reflexivity);
    left; eexists; (split; [reflexivity|]);
    split; intros H; try discriminate H; auto.
Qed.

Lemma upper_nil (s : string) : upper s = [] -> s = EmptyString.
Proof.
  destruct s as [|c r]; [reflexivity|]. cbn [upper].
  destruct (upper_char_shape c) as [(x & -> & _) | ->]; discriminate.
Qed.

Lemma upper_is_OK (s : string) :
  code_points_eqb (upper s) (code_points "OK") = true <->
  s = "OK"%string \/ s = "Ok"%string \/ s = "oK"%string \/ s = "ok"%string.
Proof.
  rewrite code_points_eqb_eq. split.
  - intros H. destruct s as [|a [|b r]]; cbn [upper] in H.
    + discriminate.
    + destruct (upper_char_shape a) as [(x & Ea & _) | Ea];
        rewrite Ea in H; discriminate.
    + destruct (upper_char_shape a) as [(x & Ea & Ha & _) | Ea];
        rewrite Ea in H; [|discriminate].
      destruct (upper_char_shape b) as [(y & Eb & _ & Hb) | Eb];
        rewrite Eb in H; [|discriminate].
      cbn in H. injection H as Hx Hy Hr.
      apply upper_nil in Hr. subst r.
      destruct (Ha Hx) as [-> | ->], (Hb Hy) as [-> | ->]; auto.
  - intros [-> | [-> | [-> | ->]]]; reflexivity.
Qed.

End OkResponse.

(** X9.  [send_sms_alert] ends after at least one and at most
    [max(1, retries + 1)] attempts, every attempt before the last having
    failed.  It returns [True] at the first attempt the modem answers OK;
    it returns [False] only when all [max(1, retries + 1)] attempts have
    failed; and the one other way it ends is [time.sleep] refusing the
    delay after a failed attempt, which cannot happen when the delays
    [backoff_sec], [2 * backoff_sec], ... are ones it accepts.  Every
    attempt sends to the normalised number, with the same text. *)
Theorem send_sms_alert_attempts (can_sleep : float -> bool) (fuel : nat)
    (modem : Z -> Attempt) (phone : string) (message : option string)
    (retries : Z) (backoff : float) :
  (Z.to_nat retries < fuel)%nat ->
  exists e calls,
    send_sms_alert can_sleep fuel modem phone message retries backoff
    = Some (e, calls) /\
    let n := attempts_made calls in
    1 <= n <= Z.max 1 (retries + 1) /\
    (forall k, 1 <= k < n -> attempt_failed (modem k) = true) /\
    match e with
    | Returns true => attempt_failed (modem n) = false
    | Returns false =>
        attempt_failed (modem n) = true /\ n = Z.max 1 (retries + 1)
    | SleepRaises d =>
        attempt_failed (modem n) = true /\ n <= retries /\
        d = doubled (Z.to_nat (n - 1)) backoff /\ can_sleep d = false
    end /\
    (Forall (fun d => can_sleep d = true) (doubling (Z.to_nat retries) backoff) ->
     exists b, e = Returns b) /\
    (forall k d p, In (SendSms k d p) calls ->
       d = _normalize_phone phone /\ p = or_empty message /\ 1 <= k <= n).
Proof.
  intros Hfuel. unfold send_sms_alert. cbv zeta.
  destruct (send_loop_spec can_sleep modem (_normalize_phone phone)
              (or_empty message) retries fuel 0 backoff [])
    as (e & n & calls & Heq & Hn & Hcount & Hfail & Hend & _ & _ & _ & Hin & _);
    [lia | now rewrite Z.sub_0_r|].
  exists e, calls. split; [exact Heq|].
  cbn [attempts_made] in Hcount. rewrite Hcount.
  rewrite Z.sub_0_r in *. cbn [Z.add] in *.
  split; [lia|].
  split; [intros k Hk; apply Hfail; lia|].
  split; [exact Hend|].
  split.
  - intros Hall. destruct e as [b|d]; [now exists b|].
    destruct Hend as (_ & Hle & -> & Hno).
    rewrite Forall_forall in Hall.
    rewrite Hall in Hno; [discriminate|].
    apply doubled_in_doubling. lia.
  - intros k d p Hc. destruct (Hin _ Hc) as [[] | (-> & -> & Hk)].
    repeat split; lia.
Qed.

(** The default of two retries, with a modem that answers OK at the
    second attempt. *)
Lemma send_sms_alert_attempts_witness :
  exists e calls,
    send_sms_alert (fun d => (0 <=? d)%float) 3
      (fun k => if k =? 2 then Answered (RespStr "OK") else Raised)
      "+57 300-123-4567" (Some "ALERTA F-index"%string) 2 2 = Some (e, calls) /\
    attempts_made calls = 2 /\ e = Returns true.
Proof.
  destruct (send_sms_alert_attempts (fun d => (0 <=? d)%float) 3
              (fun k => if k =? 2 then Answered (RespStr "OK") else Raised)
              "+57 300-123-4567" (Some "ALERTA F-index"%string) 2 2)
    as (e & calls & Heq & _); [cbn; lia|].
  exists e, calls. split; [exact Heq|].
  vm_compute in Heq. injection Heq as <- <-. split; reflexivity.
Defined.

(** X10.  Between two attempts [send_sms_alert] waits, and only there:
    the waits made are [backoff_sec], then twice that, doubling each
    time, one fewer than the attempts made, and the last call before it
    ends is an attempt (or the diagnosis that follows a failed first
    attempt), never a wait.  The modem is asked for a diagnosis exactly
    once when the first attempt fails, and never otherwise. *)
Theorem send_sms_alert_backoff (can_sleep : float -> bool) (fuel : nat)
    (modem : Z -> Attempt) (phone : string) (message : option string)
    (retries : Z) (backoff : float) :
  (Z.to_nat retries < fuel)%nat ->
  exists e calls,
    send_sms_alert can_sleep fuel modem phone message retries backoff
    = Some (e, calls) /\
    sleeps calls = doubling (Z.to_nat (attempts_made calls - 1)) backoff /\
    Forall (fun d => can_sleep d = true) (sleeps calls) /\
    diagnoses calls = (if attempt_failed (modem 1%Z) then 1 else 0)%nat /\
    (forall d rest, calls <> Sleep d :: rest).
Proof.
  intros Hfuel. unfold send_sms_alert. cbv zeta.
  destruct (send_loop_spec can_sleep modem (_normalize_phone phone)
              (or_empty message) retries fuel 0 backoff [])
    as (e & n & calls & Heq & Hn & Hcount & _ & _ & Hsl & Hall & Hdiag & _ & Hhd);
    [lia | now rewrite Z.sub_0_r|].
  exists e, calls. split; [exact Heq|].
  cbn [attempts_made] in Hcount. rewrite Hcount. cbn [Z.add].
  assert (Hs : sleeps calls = doubling (Z.to_nat (n - 1)) backoff).
  { unfold sleeps. rewrite Hsl. cbn [sleeps_rev]. rewrite app_nil_r.
    apply rev_involutive. }
  split; [exact Hs|].
  split; [now rewrite Hs|].
  split; [exact Hdiag|].
  intros d rest ->. destruct Hhd as (k & t & [H | H]); discriminate.
Qed.

(** Three failed attempts: waits of 2 and 4 seconds, one diagnosis. *)
Lemma send_sms_alert_backoff_witness :
  exists e calls,
    send_sms_alert (fun d => (0 <=? d)%float) 3 (fun _ => Raised)
      "3001234567" None 2 2 = Some (e, calls) /\
    sleeps calls = [2%float; 4%float] /\ diagnoses calls = 1%nat.
Proof.
  destruct (send_sms_alert_backoff (fun d => (0 <=? d)%float) 3
              (fun _ => Raised) "3001234567" None 2 2)
    as (e & calls & Heq & Hs & Ha & Hd & _); [cbn; lia|].
  exists e, calls. split; [exact Heq|].
  vm_compute in Heq. injection Heq as <- <-. split; reflexivity.
Defined.

(** X11.  [_normalize_phone] leaves no space and no hyphen in the number,
    and keeps, in their order, all characters that are neither whitespace
    nor a hyphen (the digits and a leading [+] among them).  Whitespace is
    what [str.strip] takes for it, the no-break space included: at the
    ends it goes, inside the number only the space itself does. *)
Theorem normalize_phone_keeps_digits (num : string) :
  occurs " " (_normalize_phone num) = false /\
  occurs "-" (_normalize_phone num) = false /\
  filter_string kept (_normalize_phone num) = filter_string kept num /\
  _normalize_phone
    (String (ascii_of_nat 160) ("+57 300-123" ++
       String (ascii_of_nat 9) ("4567" ++
         String (ascii_of_nat 160) (String (ascii_of_nat 10) EmptyString))))
  = ("+57300123" ++ String (ascii_of_nat 9) "4567")%string.
Proof.
  unfold _normalize_phone. split; [|split; [|split]].
  - apply occurs_remove_other, occurs_remove_char.
  - apply occurs_remove_char.
  - rewrite !filter_remove_char by reflexivity.
    unfold strip. now rewrite filter_rstrip, filter_lstrip.
  - reflexivity.
Qed.

(** X12.  [_is_ok_response] accepts a string exactly when, stripped of
    surrounding whitespace (the no-break space included), it is OK in
    any letter case.  It accepts a dict exactly when the key [response]
    holds a non-empty string that is such an OK, or the key [response] is
    missing, [None] or empty and the key [Response] holds such an OK: a
    non-empty [response] that is not OK hides an OK under [Response].
    Anything else is refused. *)
Theorem is_ok_response_cases :
  (forall s, _is_ok_response (RespStr s) = true <->
     In (strip s) ["OK"; "Ok"; "oK"; "ok"]%string) /\
  (forall d, _is_ok_response (RespDict d) = true <->
     (exists s, dict_get d "response" = Some s /\ s <> EmptyString /\
                In (strip s) ["OK"; "Ok"; "oK"; "ok"]%string) \/
     ((dict_get d "response" = None \/
       dict_get d "response" = Some EmptyString) /\
      exists s, dict_get d "Response" = Some s /\
                In (strip s) ["OK"; "Ok"; "oK"; "ok"]%string)) /\
  _is_ok_response RespOther = false /\
  _is_ok_response
    (RespStr ("OK" ++ String (ascii_of_nat 160) EmptyString)) = true /\
  _is_ok_response
    (RespStr (" ok" ++ String (ascii_of_nat 13)
                (String (ascii_of_nat 10) EmptyString))) = true /\
  _is_ok_response (RespStr "O K") = false /\
  _is_ok_response (RespStr "OKAY") = false /\
  _is_ok_response
    (RespDict [("response", Some "ERROR"); ("Response", Some "OK")]%string)
  = false /\
  _is_ok_response
    (RespDict [("response", Some " "); ("Response", Some "OK")]%string)
  = false /\
  _is_ok_response
    (RespDict [("response", Some ""); ("Response", Some "ok")]%string)
  = true /\
  _is_ok_response (RespDict [("RESPONSE", Some "OK")]%string) = false.
Proof.
  assert (Hstr : forall s, _is_ok_response (RespStr s) = true <->
            In (strip s) ["OK"; "Ok"; "oK"; "ok"]%string).
  { intros s. cbn [_is_ok_response]. rewrite upper_is_OK. cbn [In].
    intuition congruence. }
  split; [exact Hstr|].
  split.
  { intros d. cbn [_is_ok_response]. cbv zeta.
    destruct (dict_get d "response") as [[|c r]|] eqn:E1; cbn [or_else].
    - destruct (dict_get d "Response") as [s2|] eqn:E2.
      + replace (or_empty (Some s2)) with s2 by (now destruct s2).
        rewrite (Hstr s2 : code_points_eqb _ _ = true <-> _). split.
        * intros H. right. split; [now right|]. now exists s2.
        * intros [(s & Hs & Hne & _) | (_ & s & Hs & Hin)].
          -- injection Hs as <-. congruence.
          -- now injection Hs as <-.
      + cbn. split; [discriminate|].
        intros [(s & Hs & Hne & _) | (_ & s & Hs & _)];
          [injection Hs as <-; congruence | discriminate].
    - cbn [or_empty].
      rewrite (Hstr (String c r) : code_points_eqb _ _ = true <-> _). split.
      + intros H. left. exists (String c r). now repeat split.
      + intros [(s & Hs & _ & Hin) | ([H | H] & _)];
          [now injection Hs as <- | discriminate | discriminate].
    - destruct (dict_get d "Response") as [s2|] eqn:E2.
      + replace (or_empty (Some s2)) with s2 by (now destruct s2).
        rewrite (Hstr s2 : code_points_eqb _ _ = true <-> _). split.
        * intros H. right. split; [now left|]. now exists s2.
        * intros [(s & Hs & _) | (_ & s & Hs & Hin)];
            [discriminate | now injection Hs as <-].
      + cbn. split; [discriminate|].
        intros [(s & Hs & _) | (_ & s & Hs & _)]; discriminate. }
  repeat split.
Qed.

(** * Properties of the anemometer worker *)

Import anemometer.

Section SerialPort.

Variable w : World.

Lemma repeat_snoc (d : float) (n : nat) (l : list float) :
  repeat d n ++ d :: l = d :: repeat d n ++ l.
Proof. induction n as [|n IH]; cbn; [reflexivity | now rewrite IH]. Qed.

Lemma open_attempts_open (n : nat) (a : Anemometer) :
  ser_open a = true -> open_attempts w (S n) a = (a, true).
Proof. intros H. cbn [open_attempts]. unfold open. now rewrite H. Qed.

(** The attempts on a closed port: [k] calls of [serial.Serial], all but
    the last one failing, a wait after each failure. *)
Lemma open_attempts_closed (n : nat) : forall a,
  ser_open a = false ->
  exists a' ok k,
    open_attempts w n a = (a', ok) /\
    addr a' = addr a /\ _down_until a' = _down_until a /\
    clock_reads a' = clock_reads a /\ exchanges a' = exchanges a /\
    ser_open a' = ok /\
    open_calls a' = (open_calls a + k)%nat /\ (k <= n)%nat /\
    (forall j, (open_calls a <= j < open_calls a' - (if ok then 1 else 0))%nat ->
       port_opens w j = false) /\
    slept a' = repeat 0.2%float (k - (if ok then 1 else 0)) ++ slept a /\
    (ok = true -> (1 <= k)%nat /\ port_opens w (open_calls a' - 1) = true) /\
    (ok = false -> k = n).
Proof.
  induction n as [|n IH]; intros a Hc.
  - exists a, false, 0%nat. cbn [open_attempts].
    repeat split; try reflexivity; try lia; try discriminate; assumption.
  - cbn [open_attempts]. unfold open. rewrite Hc.
    destruct (port_opens w (open_calls a)) eqn:Ep.
    + exists (set_ser true (open_called a)), true, 1%nat. cbn.
      repeat split; try reflexivity; try lia.
      now rewrite Nat.sub_0_r.
    + destruct (IH (sleep 0.2 (set_ser false (open_called a))) eq_refl)
        as (a' & ok & k & Heq & H1 & H2 & H3 & H4 & H5 & H6 & H7 & H8 & H9
            & H10 & H11).
      cbn in H1, H2, H3, H4, H6, H8, H9.
      exists a', ok, (S k). rewrite Heq.
      repeat split; try assumption; try lia.
      * intros j Hj. destruct (Nat.eq_dec j (open_calls a)) as [->|Hne];
          [exact Ep | apply H8; lia].
      * rewrite H9, repeat_snoc.
        destruct ok.
        -- destruct (H10 eq_refl) as [Hk _].
           replace (S k - 1)%nat with (S (k - 1)) by lia. reflexivity.
        -- now rewrite !Nat.sub_0_r.
      * apply H10. assumption.
      * intros Hok. now rewrite (H11 Hok).
Qed.

(** What [ensure_open] leaves alone, and what [True] means. *)
Lemma ensure_open_frame (retries : Z) (a : Anemometer) :
  let a' := fst (ensure_open w retries a) in
  let ok := snd (ensure_open w retries a) in
  addr a' = addr a /\ exchanges a' = exchanges a /\
  (ok = true -> ser_open a' = true /\ _down_until a' = _down_until a) /\
  (ser_open a = true -> ser_open a' = true /\ open_calls a' = open_calls a).
Proof.
  cbv zeta. unfold ensure_open.
  destruct (PrimFloat.ltb _ _);
    [cbn; repeat split; intros; try discriminate; assumption|].
  destruct (ser_open a) eqn:Hs.
  - destruct (Z.to_nat (retries + 1)) as [|n].
    + cbn. repeat split; intros; try discriminate; assumption.
    + rewrite open_attempts_open by exact Hs. cbn.
      repeat split; intros; assumption.
  - destruct (open_attempts_closed (Z.to_nat (retries + 1))
                (clock_read a) Hs)
      as (a' & ok & k & Heq & H1 & H2 & H3 & H4 & H5 & _).
    rewrite Heq. destruct ok; cbn; repeat split; intros;
      try assumption; try discriminate.
Qed.

End SerialPort.

(** X13.  [ensure_open].  Inside the two seconds that follow a failed
    round it returns [False] without touching the port.  Otherwise, on an
    open port (and a non-negative [retries]) it returns [True] without
    opening anything; on a closed port it calls [serial.Serial] at most
    [retries + 1] times, waiting 0.2 s after each failure, stops at the
    first call that succeeds and returns [True] with the port open; when
    all calls fail it returns [False], leaves the port closed and sets
    [_down_until] to two seconds after a new reading of the clock.  It
    never closes an open port, and never returns [True] with the port
    closed. *)
Theorem ensure_open_cases (w : World) (retries : Z) (a : Anemometer) :
  let now := monotonic w (clock_reads a) in
  let n := Z.to_nat (retries + 1) in
  let a' := fst (ensure_open w retries a) in
  let ok := snd (ensure_open w retries a) in
  ((now <? _down_until a)%float = true -> ok = false /\ a' = clock_read a) /\
  ((now <? _down_until a)%float = false -> ser_open a = true -> 0 <= retries ->
     ok = true /\ a' = clock_read a) /\
  ((now <? _down_until a)%float = false -> ser_open a = false ->
     exists k, (k <= n)%nat /\
       open_calls a' = (open_calls a + k)%nat /\
       ser_open a' = ok /\
       (ok = true ->
          (1 <= k)%nat /\ port_opens w (open_calls a + k - 1) = true /\
          (forall j, (j < k - 1)%nat -> port_opens w (open_calls a + j) = false) /\
          slept a' = repeat 0.2%float (k - 1) ++ slept a /\
          _down_until a' = _down_until a) /\
       (ok = false ->
          k = n /\
          (forall j, (j < n)%nat -> port_opens w (open_calls a + j) = false) /\
          slept a' = repeat 0.2%float n ++ slept a /\
          _down_until a' = (monotonic w (S (clock_reads a)) + 2)%float)) /\
  (ok = true -> ser_open a' = true) /\
  (ser_open a = true -> ser_open a' = true).
Proof.
  cbv zeta.
  destruct (ensure_open_frame w retries a) as (_ & _ & Hok & Hopen).
  cbv zeta in Hok, Hopen.
  split; [|split; [|split; [|split]]].
  - intros Hnow. unfold ensure_open. cbn [_down_until clock_read].
    rewrite Hnow. now split.
  - intros Hnow Hs Hr. unfold ensure_open. cbn [_down_until clock_read].
    rewrite Hnow.
    destruct (Z.to_nat (retries + 1)) as [|m] eqn:E; [lia|].
    rewrite open_attempts_open by exact Hs. now split.
  - intros Hnow Hs. unfold ensure_open. cbn [_down_until clock_read].
    rewrite Hnow.
    destruct (open_attempts_closed w (Z.to_nat (retries + 1))
                (clock_read a) Hs)
      as (a' & ok & k & Heq & H1 & H2 & H3 & H4 & H5 & H6 & H7 & H8 & H9
          & H10 & H11).
    fold (clock_read a). rewrite Heq.
    cbn in H2, H3, H6, H8, H9.
    exists k. destruct ok; cbn [fst snd].
    + split; [exact H7|]. split; [exact H6|]. split; [exact H5|].
      split; [|discriminate]. intros _.
      destruct (H10 eq_refl) as [Hk Hp].
      split; [exact Hk|].
      split; [rewrite H6 in Hp; exact Hp|].
      split; [intros j Hj; apply H8; lia|].
      split; [exact H9 | exact H2].
    + split; [exact H7|]. split; [exact H6|]. split; [exact H5|].
      split; [discriminate|]. intros _.
      pose proof (H11 eq_refl) as Hk. subst k.
      split; [reflexivity|].
      split; [intros j Hj; apply H8; lia|].
      split; [now rewrite Nat.sub_0_r in H9|].
      cbn. now rewrite H3.
  - intros H. now apply Hok.
  - intros H. now apply Hopen.
Qed.

Section Reading.

Variable w : World.

Lemma ensure_open_ready (retries : Z) (a : Anemometer) :
  (monotonic w (clock_reads a) <? _down_until a)%float = false ->
  ser_open a = true -> 0 <= retries ->
  ensure_open w retries a = (clock_read a, true).
Proof.
  intros Hnow Hs Hr. unfold ensure_open. cbn [_down_until clock_read].
  rewrite Hnow.
  destruct (Z.to_nat (retries + 1)) as [|m] eqn:E; [lia|].
  now rewrite open_attempts_open by exact Hs.
Qed.

(** A successful parse for one register yields one value. *)
Lemma parse_one_value (resp : list Z) (slave : Z) (vals : list Z) :
  parse_read_holding_registers resp slave 1 = Ok vals ->
  exists raw, vals = [raw].
Proof.
  intros H. all_checks_hold resp slave 1 H.
  rewrite (parse_passed_full_data resp slave 1) in H by assumption.
  injection H as <-. unfold registers_of. cbn. eexists. reflexivity.
Qed.

(** The reading loop returns; a value it returns comes from the last
    exchange. *)
Lemma read_attempts_spec (req : list Z) (retries : Z) (n : nat) :
  forall (attempt : Z) (a : Anemometer),
  ser_open a = true ->
  exists a' v,
    read_attempts w req retries n attempt a = (a', Returned v) /\
    addr a' = addr a /\
    (exchanges a <= exchanges a' <= exchanges a + n)%nat /\
    (forall x, v = Some x ->
       exists buf raw,
         (exchanges a < exchanges a')%nat /\
         line w (exchanges a' - 1) req = Gathered buf /\
         (7 <= length buf)%nat /\
         parse_read_holding_registers buf (addr a) 1 = Ok [raw] /\
         x = tenths raw /\ ser_open a' = true).
Proof.
  induction n as [|n IH]; intros attempt a Hs.
  - exists a, None. cbn [read_attempts].
    repeat split; try lia. discriminate.
  - cbn [read_attempts]. cbv zeta.
    assert (Hretry : exists a' v,
      (if attempt >=? retries then (exchanged a, Returned None)
       else read_attempts w req retries n (attempt + 1) (sleep 0.05 (exchanged a)))
      = (a', Returned v) /\
      addr a' = addr a /\
      (exchanges a <= exchanges a' <= exchanges a + S n)%nat /\
      (forall x, v = Some x ->
         exists buf raw,
           (exchanges a < exchanges a')%nat /\
           line w (exchanges a' - 1) req = Gathered buf /\
           (7 <= length buf)%nat /\
           parse_read_holding_registers buf (addr a) 1 = Ok [raw] /\
           x = tenths raw /\ ser_open a' = true)).
    { destruct (attempt >=? retries).
      - exists (exchanged a), None. cbn.
        repeat split; try lia. discriminate.
      - destruct (IH (attempt + 1) (sleep 0.05 (exchanged a)) Hs)
          as (a' & v & Heq & Ha & He & Hv).
        cbn in Ha, He, Hv. exists a', v.
        split; [exact Heq|]. split; [exact Ha|]. split; [lia|].
        intros x Hx. destruct (Hv x Hx) as (buf & raw & H1 & H2).
        exists buf, raw. split; [lia | exact H2]. }
    assert (Hreopen : exists a' v,
      (let '(a1, ok) := ensure_open w 5 (close (exchanged a)) in
       if ok then read_attempts w req retries n (attempt + 1) a1
       else (a1, Returned None))
      = (a', Returned v) /\
      addr a' = addr a /\
      (exchanges a <= exchanges a' <= exchanges a + S n)%nat /\
      (forall x, v = Some x ->
         exists buf raw,
           (exchanges a < exchanges a')%nat /\
           line w (exchanges a' - 1) req = Gathered buf /\
           (7 <= length buf)%nat /\
           parse_read_holding_registers buf (addr a) 1 = Ok [raw] /\
           x = tenths raw /\ ser_open a' = true)).
    { destruct (ensure_open_frame w 5 (close (exchanged a)))
        as (Ha1 & He1 & Hok1 & _).
      cbv zeta in Ha1, He1, Hok1.
      destruct (ensure_open w 5 (close (exchanged a))) as [a1 ok].
      cbn [fst snd] in Ha1, He1, Hok1. cbn in Ha1, He1.
      destruct ok.
      - destruct (Hok1 eq_refl) as [Hs1 _].
        destruct (IH (attempt + 1) a1 Hs1) as (a' & v & Heq & Ha & He & Hv).
        exists a', v.
        split; [exact Heq|]. split; [congruence|]. split; [lia|].
        intros x Hx. destruct (Hv x Hx) as (b & raw & H1 & H2 & H3 & H4 & H5).
        exists b, raw. split; [lia|]. split; [exact H2|]. split; [exact H3|].
        split; [now rewrite <- Ha1 | exact H5].
      - exists a1, None.
        split; [reflexivity|]. split; [exact Ha1|]. split; [lia|]. discriminate. }
    destruct (line w (exchanges a) req) as [|buf] eqn:El; [exact Hreopen|].
    destruct (Nat.ltb_spec (length buf) 7) as [Hshort|Hlong]; [exact Hreopen|].
    cbn [addr exchanged].
    destruct (parse_read_holding_registers buf (addr a) 1) as [vals|e] eqn:Ep.
    + destruct (parse_one_value buf (addr a) vals Ep) as [raw ->].
      exists (exchanged a), (Some (tenths raw)).
      split; [reflexivity|]. split; [reflexivity|].
      split; [cbn; lia|].
      intros x Hx. injection Hx as <-. exists buf, raw. cbn.
      rewrite Nat.sub_0_r. repeat split; try assumption; lia.
    + rewrite (parse_long_enough buf (addr a) 1 e) by (assumption || lia).
      exact Hretry.
Qed.

(** The loop across [j] answers that the parser refuses: it waits 0.05 s
    after each and returns the value parsed from the next answer. *)
Lemma read_attempts_bad_answers (req frame : list Z) (retries raw : Z) (j : nat) :
  forall (n : nat) (attempt : Z) (a : Anemometer),
  (j < n)%nat -> attempt + Z.of_nat j <= retries ->
  (forall i, (i < j)%nat ->
     exists buf e, line w (exchanges a + i) req = Gathered buf /\
                   (7 <= length buf)%nat /\
                   parse_read_holding_registers buf (addr a) 1 = Raise e) ->
  line w (exchanges a + j) req = Gathered frame ->
  (7 <= length frame)%nat ->
  parse_read_holding_registers frame (addr a) 1 = Ok [raw] ->
  exists a',
    read_attempts w req retries n attempt a
    = (a', Returned (Some (tenths raw))) /\
    exchanges a' = (exchanges a + j + 1)%nat /\
    slept a' = repeat 0.05%float j ++ slept a /\
    open_calls a' = open_calls a /\ ser_open a' = ser_open a /\
    clock_reads a' = clock_reads a.
Proof.
  induction j as [|j IH]; intros n attempt a Hn Hatt Hbad Hline Hlen Hparse;
    (destruct n as [|n]; [lia|]); cbn [read_attempts]; cbv zeta.
  - rewrite Nat.add_0_r in Hline. rewrite Hline.
    destruct (Nat.ltb_spec (length frame) 7); [lia|].
    cbn [addr exchanged]. rewrite Hparse.
    eexists. split; [reflexivity|]. cbn. repeat split; lia.
  - destruct (Hbad 0%nat ltac:(lia)) as (buf & e & Hb & Hbl & Hbp).
    rewrite Nat.add_0_r in Hb. rewrite Hb.
    destruct (Nat.ltb_spec (length buf) 7); [lia|].
    cbn [addr exchanged]. rewrite Hbp.
    rewrite (parse_long_enough buf (addr a) 1 e) by (assumption || lia).
    destruct (Z.geb_spec attempt retries); [lia|].
    assert (Hbad' : forall i, (i < j)%nat ->
              exists b e', line w (exchanges (sleep 0.05 (exchanged a)) + i) req
                           = Gathered b /\ (7 <= length b)%nat /\
                           parse_read_holding_registers b
                             (addr (sleep 0.05 (exchanged a))) 1 = Raise e').
    { intros i Hi. cbn [exchanges addr sleep exchanged].
      destruct (Hbad (S i) ltac:(lia)) as (b & e' & Hb' & Hbl' & Hbp').
      exists b, e'. split; [|now split].
      now replace (S (exchanges a) + i)%nat with (exchanges a + S i)%nat by lia. }
    assert (Hline' : line w (exchanges (sleep 0.05 (exchanged a)) + j) req
                     = Gathered frame).
    { cbn [exchanges sleep exchanged].
      now replace (S (exchanges a) + j)%nat with (exchanges a + S j)%nat by lia. }
    destruct (IH n (attempt + 1) (sleep 0.05 (exchanged a))
                ltac:(lia) ltac:(lia) Hbad' Hline' Hlen Hparse)
      as (a' & Heq & He & Hsl & Ho & Hs & Hc).
    exists a'. split; [exact Heq|]. cbn in He, Hsl, Ho, Hs, Hc.
    split; [lia|]. split; [|now repeat split].
    rewrite Hsl. cbn [repeat app]. apply repeat_snoc.
Qed.

Lemma ensure_open_reopens (retries : Z) (a : Anemometer) :
  ser_open a = false ->
  (monotonic w (clock_reads a) <? _down_until a)%float = false ->
  port_opens w (open_calls a) = true -> 0 <= retries ->
  ensure_open w retries a = (set_ser true (open_called (clock_read a)), true).
Proof.
  intros Hs Hnow Hp Hr. unfold ensure_open. cbn [_down_until clock_read].
  rewrite Hnow.
  destruct (Z.to_nat (retries + 1)) as [|m] eqn:E; [lia|].
  cbn [open_attempts]. unfold open. cbn [ser_open open_calls clock_read].
  now rewrite Hs, Hp.
Qed.

(** The loop across [j] failed exchanges (serial errors or short reads)
    when the port can be reopened at once each time. *)
Lemma read_attempts_reopened (req frame : list Z) (retries raw : Z) (j : nat) :
  forall (n : nat) (attempt : Z) (a : Anemometer),
  (j < n)%nat ->
  (forall i, (i < j)%nat ->
     line_failure (line w (exchanges a + i) req) = true /\
     (monotonic w (clock_reads a + i) <? _down_until a)%float = false /\
     port_opens w (open_calls a + i) = true) ->
  line w (exchanges a + j) req = Gathered frame ->
  (7 <= length frame)%nat ->
  parse_read_holding_registers frame (addr a) 1 = Ok [raw] ->
  exists a',
    read_attempts w req retries n attempt a
    = (a', Returned (Some (tenths raw))) /\
    exchanges a' = (exchanges a + j + 1)%nat /\
    open_calls a' = (open_calls a + j)%nat /\
    clock_reads a' = (clock_reads a + j)%nat /\
    slept a' = slept a /\
    (ser_open a = true -> ser_open a' = true).
Proof.
  induction j as [|j IH]; intros n attempt a Hn Hfail Hline Hlen Hparse;
    (destruct n as [|n]; [lia|]); cbn [read_attempts]; cbv zeta.
  - rewrite Nat.add_0_r in Hline. rewrite Hline.
    destruct (Nat.ltb_spec (length frame) 7); [lia|].
    cbn [addr exchanged]. rewrite Hparse.
    eexists. split; [reflexivity|]. cbn. repeat split; try lia. auto.
  - destruct (Hfail 0%nat ltac:(lia)) as (Hf & Hc & Hp).
    rewrite !Nat.add_0_r in Hf, Hc, Hp.
    set (a1 := set_ser true (open_called (clock_read (close (exchanged a))))).
    assert (Hfail' : forall i, (i < j)%nat ->
              line_failure (line w (exchanges a1 + i) req) = true /\
              (monotonic w (clock_reads a1 + i) <? _down_until a1)%float = false /\
              port_opens w (open_calls a1 + i) = true).
    { intros i Hi. subst a1. cbn.
      destruct (Hfail (S i) ltac:(lia)) as (H1 & H2 & H3).
      rewrite !Nat.add_succ_r in H1, H2, H3. now repeat split. }
    assert (Hline' : line w (exchanges a1 + j) req = Gathered frame).
    { subst a1. cbn. now rewrite Nat.add_succ_r in Hline. }
    destruct (IH n (attempt + 1) a1 ltac:(lia) Hfail' Hline' Hlen Hparse)
      as (a' & Heq & He & Ho & Hcl & Hsl & Hs).
    exists a'. split.
    + assert (Hre :
        (let '(a2, ok) := ensure_open w 5 (close (exchanged a)) in
         if ok then read_attempts w req retries n (attempt + 1) a2
         else (a2, Returned None))
        = (a', Returned (Some (tenths raw)))).
      { rewrite (ensure_open_reopens 5 (close (exchanged a)))
          by (reflexivity || assumption || lia).
        exact Heq. }
      unfold line_failure in Hf.
      destruct (line w (exchanges a) req) as [|buf]; [exact Hre|].
      rewrite Hf. exact Hre.
    + subst a1. cbn in He, Ho, Hcl, Hsl, Hs.
      repeat split; try lia; try assumption. intros _. now apply Hs.
Qed.

End Reading.

(** X14.  [read_wind_speed] returns: for an address that fits a byte it
    raises nothing, neither from the parser ([struct.error] is out of
    reach on the seven bytes it reads, and a parsed answer holds a
    value), and the only thing that can escape is the [struct.error] of
    the request builder for an address outside 0..255, before any
    exchange.  It makes at most [retries + 1] exchanges, and a value it
    returns is a tenth of the register parsed from the last exchange, an
    answer of at least seven bytes that passed every check, with the port
    open. *)
Theorem read_wind_speed_safe (w : World) (retries : Z) (a : Anemometer) :
  exists a' r,
    read_wind_speed w retries a = (a', r) /\
    addr a' = addr a /\
    (exchanges a <= exchanges a' <= exchanges a + Z.to_nat (retries + 1))%nat /\
    (is_byte (addr a) = true -> exists v, r = Returned v) /\
    (forall e, r = Escapes e ->
       e = BuildError StructError /\ is_byte (addr a) = false /\
       exchanges a' = exchanges a) /\
    (forall x, r = Returned (Some x) ->
       exists buf raw,
         (exchanges a < exchanges a')%nat /\
         line w (exchanges a' - 1) (request_frame (addr a) 0 1) = Gathered buf /\
         (7 <= length buf)%nat /\
         parse_read_holding_registers buf (addr a) 1 = Ok [raw] /\
         x = tenths raw /\ ser_open a' = true).
Proof.
  unfold read_wind_speed.
  destruct (ensure_open_frame w 5 a) as (Ha1 & He1 & Hok1 & _).
  cbv zeta in Ha1, He1, Hok1.
  destruct (ensure_open w 5 a) as [a1 ok]. cbn [fst snd] in Ha1, He1, Hok1.
  destruct ok; cbn [negb].
  - destruct (Hok1 eq_refl) as [Hs1 _]. rewrite Ha1.
    destruct (is_byte (addr a)) eqn:Hb.
    + apply is_byte_iff in Hb.
      rewrite build_request by lia.
      destruct (read_attempts_spec w (request_frame (addr a) 0 1) retries
                  (Z.to_nat (retries + 1)) 0 a1 Hs1)
        as (a' & v & Heq & Ha & He & Hv).
      exists a', (Returned v).
      split; [exact Heq|]. split; [congruence|]. split; [lia|].
      split; [intros _; now exists v|].
      split; [discriminate|].
      intros x Hx. injection Hx as ->.
      destruct (Hv x eq_refl) as (buf & raw & H1 & H2 & H3 & H4 & H5).
      exists buf, raw. split; [lia|]. split; [exact H2|]. split; [exact H3|].
      split; [now rewrite <- Ha1 | exact H5].
    + rewrite build_out_of_range.
      * exists a1, (Escapes (BuildError StructError)).
        split; [reflexivity|]. split; [exact Ha1|]. split; [lia|].
        split; [discriminate|].
        split; [|discriminate].
        intros e He. injection He as <-. now repeat split.
      * intros (Hr & _). apply is_byte_iff in Hr. congruence.
  - exists a1, (Returned None).
    split; [reflexivity|]. split; [exact Ha1|]. split; [lia|].
    split; [intros _; now exists None|].
    split; discriminate.
Qed.

(** X15.  With the port open and not marked as down, when the first [j]
    exchanges ([j] at most [retries]) bring seven bytes or more that the
    parser refuses and the next one brings the device's answer for the
    register [raw], [read_wind_speed] returns [raw / 10.0] after exactly
    [j + 1] exchanges and [j] waits of 0.05 s, without reopening the
    port. *)
Theorem read_wind_speed_after_bad_answers (w : World) (retries : Z)
    (a : Anemometer) (raw : Z) (j : nat) :
  let req := request_frame (addr a) 0 1 in
  is_byte (addr a) = true -> is_register raw = true ->
  ser_open a = true ->
  (monotonic w (clock_reads a) <? _down_until a)%float = false ->
  Z.of_nat j <= retries ->
  (forall i, (i < j)%nat ->
     exists buf e, line w (exchanges a + i) req = Gathered buf /\
                   (7 <= length buf)%nat /\
                   parse_read_holding_registers buf (addr a) 1 = Raise e) ->
  line w (exchanges a + j) req = Gathered (response_frame (addr a) [raw]) ->
  exists a',
    read_wind_speed w retries a = (a', Returned (Some (tenths raw))) /\
    exchanges a' = (exchanges a + j + 1)%nat /\
    slept a' = repeat 0.05%float j ++ slept a /\
    open_calls a' = open_calls a /\ ser_open a' = true.
Proof.
  intros req Hb Hraw Hs Hnow Hj Hbad Hline.
  unfold read_wind_speed.
  rewrite ensure_open_ready by (assumption || lia).
  cbn [negb addr clock_read].
  apply is_byte_iff in Hb. rewrite build_request by lia. fold req.
  destruct (read_attempts_bad_answers w req (response_frame (addr a) [raw])
              retries raw j (Z.to_nat (retries + 1)) 0 (clock_read a))
    as (a' & Heq & He & Hsl & Ho & Hso & _); try assumption; try lia.
  - rewrite response_length. cbn. lia.
  - apply (response_parse (addr a) [raw]).
  - exists a'. split; [exact Heq|]. cbn in He, Hsl, Ho, Hso.
    repeat split; try assumption. congruence.
Qed.

(** An answer with a bad CRC, then the answer 2.5 m/s from the device at
    address 2. *)
Lemma read_wind_speed_after_bad_answers_witness :
  let w := {| monotonic := fun _ => 1%float;
              port_opens := fun _ => true;
              line := fun k _ =>
                match k with
                | O => Gathered [2; 3; 2; 0; 25; 0; 0]
                | _ => Gathered [2; 3; 2; 0; 25; 61; 142]
                end |} in
  let a := set_ser true (new 2) in
  exists a',
    read_wind_speed w 3 a = (a', Returned (Some 2.5%float)) /\
    exchanges a' = 2%nat /\ slept a' = [0.05%float].
Proof.
  intros w a.
  destruct (read_wind_speed_after_bad_answers w 3 a 25 1)
    as (a' & Heq & He & Hsl & _); try reflexivity.
  - lia.
  - intros i Hi. exists [2; 3; 2; 0; 25; 0; 0], (InvalidCRC 36413 0).
    destruct i; [|lia].
    split; [reflexivity|]. split; [cbn [length]; lia | reflexivity].
  - exists a'. repeat split; assumption.
Defined.

(** X16.  A short read is not retried in place.  The timeout raised on
    fewer than seven bytes is handled as a serial error is: with the port
    open and the clock outside the degraded window, when the first [j]
    exchanges ([j] at most [retries]) fail, by a serial error or a short
    read, and the port reopens at once each time, [read_wind_speed]
    closes and reopens the port [j] times, never waits, and returns
    [raw / 10.0] from the device's answer at exchange [j + 1]. *)
Theorem read_wind_speed_after_short_reads (w : World) (retries : Z)
    (a : Anemometer) (raw : Z) (j : nat) :
  let req := request_frame (addr a) 0 1 in
  is_byte (addr a) = true -> is_register raw = true ->
  ser_open a = true ->
  Z.of_nat j <= retries ->
  (forall i, (i <= j)%nat ->
     (monotonic w (clock_reads a + i) <? _down_until a)%float = false) ->
  (forall i, (i < j)%nat ->
     line_failure (line w (exchanges a + i) req) = true /\
     port_opens w (open_calls a + i) = true) ->
  line w (exchanges a + j) req = Gathered (response_frame (addr a) [raw]) ->
  exists a',
    read_wind_speed w retries a = (a', Returned (Some (tenths raw))) /\
    exchanges a' = (exchanges a + j + 1)%nat /\
    open_calls a' = (open_calls a + j)%nat /\
    clock_reads a' = (clock_reads a + j + 1)%nat /\
    slept a' = slept a /\ ser_open a' = true.
Proof.
  intros req Hb Hraw Hs Hj Hclock Hfail Hline.
  unfold read_wind_speed.
  rewrite ensure_open_ready;
    [|now rewrite <- (Nat.add_0_r (clock_reads a)); apply Hclock; lia
     |assumption | lia].
  cbn [negb addr clock_read].
  apply is_byte_iff in Hb. rewrite build_request by lia. fold req.
  destruct (read_attempts_reopened w req (response_frame (addr a) [raw])
              retries raw j (Z.to_nat (retries + 1)) 0 (clock_read a))
    as (a' & Heq & He & Ho & Hc & Hsl & Hso).
  - lia.
  - intros i Hi.
    cbn [exchanges clock_reads open_calls _down_until clock_read].
    destruct (Hfail i Hi) as [H1 H2].
    split; [exact H1|]. split; [|exact H2].
    replace (S (clock_reads a) + i)%nat with (clock_reads a + S i)%nat by lia.
    apply Hclock. lia.
  - exact Hline.
  - rewrite response_length. cbn. lia.
  - apply (response_parse (addr a) [raw]).
  - exists a'. split; [exact Heq|]. cbn in He, Ho, Hc, Hsl, Hso.
    repeat split; try assumption; try lia. now apply Hso.
Qed.

(** A read that times out with three bytes, then the answer 2.5 m/s: the
    port is reopened once and nothing is slept. *)
Lemma read_wind_speed_after_short_reads_witness :
  let w := {| monotonic := fun _ => 1%float;
              port_opens := fun _ => true;
              line := fun k _ =>
                match k with
                | O => Gathered [2; 3; 2]
                | _ => Gathered [2; 3; 2; 0; 25; 61; 142]
                end |} in
  let a := set_ser true (new 2) in
  exists a',
    read_wind_speed w 3 a = (a', Returned (Some 2.5%float)) /\
    exchanges a' = 2%nat /\ open_calls a' = 1%nat /\ slept a' = [].
Proof.
  intros w a.
  destruct (read_wind_speed_after_short_reads w 3 a 25 1)
    as (a' & Heq & He & Ho & _ & Hsl & _); try reflexivity.
  - lia.
  - intros i Hi. destruct i; [split; reflexivity | lia].
  - exists a'. repeat split; assumption.
Defined.

Section SyncHandler.

Variable w : World.
Variable lib : Datetime.
Variable round1 : float -> float.

Lemma read_wind_speed_bound (retries : Z) (a : Anemometer) :
  (exchanges a <= exchanges (fst (read_wind_speed w retries a))
   <= exchanges a + Z.to_nat (retries + 1))%nat.
Proof.
  unfold read_wind_speed.
  destruct (ensure_open_frame w 5 a) as (_ & He1 & Hok1 & _).
  cbv zeta in He1, Hok1.
  destruct (ensure_open w 5 a) as [a1 ok]. cbn [fst snd] in He1, Hok1.
  destruct ok; cbn [negb]; [|cbn [fst]; lia].
  destruct (build_read_holding_registers (addr a1) 0 1) as [req|e];
    [|cbn [fst]; lia].
  destruct (Hok1 eq_refl) as [Hs1 _].
  destruct (read_attempts_spec w req retries (Z.to_nat (retries + 1)) 0 a1 Hs1)
    as (a' & v & Heq & _ & He & _).
  rewrite Heq. cbn [fst]. lia.
Qed.

(** The cases of the handler. *)
Lemma on_message_cases (pub : PublishOutcome) (store_ok : bool)
    (msg : SyncMsg) (wk : Worker) :
  anemometer.on_message w lib round1 pub store_ok msg wk = wk \/
  exists ts, msg = Stamp ts /\
    is_valid_iso8601_z lib ts = true /\ LAST_TS wk <> Some ts /\
    let a1 := fst (read_wind_speed w 3 (anemo wk)) in
    let r := snd (read_wind_speed w 3 (anemo wk)) in
    ((forall x, r <> Returned (Some x)) /\
     anemometer.on_message w lib round1 pub store_ok msg wk
     = {| anemo := a1; LAST_TS := LAST_TS wk; outputs := outputs wk |}) \/
    (exists x, r = Returned (Some x) /\
       anemometer.on_message w lib round1 pub store_ok msg wk
       = match pub with
         | PublishRaised =>
             {| anemo := a1; LAST_TS := LAST_TS wk;
                outputs := Publish (round1 x) ts PublishRaised :: outputs wk |}
         | PublishRc rc_ok =>
             {| anemo := a1;
                LAST_TS := if rc_ok then Some ts else LAST_TS wk;
                outputs := InsertWind (round1 x) ts store_ok
                           :: Publish (round1 x) ts (PublishRc rc_ok)
                           :: outputs wk |}
         end).
Proof.
  destruct msg as [|ts]; [now left|]. cbn [anemometer.on_message].
  destruct (is_valid_iso8601_z lib ts) eqn:Ev; cbn [negb]; [|now left].
  destruct (opt_str_eqb (LAST_TS wk) ts) eqn:Ed; [now left|].
  apply opt_str_eqb_false in Ed.
  right. exists ts. split; [reflexivity|]. split; [exact Ev|].
  split; [exact Ed|]. cbv zeta.
  destruct (read_wind_speed w 3 (anemo wk)) as [a1 r]. cbn [fst snd].
  destruct r as [[x|]|e].
  - right. exists x. split; [reflexivity|].
    destruct pub as [|rc_ok]; [reflexivity|].
    unfold insert_wind_data. rewrite Ev. reflexivity.
  - left. split; [discriminate | reflexivity].
  - left. split; [discriminate | reflexivity].
Qed.

Lemma sync_inv_on_message (pub : PublishOutcome) (store_ok : bool)
    (msg : SyncMsg) (wk : Worker) :
  sync_inv lib wk ->
  sync_inv lib (anemometer.on_message w lib round1 pub store_ok msg wk).
Proof.
  intros (Hl & Hn & Hi & Hv).
  destruct (on_message_cases pub store_ok msg wk)
    as [-> | (ts & -> & Ev & Ed & [[_ ->] | (x & _ & ->)])].
  - now repeat split.
  - now repeat split.
  - destruct pub as [|[|]]; unfold sync_inv; cbn.
    + repeat split; try assumption. now constructor.
    + repeat split; try assumption.
      * destruct (published (outputs wk)) as [|t rest] eqn:Ep; [exact I|].
        split; [|exact Hn]. cbn in Hl. congruence.
      * constructor; [exact Ev|]. now constructor.
    + repeat split; try assumption.
      constructor; [exact Ev|]. now constructor.
Qed.

Lemma sync_inv_run (ms : list (SyncMsg * PublishOutcome * bool)) : forall wk,
  sync_inv lib wk -> sync_inv lib (run_sync w lib round1 ms wk).
Proof.
  induction ms as [|[[m pub] ok] ms IH]; intros wk H; [exact H|].
  cbn [run_sync]. apply IH, sync_inv_on_message, H.
Qed.

End SyncHandler.

(** X17.  Over a lifetime of the anemometer worker, whatever sync
    messages arrive and whatever the serial line, the broker and the
    store do: [LAST_TS] is the timestamp of the latest publication that
    succeeded ([None] before the first), no two successive successful
    publications carry the same timestamp, every store write directly
    follows the publication (whose call returned) of the same rounded
    value under the same timestamp, and every timestamp that goes out is
    a valid one. *)
Theorem sync_publish_log (w : World) (lib : Datetime) (round1 : float -> float)
    (ms : list (SyncMsg * PublishOutcome * bool)) (addr0 : Z) :
  let wk := run_sync w lib round1 ms (initial_worker addr0) in
  LAST_TS wk = hd_error (published (outputs wk)) /\
  no_adjacent_dup (published (outputs wk)) /\
  inserts_follow_publish (outputs wk) /\
  Forall (fun o => is_valid_iso8601_z lib (output_ts o) = true) (outputs wk).
Proof.
  cbv zeta. apply (sync_inv_run w lib round1 ms (initial_worker addr0)).
  repeat split. constructor.
Qed.

(** X18.  One sync message: a message without a usable timestamp, with
    an invalid one, or with the timestamp already published leaves the
    worker as it is, without touching the serial line.  Any other makes
    one reading with three retries, of at most four exchanges, and the
    anemometer is left as that reading leaves it.  When the reading gives
    no value (or raises), nothing goes out and [LAST_TS] stays, so that
    the timestamp is tried again.  When it gives a value, that value
    rounded is published under the timestamp of the message; if the
    publication raises nothing more happens and [LAST_TS] stays;
    otherwise the same rounded value is written to the store under the
    same timestamp, and [LAST_TS] moves to the timestamp exactly when the
    publication succeeded, whether or not the store write did. *)
Theorem sync_message_effects (w : World) (lib : Datetime)
    (round1 : float -> float) (pub : PublishOutcome) (store_ok : bool)
    (msg : SyncMsg) (wk : Worker) :
  let wk' := anemometer.on_message w lib round1 pub store_ok msg wk in
  let a1 := fst (read_wind_speed w 3 (anemo wk)) in
  let r := snd (read_wind_speed w 3 (anemo wk)) in
  (exchanges (anemo wk) <= exchanges (anemo wk')
   <= exchanges (anemo wk) + 4)%nat /\
  match msg with
  | Malformed => wk' = wk
  | Stamp ts =>
      (is_valid_iso8601_z lib ts = false \/ LAST_TS wk = Some ts ->
       wk' = wk) /\
      (is_valid_iso8601_z lib ts = true -> LAST_TS wk <> Some ts ->
       anemo wk' = a1 /\
       match r with
       | Returned (Some x) =>
           match pub with
           | PublishRaised =>
               outputs wk'
               = Publish (round1 x) ts PublishRaised :: outputs wk /\
               LAST_TS wk' = LAST_TS wk
           | PublishRc rc_ok =>
               outputs wk'
               = InsertWind (round1 x) ts store_ok
                 :: Publish (round1 x) ts (PublishRc rc_ok) :: outputs wk /\
               LAST_TS wk' = (if rc_ok then Some ts else LAST_TS wk)
           end
       | Returned None | Escapes _ =>
           outputs wk' = outputs wk /\ LAST_TS wk' = LAST_TS wk
       end)
  end.
Proof.
  cbv zeta.
  pose proof (read_wind_speed_bound w 3 (anemo wk)) as Hb.
  change (Z.to_nat (3 + 1)) with 4%nat in Hb.
  split.
  - destruct (on_message_cases w lib round1 pub store_ok msg wk)
      as [-> | (ts & -> & Ev & Ed & [[_ ->] | (x & _ & ->)])];
      [lia | exact Hb |].
    destruct pub; exact Hb.
  - destruct msg as [|ts]; [reflexivity|]. split.
    + intros [Hinv | Hdup]; cbn [anemometer.on_message].
      * now rewrite Hinv.
      * destruct (negb (is_valid_iso8601_z lib ts)); [reflexivity|].
        now rewrite (proj2 (opt_str_eqb_true _ _) Hdup).
    + intros Hv Hnew. cbn [anemometer.on_message].
      rewrite Hv. cbn [negb].
      rewrite (proj2 (opt_str_eqb_false _ _) Hnew).
      destruct (read_wind_speed w 3 (anemo wk)) as [a r]. cbn [fst snd].
      destruct r as [[x|]|e]; try (now repeat split).
      destruct pub as [|rc_ok]; [now repeat split|].
      unfold insert_wind_data. rewrite Hv. now repeat split.
Qed.

(** X19.  From a sync message to the publication.  With the port open
    and not marked as down, the device answering the first exchange with
    the register [raw], and a valid timestamp that is not the last
    published one, the handler makes exactly one exchange, publishes
    [round(raw / 10.0, 1)] under that timestamp and then writes the same
    value to the store; when the publication succeeds [LAST_TS] becomes
    the timestamp, whatever the store answers, and a further delivery of
    the same sync message then changes nothing. *)
Theorem sync_end_to_end (w : World) (lib : Datetime) (round1 : float -> float)
    (store_ok : bool) (ts : string) (raw : Z) (wk : Worker) :
  let a := anemo wk in
  is_byte (addr a) = true -> is_register raw = true ->
  ser_open a = true ->
  (monotonic w (clock_reads a) <? _down_until a)%float = false ->
  line w (exchanges a) (request_frame (addr a) 0 1)
  = Gathered (response_frame (addr a) [raw]) ->
  is_valid_iso8601_z lib ts = true -> LAST_TS wk <> Some ts ->
  let v := round1 (tenths raw) in
  let wk1 :=
    anemometer.on_message w lib round1 (PublishRc true) store_ok (Stamp ts) wk in
  outputs wk1
  = InsertWind v ts store_ok :: Publish v ts (PublishRc true) :: outputs wk /\
  LAST_TS wk1 = Some ts /\
  exchanges (anemo wk1) = S (exchanges a) /\
  forall pub' store_ok',
    anemometer.on_message w lib round1 pub' store_ok' (Stamp ts) wk1 = wk1.
Proof.
  intros a Hb Hraw Hs Hnow Hline Hv Hfresh v wk1.
  assert (Hread : exists a1,
            read_wind_speed w 3 a = (a1, Returned (Some (tenths raw))) /\
            exchanges a1 = S (exchanges a)).
  { unfold read_wind_speed.
    rewrite ensure_open_ready by (assumption || lia).
    cbn [negb addr clock_read].
    apply is_byte_iff in Hb. rewrite build_request by lia.
    destruct (read_attempts_bad_answers w (request_frame (addr a) 0 1)
                (response_frame (addr a) [raw]) 3 raw 0 (Z.to_nat (3 + 1)) 0
                (clock_read a))
      as (a1 & Heq & He & _).
    - cbn. lia.
    - lia.
    - intros i Hi. lia.
    - cbn [exchanges clock_read]. now rewrite Nat.add_0_r.
    - rewrite response_length. cbn. lia.
    - apply (response_parse (addr a) [raw]).
    - exists a1. split; [exact Heq|]. cbn in He. lia. }
  destruct Hread as (a1 & Hread & He).
  assert (Hwk1 : wk1 = {| anemo := a1; LAST_TS := Some ts;
                          outputs := InsertWind v ts store_ok
                                     :: Publish v ts (PublishRc true)
                                     :: outputs wk |}).
  { subst wk1. cbn [anemometer.on_message]. rewrite Hv. cbn [negb].
    rewrite (proj2 (opt_str_eqb_false _ _) Hfresh).
    fold a. rewrite Hread. unfold insert_wind_data. rewrite Hv. reflexivity. }
  rewrite Hwk1. cbn [outputs LAST_TS anemo].
  repeat split; try assumption.
  intros pub' store_ok'. cbn [anemometer.on_message LAST_TS].
  rewrite Hv. cbn [negb opt_str_eqb]. now rewrite String.eqb_refl.
Qed.

(** The device at address 2 answering 2.5 m/s to the sync message of
    2024-01-01T00:00:00Z. *)
Lemma sync_end_to_end_witness :
  let w := {| monotonic := fun _ => 1%float;
              port_opens := fun _ => true;
              line := fun _ _ => Gathered [2; 3; 2; 0; 25; 61; 142] |} in
  let wk := {| anemo := set_ser true (new 2); LAST_TS := None; outputs := [] |} in
  let wk1 := anemometer.on_message w iso8601.lib (fun x => x) (PublishRc true)
               true (Stamp "2024-01-01T00:00:00Z") wk in
  outputs wk1
  = [InsertWind 2.5 "2024-01-01T00:00:00Z" true;
     Publish 2.5 "2024-01-01T00:00:00Z" (PublishRc true)] /\
  LAST_TS wk1 = Some "2024-01-01T00:00:00Z"%string.
Proof.
  intros w wk.
  destruct (sync_end_to_end w iso8601.lib (fun x => x) true
              "2024-01-01T00:00:00Z" 25 wk)
    as (Hout & Hlast & _); try reflexivity.
  - discriminate.
  - split; [exact Hout | exact Hlast].
Defined.
